(** * react-hooks-collection: the Rect Tracker and the Drag-Resize Controller

    A shallow embedding of [use-container-size] ([useContainerRect],
    [getScrollParents]) and [use-drag-resize] ([useDragResize]).

    JavaScript numbers are IEEE 754 binary64 values; they are embedded as
    Rocq's primitive [float], which is the same format, so every arithmetic
    step of the hooks ([+], [-], [*], [/], comparisons) is the operation the
    engine performs, NaN, infinities and signed zeros included.  The few
    built-ins the hooks call ([Math.min], [Math.max], [Math.round],
    [isFinite], [===]) are written out from ECMA-262 in [JSNumber].

    React state and refs become fields of a record that each callback
    transforms; object identity of the published rect is kept by a small
    heap of allocated rect objects; calls of the user's
    [onDimensionsChange] are recorded in a trace. *)

From Stdlib Require Import ZArith Bool List String Ascii Lia Floats.
Import ListNotations.

Set Warnings "-register-all".

(* ================================================================== *)
(** ** JavaScript numbers *)
(* ================================================================== *)

Module JSNumber.

Local Open Scope float_scope.

Definition number := float.

(** [a === b] on numbers: IEEE equality ([NaN !== NaN], [+0 === -0]). *)
Definition strict_eq (a b : number) : bool := (a =? b).
Definition strict_neq (a b : number) : bool := negb (a =? b).

(** [Math.max(a, b)]: NaN if either argument is NaN; [+0] counts as larger
    than [-0]. *)
Definition Math_max (a b : number) : number :=
  if is_nan a || is_nan b then nan
  else if a <? b then b
  else if b <? a then a
  else if get_sign a then b else a.

(** [Math.min(a, b)]: NaN if either argument is NaN; [-0] counts as smaller
    than [+0]. *)
Definition Math_min (a b : number) : number :=
  if is_nan a || is_nan b then nan
  else if a <? b then a
  else if b <? a then b
  else if get_sign a then a else b.

(** The double that represents the integer [n] (exact for [|n| <= 2^53]). *)
Definition of_Z (n : Z) : number :=
  SF2Prim (binary_normalize prec emax n 0 false).

(** [Math.round(x)]: the integer nearest to [x]; of two equally near integers
    the one closer to +infinity.  NaN, the infinities, the zeros and every
    integral value are returned as they are; a result of zero keeps the sign
    of [x].  A finite [x] is [(-1)^s * m * 2^e]; for [e < 0] it has [-e]
    fractional bits. *)
Definition Math_round (x : number) : number :=
  match Prim2SF x with
  | S754_finite s m e =>
      if (0 <=? e)%Z then x
      else
        let k := (- e)%Z in
        let q := Z.shiftr (Zpos m) k in
        let twice_frac := (2 * Z.land (Zpos m) (Z.ones k))%Z in
        let unit := Z.shiftl 1 k in
        let n :=
          if s then (if (unit <? twice_frac)%Z then q + 1 else q)%Z
          else (if (unit <=? twice_frac)%Z then q + 1 else q)%Z in
        if (n =? 0)%Z then (if s then neg_zero else zero)
        else of_Z (if s then - n else n)%Z
  | _ => x
  end.

(** [floor(v + 1/2)] for [v = (-1)^s * m * 2^e] with [e < 0], in integer
    arithmetic: what [Math.round] is compared with. *)
Definition floor_plus_half (s : bool) (m : positive) (e : Z) : Z :=
  ((2 * cond_Zopp s (Zpos m) + 2 ^ (- e)) / 2 ^ (1 - e))%Z.

(** Global [isFinite(x)] on a number. *)
Definition isFinite (x : number) : bool := is_finite x.

(** [Number.POSITIVE_INFINITY]. *)
Definition POSITIVE_INFINITY : number := infinity.

(** The order of two numbers as the comparison operators see it: [None] when
    one of them is NaN. *)
Definition cmp (a b : number) : option comparison :=
  SFcompare (Prim2SF a) (Prim2SF b).

(** What [<], [<=], [===] and [isNaN] answer for a pair of numbers, for each
    outcome of [cmp]. *)
Definition cmp_view (a b : number) (c : option comparison) : Prop :=
  match c with
  | Some Lt =>
      (a <? b) = true /\ (b <? a) = false /\ (a <=? b) = true /\
      (b <=? a) = false /\ (a =? b) = false /\ (b =? a) = false /\
      is_nan a = false /\ is_nan b = false
  | Some Eq =>
      (a <? b) = false /\ (b <? a) = false /\ (a <=? b) = true /\
      (b <=? a) = true /\ (a =? b) = true /\ (b =? a) = true /\
      is_nan a = false /\ is_nan b = false
  | Some Gt =>
      (a <? b) = false /\ (b <? a) = true /\ (a <=? b) = false /\
      (b <=? a) = true /\ (a =? b) = false /\ (b =? a) = false /\
      is_nan a = false /\ is_nan b = false
  | None =>
      (a <? b) = false /\ (b <? a) = false /\ (a <=? b) = false /\
      (b <=? a) = false /\ (a =? b) = false /\ (b =? a) = false /\
      (is_nan a || is_nan b) = true
  end.

(** The shapes of the finite numbers among the values of the format. *)
Definition SFfinite (u : spec_float) : Prop :=
  match u with
  | S754_zero _ | S754_finite _ _ _ => True
  | _ => False
  end.

(** [a ?? b]. *)
Definition nullish {A : Type} (a : option A) (b : A) : A :=
  match a with Some v => v | None => b end.

End JSNumber.

Import JSNumber.

(* ================================================================== *)
(** ** use-container-size: [getScrollParents] and [useContainerRect] *)
(* ================================================================== *)

Module ContainerRect.

Local Open Scope float_scope.

(** [Rect]: the picked fields of [DOMRectReadOnly]. *)
Record Rect := mkRect {
  x : number; y : number; width : number; height : number;
  top : number; left : number; right : number; bottom : number
}.

Definition DEFAULT_RECT : Rect :=
  {| x := 0; y := 0; width := 0; height := 0;
     top := 0; left := 0; right := 0; bottom := 0 |}.

(** What [getComputedStyle] is read for. *)
Record CSSStyleDeclaration := mkStyle {
  overflowX : string;
  overflowY : string
}.

(** A DOM element: its identity, its computed style and its parent.  The
    ancestor chain of an element is finite, hence the inductive type. *)
Inductive Element : Type := mkElement {
  nodeId : nat;
  getComputedStyle : CSSStyleDeclaration;
  parentElement : option Element
}.

(** [n !== m] on elements is identity of nodes. *)
Definition same_node (n m : Element) : bool := Nat.eqb (nodeId n) (nodeId m).

Inductive EventTarget := ElementTarget (e : Element) | WindowTarget.

Record Document := mkDocument { body : Element }.

(** [s.startsWith(p)] and the unanchored search a regular expression without
    anchors performs. *)
Fixpoint starts_with (p s : string) : bool :=
  match p with
  | EmptyString => true
  | String c p' =>
      match s with
      | EmptyString => false
      | String d s' => Ascii.eqb c d && starts_with p' s'
      end
  end.

Fixpoint occurs_in (p s : string) : bool :=
  starts_with p s ||
  match s with
  | EmptyString => false
  | String _ s' => occurs_in p s'
  end.

(** [/(auto|scroll|overlay)/.test(s)]. *)
Definition scroll_regex_test (s : string) : bool :=
  occurs_in "auto" s || occurs_in "scroll" s || occurs_in "overlay" s.

(** The body of the [while (n && n !== document.body)] loop, entered with a
    non-null [n]; [res] is the array being pushed to. *)
Fixpoint scroll_loop (doc : Document) (n : Element) (res : list EventTarget)
  {struct n} : list EventTarget :=
  if same_node n (body doc) then res
  else
    let cs := getComputedStyle n in
    let res' :=
      if scroll_regex_test (overflowY cs) || scroll_regex_test (overflowX cs)
      then res ++ [ElementTarget n] else res in
    match parentElement n with
    | None => res'
    | Some p => scroll_loop doc p res'
    end.

Definition getScrollParents (doc : Document) (el : option Element)
  : list EventTarget :=
  match el with
  | None => [WindowTarget]
  | Some el =>
      let res :=
        match parentElement el with
        | None => []
        | Some n => scroll_loop doc n []
        end in
      res ++ [WindowTarget]
  end.

(** The geometry the browser reports for each node at the moment of a call
    of [getBoundingClientRect]. *)
Definition Layout := Element -> Rect.

(** An event listener function, identified by the moment it was created. *)
Definition Handler := nat.

(** The hook instance: React state ([rect], held by reference into [heap],
    the rect objects allocated so far; [renders] counts the updates React
    was signalled), the refs of the source, and the part of the browser the
    hook talks to (pending animation-frame callbacks, registered
    listeners). *)
Record Tracker := mkTracker {
  heap : list Rect;
  rect : nat;
  renders : nat;
  nodeRef : option Element;
  rectRef : nat;
  rafIdRef : option nat;
  roRef : option Element;
  resizeHandlerRef : option Handler;
  scrollHandlersRef : list (EventTarget * Handler);
  pendingFrames : list nat;
  nextId : nat;
  windowResizeListeners : list Handler;
  scrollListeners : list (EventTarget * Handler)
}.

(** Reading a rect object through its reference. *)
Definition deref (t : Tracker) (r : nat) : Rect := nth r (heap t) DEFAULT_RECT.

(** [useContainerRect] before any attach: both [useState] and [rectRef]
    start at the shared [DEFAULT_RECT] object (reference 0). *)
Definition useContainerRect_init : Tracker :=
  {| heap := [DEFAULT_RECT]; rect := 0; renders := 0;
     nodeRef := None; rectRef := 0; rafIdRef := None; roRef := None;
     resizeHandlerRef := None; scrollHandlersRef := [];
     pendingFrames := []; nextId := 1;
     windowResizeListeners := []; scrollListeners := [] |}.

(** The [same] test of [measure]. *)
Definition same_rounded (prev r : Rect) : bool :=
  strict_eq (Math_round (width prev)) (Math_round (width r)) &&
  strict_eq (Math_round (height prev)) (Math_round (height r)) &&
  strict_eq (Math_round (x prev)) (Math_round (x r)) &&
  strict_eq (Math_round (y prev)) (Math_round (y r)).

(** [measure(el)]: [setRect(prev => ...)].  Returning [prev] leaves the state
    object and everything else as it is; otherwise a new object is
    allocated, stored in [rectRef] and published. *)
Definition measure (L : Layout) (el : Element) (t : Tracker) : Tracker :=
  let r := L el in
  let prev := deref t (rect t) in
  if same_rounded prev r then t
  else
    let next :=
      {| x := x r; y := y r; width := width r; height := height r;
         top := top r; left := left r; right := right r; bottom := bottom r |} in
    let addr := List.length (heap t) in
    {| heap := heap t ++ [next]; rect := addr; renders := S (renders t);
       nodeRef := nodeRef t; rectRef := addr; rafIdRef := rafIdRef t;
       roRef := roRef t; resizeHandlerRef := resizeHandlerRef t;
       scrollHandlersRef := scrollHandlersRef t;
       pendingFrames := pendingFrames t; nextId := nextId t;
       windowResizeListeners := windowResizeListeners t;
       scrollListeners := scrollListeners t |}.

(** Truthiness of a ref holding [number | null]. *)
Definition truthy (o : option nat) : bool :=
  match o with Some (S _) => true | _ => false end.

Definition cancelAnimationFrame (o : option nat) (q : list nat) : list nat :=
  match o with
  | Some id => filter (fun i => negb (Nat.eqb i id)) q
  | None => q
  end.

(** [schedule()]. *)
Definition schedule (t : Tracker) : Tracker :=
  let q := if truthy (rafIdRef t)
           then cancelAnimationFrame (rafIdRef t) (pendingFrames t)
           else pendingFrames t in
  let id := nextId t in
  {| heap := heap t; rect := rect t; renders := renders t;
     nodeRef := nodeRef t; rectRef := rectRef t; rafIdRef := Some id;
     roRef := roRef t; resizeHandlerRef := resizeHandlerRef t;
     scrollHandlersRef := scrollHandlersRef t;
     pendingFrames := q ++ [id]; nextId := S id;
     windowResizeListeners := windowResizeListeners t;
     scrollListeners := scrollListeners t |}.

(** The callback [schedule] hands to [requestAnimationFrame], run by the
    browser for a pending request. *)
Definition frame_callback (L : Layout) (t : Tracker) : Tracker :=
  match nodeRef t with
  | Some el => measure L el t
  | None => t
  end.

Definition same_target (a b : EventTarget) : bool :=
  match a, b with
  | WindowTarget, WindowTarget => true
  | ElementTarget e, ElementTarget f => same_node e f
  | _, _ => false
  end.

Definition remove_scroll (l : list (EventTarget * Handler))
  (reg : list (EventTarget * Handler)) : list (EventTarget * Handler) :=
  filter (fun r =>
    negb (existsb (fun h => same_target (fst h) (fst r) && Nat.eqb (snd h) (snd r)) l))
    reg.

(** [cleanup()]. *)
Definition cleanup (t : Tracker) : Tracker :=
  let q := if truthy (rafIdRef t)
           then cancelAnimationFrame (rafIdRef t) (pendingFrames t)
           else pendingFrames t in
  let raf := if truthy (rafIdRef t) then None else rafIdRef t in
  let wl := match resizeHandlerRef t with
            | Some h => filter (fun i => negb (Nat.eqb i h)) (windowResizeListeners t)
            | None => windowResizeListeners t
            end in
  {| heap := heap t; rect := rect t; renders := renders t;
     nodeRef := nodeRef t; rectRef := rectRef t; rafIdRef := raf;
     roRef := None; resizeHandlerRef := None;
     scrollHandlersRef := [];
     pendingFrames := q; nextId := nextId t;
     windowResizeListeners := wl;
     scrollListeners := remove_scroll (scrollHandlersRef t) (scrollListeners t) |}.

Definition set_nodeRef (node : option Element) (t : Tracker) : Tracker :=
  {| heap := heap t; rect := rect t; renders := renders t;
     nodeRef := node; rectRef := rectRef t; rafIdRef := rafIdRef t;
     roRef := roRef t; resizeHandlerRef := resizeHandlerRef t;
     scrollHandlersRef := scrollHandlersRef t;
     pendingFrames := pendingFrames t; nextId := nextId t;
     windowResizeListeners := windowResizeListeners t;
     scrollListeners := scrollListeners t |}.

(** The set-up half of the callback ref: observer, window listener and, with
    [trackPosition], one scroll listener per scroll parent. *)
Fixpoint add_scroll (tgts : list EventTarget) (id : nat)
  (l : list (EventTarget * Handler)) : list (EventTarget * Handler) * nat :=
  match tgts with
  | [] => (l, id)
  | tgt :: rest => add_scroll rest (S id) (l ++ [(tgt, id)])
  end.

Definition observe (doc : Document) (trackPosition : bool) (node : Element)
  (t : Tracker) : Tracker :=
  let onResize := nextId t in
  let added :=
    if trackPosition
    then add_scroll (getScrollParents doc (Some node)) (S onResize) []
    else ([], S onResize) in
  {| heap := heap t; rect := rect t; renders := renders t;
     nodeRef := nodeRef t; rectRef := rectRef t; rafIdRef := rafIdRef t;
     roRef := Some node; resizeHandlerRef := Some onResize;
     scrollHandlersRef := scrollHandlersRef t ++ fst added;
     pendingFrames := pendingFrames t; nextId := snd added;
     windowResizeListeners := windowResizeListeners t ++ [onResize];
     scrollListeners := scrollListeners t ++ fst added |}.

(** The callback ref [ref(node)]. *)
Definition ref (doc : Document) (trackPosition : bool) (L : Layout)
  (node : option Element) (t : Tracker) : Tracker :=
  let t1 := set_nodeRef node (cleanup t) in
  match node with
  | None => t1
  | Some n => observe doc trackPosition n (measure L n t1)
  end.

(** The clean-up function of the [useLayoutEffect] (unmount). *)
Definition unmount (t : Tracker) : Tracker :=
  cleanup (set_nodeRef None t).

(** What the hook returns as its second component. *)
Definition current_rect (t : Tracker) : Rect := deref t (rect t).

(** The browser reaching the next frame: every pending request is taken off
    the list and its callback run. *)
Definition clear_frames (t : Tracker) : Tracker :=
  {| heap := heap t; rect := rect t; renders := renders t;
     nodeRef := nodeRef t; rectRef := rectRef t; rafIdRef := rafIdRef t;
     roRef := roRef t; resizeHandlerRef := resizeHandlerRef t;
     scrollHandlersRef := scrollHandlersRef t;
     pendingFrames := []; nextId := nextId t;
     windowResizeListeners := windowResizeListeners t;
     scrollListeners := scrollListeners t |}.

Definition next_frame (L : Layout) (t : Tracker) : Tracker :=
  Nat.iter (List.length (pendingFrames t)) (frame_callback L) (clear_frames t).

(** The listeners of the hook: [onResize] and every [onScroll] are
    [() => schedule()], and so is the callback of the [ResizeObserver].  An
    event runs the listeners registered for it. *)
Definition schedule_each {A : Type} (listeners : list A) (t : Tracker) : Tracker :=
  fold_left (fun t' _ => schedule t') listeners t.

Definition window_resize (t : Tracker) : Tracker :=
  schedule_each (windowResizeListeners t) t.

Definition scroll_on (tgt : EventTarget) (t : Tracker) : Tracker :=
  schedule_each
    (filter (fun r => same_target (fst r) tgt) (scrollListeners t)) t.

Definition resize_observed (t : Tracker) : Tracker :=
  match roRef t with
  | Some _ => schedule t
  | None => t
  end.

(** What can happen to a mounted tracker; an attach and a frame come with
    the geometry of the page at that moment. *)
Inductive TrackerEvent :=
| Attach (L : Layout) (node : Element)
| Detach
| ResizeObserved
| WindowResize
| Scroll (tgt : EventTarget)
| Frame (L : Layout)
| Dispose.

Definition tracker_step (doc : Document) (trackPosition : bool) (e : TrackerEvent)
  (t : Tracker) : Tracker :=
  match e with
  | Attach L node => ref doc trackPosition L (Some node) t
  | Detach => ref doc trackPosition (fun _ => DEFAULT_RECT) None t
  | ResizeObserved => resize_observed t
  | WindowResize => window_resize t
  | Scroll tgt => scroll_on tgt t
  | Frame L => next_frame L t
  | Dispose => unmount t
  end.

Fixpoint tracker_run (doc : Document) (trackPosition : bool) (es : list TrackerEvent)
  (t : Tracker) : Tracker :=
  match es with
  | [] => t
  | e :: es' => tracker_run doc trackPosition es' (tracker_step doc trackPosition e t)
  end.

End ContainerRect.

(* ================================================================== *)
(** ** use-drag-resize: [useDragResize] *)
(* ================================================================== *)

Module DragResize.

Local Open Scope float_scope.

Inductive ResizeDirection := Left | Right.

Record ElementDimensions := mkDims { width : number; height : number }.

(** [Params].  An optional property is an [option]; [onDimensionsChange]
    records whether a callback was supplied, its calls are collected in the
    trace [calls] of the hook state. *)
Record Params := mkParams {
  initialWidth : option number;
  initialHeight : option number;
  minWidth : number;
  minHeight : number;
  maxWidth : number;
  maxHeight : option number;
  gridPercent : option number;
  contentWidth : option number;
  contentHeight : option number;
  live : option bool;
  onDimensionsChange : bool
}.

(** The two listener functions a pointer-down creates.  A function is
    identified by the moment it was created ([move_id], [up_id]: two calls
    of [handlePointerMove(boundaryWidth)] give two functions); its closure
    holds [boundaryWidth], respectively the target and the pointer id. *)
Record MoveListener := mkMove {
  move_id : nat;
  move_boundaryWidth : number
}.

Record UpListener := mkUp {
  up_id : nat;
  up_target : nat;
  up_pointerId : nat
}.

(** What [activeListenersRef] stores: the target element and the two
    functions of the latest pointer-down. *)
Record ActiveListeners := mkListeners {
  target : option nat;
  moveHandler : option MoveListener;
  upHandler : option UpListener
}.

Definition no_listeners : ActiveListeners :=
  {| target := None; moveHandler := None; upHandler := None |}.

(** The hook instance: React state ([dimensions], [isResizing]); the
    dimensions the latest render saw ([rendered]: the closures a render
    creates, [initiateResize] among them, read the state of that render);
    the refs of the source; and what the browser holds for the hook: the
    pending animation-frame requests, the pointer capture requested last,
    and the [pointermove] and [pointerup] listeners registered on each
    target, in the order they were added; plus the trace of
    [onDimensionsChange] calls. *)
Record Hook := mkHook {
  dimensions : ElementDimensions;
  isResizing : bool;
  rendered : ElementDimensions;
  dimsRef : ElementDimensions;
  originXRef : number;
  startDimsRef : ElementDimensions;
  dirRef : ResizeDirection;
  rafIdRef : option nat;
  activeListenersRef : ActiveListeners;
  pendingFrames : list nat;
  nextId : nat;
  pointerCapture : option (nat * nat);
  moveListeners : list (nat * MoveListener);
  upListeners : list (nat * UpListener);
  calls : list ElementDimensions
}.

(** The destructuring defaults [gridPercent = 100] and [live = false]. *)
Definition gridPercent_of (p : Params) : number := nullish (gridPercent p) 100.
Definition live_of (p : Params) : bool := nullish (live p) false.

(** The [useState] initialisers; every ref starts from the same object, and
    the first render sees the initial state. *)
Definition useDragResize_init (p : Params) : Hook :=
  let d := {| width := nullish (initialWidth p) (minWidth p);
              height := nullish (initialHeight p) (minHeight p) |} in
  {| dimensions := d; isResizing := false; rendered := d; dimsRef := d;
     originXRef := 0; startDimsRef := d; dirRef := Right; rafIdRef := None;
     activeListenersRef := no_listeners;
     pendingFrames := []; nextId := 1; pointerCapture := None;
     moveListeners := []; upListeners := []; calls := [] |}.

(** [setDims(next)], which is also the exported [setDimensions]. *)
Definition setDims (next : ElementDimensions) (h : Hook) : Hook :=
  {| dimensions := next; isResizing := isResizing h; rendered := rendered h;
     dimsRef := next;
     originXRef := originXRef h; startDimsRef := startDimsRef h;
     dirRef := dirRef h; rafIdRef := rafIdRef h;
     activeListenersRef := activeListenersRef h;
     pendingFrames := pendingFrames h; nextId := nextId h;
     pointerCapture := pointerCapture h;
     moveListeners := moveListeners h; upListeners := upListeners h;
     calls := calls h |}.

(** A render: the closures created from now on see the current state. *)
Definition render (h : Hook) : Hook :=
  {| dimensions := dimensions h; isResizing := isResizing h;
     rendered := dimensions h; dimsRef := dimsRef h;
     originXRef := originXRef h; startDimsRef := startDimsRef h;
     dirRef := dirRef h; rafIdRef := rafIdRef h;
     activeListenersRef := activeListenersRef h;
     pendingFrames := pendingFrames h; nextId := nextId h;
     pointerCapture := pointerCapture h;
     moveListeners := moveListeners h; upListeners := upListeners h;
     calls := calls h |}.

Definition clamp (v lo hi : number) : number := Math_min hi (Math_max lo v).

Definition hasAspect (p : Params) : bool :=
  match contentWidth p, contentHeight p with
  | Some _, Some _ => true
  | _, _ => false
  end.

Definition aspect (p : Params) : number :=
  match contentWidth p, contentHeight p with
  | Some cw, Some ch => ch / cw
  | _, _ => 1
  end.

(** [snapWidth(proposed, boundaryWidth)]. *)
Definition snapWidth (p : Params) (proposed boundaryWidth : number) : number :=
  let pct := clamp (gridPercent_of p) 1 100 in
  if strict_eq pct 100 then proposed
  else
    let step := (pct / 100) * boundaryWidth in
    if (step <=? 0) || negb (isFinite step) then proposed
    else Math_round (proposed / step) * step.

(** [maxHeight ?? Number.POSITIVE_INFINITY]. *)
Definition height_ceiling (p : Params) : number :=
  nullish (maxHeight p) POSITIVE_INFINITY.

(** [constrainWH(width)]; it reads [dimsRef.current.height]. *)
Definition constrainWH (p : Params) (h : Hook) (w : number) : ElementDimensions :=
  let clampedW := clamp w (minWidth p) (maxWidth p) in
  let height0 :=
    if hasAspect p then clampedW * aspect p
    else Math_max (height (dimsRef h)) (minHeight p) in
  let hi := height_ceiling p in
  let clampedH := clamp height0 (minHeight p) hi in
  {| width := clampedW; height := clampedH |}.

Definition truthy (o : option nat) : bool :=
  match o with Some (S _) => true | _ => false end.

Definition cancelAnimationFrame (o : option nat) (q : list nat) : list nat :=
  match o with
  | Some id => filter (fun i => negb (Nat.eqb i id)) q
  | None => q
  end.

(** [notifyLive()]. *)
Definition notifyLive (p : Params) (h : Hook) : Hook :=
  if negb (live_of p) || negb (onDimensionsChange p) then h
  else
    let q := if truthy (rafIdRef h)
             then cancelAnimationFrame (rafIdRef h) (pendingFrames h)
             else pendingFrames h in
    let id := nextId h in
    {| dimensions := dimensions h; isResizing := isResizing h;
       rendered := rendered h;
       dimsRef := dimsRef h; originXRef := originXRef h;
       startDimsRef := startDimsRef h; dirRef := dirRef h;
       rafIdRef := Some id; activeListenersRef := activeListenersRef h;
       pendingFrames := q ++ [id]; nextId := S id;
       pointerCapture := pointerCapture h;
       moveListeners := moveListeners h; upListeners := upListeners h;
       calls := calls h |}.

(** The callback [notifyLive] hands to [requestAnimationFrame]:
    [rafIdRef.current = null; onDimensionsChange(dimsRef.current)]. *)
Definition frame_callback (h : Hook) : Hook :=
  {| dimensions := dimensions h; isResizing := isResizing h;
     rendered := rendered h;
     dimsRef := dimsRef h; originXRef := originXRef h;
     startDimsRef := startDimsRef h; dirRef := dirRef h;
     rafIdRef := None; activeListenersRef := activeListenersRef h;
     pendingFrames := pendingFrames h; nextId := nextId h;
     pointerCapture := pointerCapture h;
     moveListeners := moveListeners h; upListeners := upListeners h;
     calls := calls h ++ [dimsRef h] |}.

(** The browser reaching the next frame: every pending request is taken off
    the list and its callback run. *)
Definition animation_frame (h : Hook) : Hook :=
  let n := List.length (pendingFrames h) in
  let h0 :=
    {| dimensions := dimensions h; isResizing := isResizing h;
       rendered := rendered h;
       dimsRef := dimsRef h; originXRef := originXRef h;
       startDimsRef := startDimsRef h; dirRef := dirRef h;
       rafIdRef := rafIdRef h; activeListenersRef := activeListenersRef h;
       pendingFrames := []; nextId := nextId h;
       pointerCapture := pointerCapture h;
       moveListeners := moveListeners h; upListeners := upListeners h;
       calls := calls h |} in
  Nat.iter n frame_callback h0.

(** [target.removeEventListener(type, fn)]: the registration of that very
    function on that target goes, any other stays. *)
Definition same_move (t : nat) (m : MoveListener) (r : nat * MoveListener) : bool :=
  Nat.eqb (fst r) t && Nat.eqb (move_id (snd r)) (move_id m).

Definition same_up (t : nat) (u : UpListener) (r : nat * UpListener) : bool :=
  Nat.eqb (fst r) t && Nat.eqb (up_id (snd r)) (up_id u).

Definition remove_move (t : nat) (m : MoveListener)
  (ls : list (nat * MoveListener)) : list (nat * MoveListener) :=
  filter (fun r => negb (same_move t m r)) ls.

Definition remove_up (t : nat) (u : UpListener)
  (ls : list (nat * UpListener)) : list (nat * UpListener) :=
  filter (fun r => negb (same_up t u r)) ls.

(** [cleanup()]: it removes the pair [activeListenersRef] holds, and only
    that pair. *)
Definition cleanup (h : Hook) : Hook :=
  let stored := activeListenersRef h in
  let ml := match target stored, moveHandler stored with
            | Some t, Some m => remove_move t m (moveListeners h)
            | _, _ => moveListeners h
            end in
  let ul := match target stored, upHandler stored with
            | Some t, Some u => remove_up t u (upListeners h)
            | _, _ => upListeners h
            end in
  let q := if truthy (rafIdRef h)
           then cancelAnimationFrame (rafIdRef h) (pendingFrames h)
           else pendingFrames h in
  let raf := if truthy (rafIdRef h) then None else rafIdRef h in
  {| dimensions := dimensions h; isResizing := isResizing h;
     rendered := rendered h;
     dimsRef := dimsRef h; originXRef := originXRef h;
     startDimsRef := startDimsRef h; dirRef := dirRef h;
     rafIdRef := raf; activeListenersRef := no_listeners;
     pendingFrames := q; nextId := nextId h;
     pointerCapture := pointerCapture h;
     moveListeners := ml; upListeners := ul;
     calls := calls h |}.

(** The signed displacement of [handlePointerMove]. *)
Definition deltaX (dir : ResizeDirection) (originX pageX : number) : number :=
  match dir with
  | Left => originX - pageX
  | Right => pageX - originX
  end.

(** [start.width + deltaX]. *)
Definition proposedW (h : Hook) (pageX : number) : number :=
  width (startDimsRef h) + deltaX (dirRef h) (originXRef h) pageX.

(** What a pointer move computes before the deduplication test:
    propose, snap, constrain. *)
Definition next_dims (p : Params) (boundaryWidth pageX : number) (h : Hook)
  : ElementDimensions :=
  constrainWH p h (snapWidth p (proposedW h pageX) boundaryWidth).

(** The deduplication test. *)
Definition changed (prev next : ElementDimensions) : bool :=
  strict_neq (Math_round (width prev)) (Math_round (width next)) ||
  strict_neq (Math_round (height prev)) (Math_round (height next)).

(** [handlePointerMove(boundaryWidth)(evt)]. *)
Definition handlePointerMove (p : Params) (boundaryWidth pageX : number)
  (h : Hook) : Hook :=
  let next := next_dims p boundaryWidth pageX h in
  let prev := dimsRef h in
  if changed prev next then notifyLive p (setDims next h) else h.

Definition set_isResizing (b : bool) (h : Hook) : Hook :=
  {| dimensions := dimensions h; isResizing := b;
     rendered := rendered h;
     dimsRef := dimsRef h; originXRef := originXRef h;
     startDimsRef := startDimsRef h; dirRef := dirRef h;
     rafIdRef := rafIdRef h; activeListenersRef := activeListenersRef h;
     pendingFrames := pendingFrames h; nextId := nextId h;
     pointerCapture := pointerCapture h;
     moveListeners := moveListeners h; upListeners := upListeners h;
     calls := calls h |}.

(** [target.releasePointerCapture(pointerId)], for a pointer that is still
    active, as the pointers of the events are: the call then never throws,
    and does nothing when the target does not hold that capture. *)
Definition releasePointerCapture (tgt pointerId : nat) (h : Hook) : Hook :=
  let cap :=
    match pointerCapture h with
    | Some (t0, i0) =>
        if Nat.eqb t0 tgt && Nat.eqb i0 pointerId then None else Some (t0, i0)
    | None => None
    end in
  {| dimensions := dimensions h; isResizing := isResizing h;
     rendered := rendered h;
     dimsRef := dimsRef h; originXRef := originXRef h;
     startDimsRef := startDimsRef h; dirRef := dirRef h;
     rafIdRef := rafIdRef h; activeListenersRef := activeListenersRef h;
     pendingFrames := pendingFrames h; nextId := nextId h;
     pointerCapture := cap;
     moveListeners := moveListeners h; upListeners := upListeners h;
     calls := calls h |}.

Definition call_onDimensionsChange (p : Params) (h : Hook) : Hook :=
  if onDimensionsChange p then
    {| dimensions := dimensions h; isResizing := isResizing h;
       rendered := rendered h;
       dimsRef := dimsRef h; originXRef := originXRef h;
       startDimsRef := startDimsRef h; dirRef := dirRef h;
       rafIdRef := rafIdRef h; activeListenersRef := activeListenersRef h;
       pendingFrames := pendingFrames h; nextId := nextId h;
       pointerCapture := pointerCapture h;
       moveListeners := moveListeners h; upListeners := upListeners h;
       calls := calls h ++ [dimsRef h] |}
  else h.

(** [handlePointerUp(target, pointerId)(evt)]. *)
Definition handlePointerUp (p : Params) (tgt pointerId : nat) (h : Hook) : Hook :=
  call_onDimensionsChange p
    (set_isResizing false (cleanup (releasePointerCapture tgt pointerId h))).

(** [initiateResize(direction, boundaryWidth = maxWidth)(evt)]; the event
    contributes its [currentTarget], [pointerId] and [pageX].  The function
    is the one the latest render created, so [dimensions.width] and
    [dimensions.height] are those of that render.  It creates the two
    listener functions, stores them in [activeListenersRef] over whatever
    was stored there, and adds them to the target; it removes nothing. *)
Definition initiateResize (p : Params) (direction : ResizeDirection)
  (boundaryWidth : option number) (tgt pointerId : nat) (pageX : number)
  (h : Hook) : Hook :=
  let bw := nullish boundaryWidth (maxWidth p) in
  let start :=
    {| width := clamp (width (rendered h)) (minWidth p) (maxWidth p);
       height := clamp (height (rendered h)) (minHeight p) (height_ceiling p) |} in
  let onMove := {| move_id := nextId h; move_boundaryWidth := bw |} in
  let onUp := {| up_id := S (nextId h); up_target := tgt;
                 up_pointerId := pointerId |} in
  {| dimensions := dimensions h; isResizing := true;
     rendered := rendered h;
     dimsRef := dimsRef h; originXRef := pageX;
     startDimsRef := start; dirRef := direction;
     rafIdRef := rafIdRef h;
     activeListenersRef :=
       {| target := Some tgt; moveHandler := Some onMove;
          upHandler := Some onUp |};
     pendingFrames := pendingFrames h; nextId := S (S (nextId h));
     pointerCapture := Some (tgt, pointerId);
     moveListeners := moveListeners h ++ [(tgt, onMove)];
     upListeners := upListeners h ++ [(tgt, onUp)];
     calls := calls h |}.

(** What the hook returns. *)
Definition currentWidth (p : Params) (h : Hook) : number :=
  Math_max (width (dimensions h)) (minWidth p).
Definition currentHeight (p : Params) (h : Hook) : number :=
  Math_max (height (dimensions h)) (minHeight p).

(** An event reaching a target: the listeners registered on the target for
    it when the dispatch starts run in the order they were added, each one
    unless it was removed in the meantime. *)
Definition listeners_on {A : Type} (tgt : nat) (ls : list (nat * A)) : list A :=
  map snd (filter (fun r => Nat.eqb (fst r) tgt) ls).

Fixpoint dispatch {A : Type} (registered : A -> Hook -> bool)
  (handler : A -> Hook -> Hook) (ls : list A) (h : Hook) : Hook :=
  match ls with
  | [] => h
  | l :: rest =>
      dispatch registered handler rest
        (if registered l h then handler l h else h)
  end.

Definition move_registered (tgt : nat) (m : MoveListener) (h : Hook) : bool :=
  existsb (same_move tgt m) (moveListeners h).

Definition up_registered (tgt : nat) (u : UpListener) (h : Hook) : bool :=
  existsb (same_up tgt u) (upListeners h).

Definition pointermove (p : Params) (tgt : nat) (pageX : number) (h : Hook) : Hook :=
  dispatch (move_registered tgt)
    (fun m => handlePointerMove p (move_boundaryWidth m) pageX)
    (listeners_on tgt (moveListeners h)) h.

Definition pointerup (p : Params) (tgt : nat) (h : Hook) : Hook :=
  dispatch (up_registered tgt)
    (fun u => handlePointerUp p (up_target u) (up_pointerId u))
    (listeners_on tgt (upListeners h)) h.

(** What can happen to a mounted hook: a pointer-down on a handle (React
    calls the [initiateResize] handler of the latest render), a
    [pointermove] or [pointerup] reaching a target, an animation frame, a
    call of the exported [setDimensions], a render, the unmount. *)
Inductive Event :=
| PointerDown (direction : ResizeDirection) (boundaryWidth : option number)
              (tgt pointerId : nat) (pageX : number)
| PointerMove (tgt : nat) (pageX : number)
| PointerUp (tgt : nat)
| AnimationFrame
| SetDimensions (d : ElementDimensions)
| Render
| Unmount.

Definition step (p : Params) (e : Event) (h : Hook) : Hook :=
  match e with
  | PointerDown d bw tgt i px => initiateResize p d bw tgt i px h
  | PointerMove tgt px => pointermove p tgt px h
  | PointerUp tgt => pointerup p tgt h
  | AnimationFrame => animation_frame h
  | SetDimensions d => setDims d h
  | Render => render h
  | Unmount => cleanup h
  end.

Fixpoint run (p : Params) (es : list Event) (h : Hook) : Hook :=
  match es with
  | [] => h
  | e :: es' => run p es' (step p e h)
  end.

End DragResize.

(* ================================================================== *)
(** ** Reference definitions the theorems compare the code with *)
(* ================================================================== *)

Module RectReference.

Local Open Scope float_scope.

Import ContainerRect.

(** The values [overflow-x] and [overflow-y] compute to. *)
Definition css_overflow_keyword (s : string) : bool :=
  String.eqb s "visible" || String.eqb s "hidden" || String.eqb s "clip" ||
  String.eqb s "scroll" || String.eqb s "auto" || String.eqb s "overlay".

(** "is [auto], [scroll], or [overlay]". *)
Definition scroll_keyword (s : string) : bool :=
  String.eqb s "auto" || String.eqb s "scroll" || String.eqb s "overlay".

Definition is_scroll_parent (n : Element) : bool :=
  scroll_keyword (overflowX (getComputedStyle n)) ||
  scroll_keyword (overflowY (getComputedStyle n)).

Definition css_computed (n : Element) : Prop :=
  css_overflow_keyword (overflowX (getComputedStyle n)) = true /\
  css_overflow_keyword (overflowY (getComputedStyle n)) = true.

(** A rect whose compared fields are numbers. *)
Definition numeric_rect (r : Rect) : Prop :=
  is_nan (x r) = false /\ is_nan (y r) = false /\
  is_nan (width r) = false /\ is_nan (height r) = false.

(** "[x], [y], [width], [height] all equal after rounding to the nearest
    whole pixel": the four rounded fields of the two rects are strictly
    equal, one by one. *)
Definition rounded_equal (a b : Rect) : Prop :=
  strict_eq (Math_round (x a)) (Math_round (x b)) = true /\
  strict_eq (Math_round (y a)) (Math_round (y b)) = true /\
  strict_eq (Math_round (width a)) (Math_round (width b)) = true /\
  strict_eq (Math_round (height a)) (Math_round (height b)) = true.

(** "any rounded field differs": one of the four does. *)
Definition rounded_differ (a b : Rect) : Prop :=
  strict_eq (Math_round (x a)) (Math_round (x b)) = false \/
  strict_eq (Math_round (y a)) (Math_round (y b)) = false \/
  strict_eq (Math_round (width a)) (Math_round (width b)) = false \/
  strict_eq (Math_round (height a)) (Math_round (height b)) = false.

(** [n] and its ancestors, nearest first. *)
Fixpoint inclusive_ancestors (n : Element) : list Element :=
  n :: match parentElement n with
       | None => []
       | Some p => inclusive_ancestors p
       end.

(** The ancestors of [el], from its parent upward. *)
Definition ancestors (el : Element) : list Element :=
  match parentElement el with
  | None => []
  | Some n => inclusive_ancestors n
  end.

(** The part of a list before the first element that satisfies [stop]. *)
Fixpoint take_until {A : Type} (stop : A -> bool) (l : list A) : list A :=
  match l with
  | [] => []
  | a :: l' => if stop a then [] else a :: take_until stop l'
  end.

(** The ancestors of [el] from its parent upward, up to but not including
    [document.body]. *)
Definition ancestors_below_body (doc : Document) (el : Element) : list Element :=
  take_until (fun n => same_node n (body doc)) (ancestors el).

(** The listeners the refs of a tracker name. *)
Definition named_window_listeners (t : Tracker) : list Handler :=
  match resizeHandlerRef t with
  | Some h => [h]
  | None => []
  end.

(** What every reachable tracker satisfies: the listeners registered with
    the browser are the ones the refs name, the observer watches the
    attached node, without a node nothing is registered, the browser holds
    at most the one request [rafIdRef] names, and the published rect
    exists. *)
Definition tracker_inv (t : Tracker) : Prop :=
  windowResizeListeners t = named_window_listeners t /\
  scrollListeners t = scrollHandlersRef t /\
  roRef t = nodeRef t /\
  (nodeRef t = None -> resizeHandlerRef t = None /\ scrollHandlersRef t = []) /\
  (nodeRef t <> None -> resizeHandlerRef t <> None) /\
  nextId t <> 0%nat /\
  (pendingFrames t = [] \/
   exists id, rafIdRef t = Some (S id) /\ pendingFrames t = [S id]) /\
  (nodeRef t = None -> pendingFrames t = []) /\
  rect t < List.length (heap t).

(** The change notifications: resize observer, window resize, scroll. *)
Definition notification (e : TrackerEvent) : Prop :=
  match e with
  | ResizeObserved | WindowResize | Scroll _ => True
  | _ => False
  end.

(** Everything but an attach. *)
Definition not_attach (e : TrackerEvent) : Prop :=
  match e with
  | Attach _ _ => False
  | _ => True
  end.

(** What a consumer of the hook can see: the rect objects, the published
    one, the updates signalled to React, and [rectRef]. *)
Definition published (t : Tracker) : list Rect * nat * nat * nat :=
  (heap t, rect t, renders t, rectRef t).

(** [t'] differs from [t] at most in the animation-frame request. *)
Definition same_attachment (t t' : Tracker) : Prop :=
  published t' = published t /\ nodeRef t' = nodeRef t /\
  roRef t' = roRef t /\ resizeHandlerRef t' = resizeHandlerRef t /\
  scrollHandlersRef t' = scrollHandlersRef t /\
  windowResizeListeners t' = windowResizeListeners t /\
  scrollListeners t' = scrollListeners t.

(** Nothing of the tracker is left with the browser. *)
Definition released (t : Tracker) : Prop :=
  windowResizeListeners t = [] /\ scrollListeners t = [] /\
  roRef t = None /\ pendingFrames t = [] /\
  resizeHandlerRef t = None /\ scrollHandlersRef t = [].

(** The notifications an attached tracker has a listener for: the observer
    and the window [resize] listener always, the window [scroll] listener
    with [trackPosition]. *)
Definition heard (trackPosition : bool) (e : TrackerEvent) : Prop :=
  match e with
  | ResizeObserved | WindowResize => True
  | Scroll WindowTarget => trackPosition = true
  | _ => False
  end.

(** With [trackPosition], an attached tracker listens to the window's
    [scroll]. *)
Definition scroll_inv (trackPosition : bool) (t : Tracker) : Prop :=
  trackPosition = true -> nodeRef t <> None ->
  In WindowTarget (map fst (scrollListeners t)).

(** The test of the loop of [getScrollParents]. *)
Definition overflow_matches (n : Element) : bool :=
  scroll_regex_test (overflowY (getComputedStyle n)) ||
  scroll_regex_test (overflowX (getComputedStyle n)).

(** Induction along the parent chain of an element. *)
Fixpoint Element_chain_ind (P : Element -> Prop)
  (Hroot : forall id cs, P (mkElement id cs None))
  (Hchild : forall id cs p, P p -> P (mkElement id cs (Some p)))
  (e : Element) {struct e} : P e :=
  match e with
  | mkElement id cs None => Hroot id cs
  | mkElement id cs (Some p) =>
      Hchild id cs p (Element_chain_ind P Hroot Hchild p)
  end.

End RectReference.

Module DragReference.

Import DragResize.
Local Open Scope float_scope.

(** The step of [snapWidth]. *)
Definition snap_step (p : Params) (boundaryWidth : number) : number :=
  (clamp (gridPercent_of p) 1 100 / 100) * boundaryWidth.

(** The integer widths the exhaustive check covers. *)
Definition snap_range : Z := 1000.

(** The multiple of 125 nearest to the integer [n] (no integer is half-way
    between two multiples of 125). *)
Definition nearest_multiple_of_125 (n : Z) : Z :=
  (125 * ((2 * n + 125) / 250))%Z.

(** "[maxHeight]-or-infinity": the upper bound of the height, [maxHeight]
    when it is given and unbounded otherwise. *)
Definition max_height_bound (p : Params) : number :=
  match maxHeight p with
  | Some m => m
  | None => infinity
  end.

(** A configuration whose bounds are ordered, with finite width bounds, and
    whose aspect ratio, when locked, is a finite number. *)
Definition well_formed (p : Params) : Prop :=
  (minWidth p <=? maxWidth p) = true /\
  is_finite (minWidth p) = true /\ is_finite (maxWidth p) = true /\
  (minHeight p <=? max_height_bound p) = true /\
  (hasAspect p = true -> is_finite (aspect p) = true).

(** "within [minWidth, maxWidth] x [minHeight, maxHeight]", [maxHeight]
    defaulting to unbounded. *)
Definition in_range (p : Params) (d : ElementDimensions) : Prop :=
  (minWidth p <=? width d) = true /\ (width d <=? maxWidth p) = true /\
  (minHeight p <=? height d) = true /\
  (height d <=? max_height_bound p) = true.

(** The numbers a pointer move works from: the width and the pointer
    position at the start of the gesture, and the last-known height when it
    is kept. *)
Definition numeric_gesture (p : Params) (h : Hook) : Prop :=
  is_finite (width (startDimsRef h)) = true /\
  is_finite (originXRef h) = true /\
  (hasAspect p = false -> is_nan (height (dimsRef h)) = false).

(** The events between pointer-down and pointer-up of a gesture, with
    pointer positions that are finite numbers. *)
Definition numeric_drag (e : Event) : Prop :=
  match e with
  | PointerMove _ px => is_finite px = true
  | AnimationFrame | Render => True
  | _ => False
  end.

(** The events between pointer-down and pointer-up of a gesture. *)
Definition during_drag (e : Event) : Prop :=
  match e with
  | PointerMove _ _ | AnimationFrame | Render => True
  | _ => False
  end.

(** What every reachable hook state satisfies: [dimsRef] mirrors the state,
    and the browser holds at most the one request [rafIdRef] names. *)
Definition raf_inv (h : Hook) : Prop :=
  nextId h <> 0%nat /\ dimsRef h = dimensions h /\
  ((rafIdRef h = None /\ pendingFrames h = []) \/
   exists id, rafIdRef h = Some (S id) /\ pendingFrames h = [S id]).

(** No listener of the hook is registered on any target. *)
Definition unregistered (h : Hook) : Prop :=
  moveListeners h = [] /\ upListeners h = [].

(** Histories whose gestures do not overlap: every pointer-down arrives
    while no listener of an earlier pointer-down is still registered. *)
Fixpoint bracketed (p : Params) (es : list Event) (h : Hook) : Prop :=
  match es with
  | [] => True
  | e :: es' =>
      match e with
      | PointerDown _ _ _ _ _ => unregistered h
      | _ => True
      end /\ bracketed p es' (step p e h)
  end.


(** What may still reach a hook after pointer-up or unmount. *)
Definition after_release (e : Event) : Prop :=
  match e with
  | PointerMove _ _ | PointerUp _ | AnimationFrame | Unmount => True
  | _ => False
  end.

(** The events of a gesture before its pointer-up, an override through the
    exported [setDimensions] and renders included. *)
Definition within_gesture (e : Event) : Prop :=
  match e with
  | PointerMove _ _ | AnimationFrame | SetDimensions _ | Render => True
  | _ => False
  end.

(** Counting the events of a kind in a history. *)
Definition is_pointer_up (e : Event) : bool :=
  match e with PointerUp _ => true | _ => false end.
Definition is_frame (e : Event) : bool :=
  match e with AnimationFrame => true | _ => false end.
Definition occurrences (f : Event -> bool) (es : list Event) : nat :=
  List.length (filter f es).

(** The listeners of one gesture, as [activeListenersRef] holds them and as
    they are registered on the target. *)
Definition running_on (tgt : nat) (m : MoveListener) (u : UpListener)
  (h : Hook) : Prop :=
  activeListenersRef h =
    {| target := Some tgt; moveHandler := Some m; upHandler := Some u |} /\
  moveListeners h = [(tgt, m)] /\ upListeners h = [(tgt, u)] /\
  up_target u = tgt.

(** What every hook state reached by gestures that do not overlap satisfies
    beyond [raf_inv]: either no gesture is running, and then nothing is
    registered or pending, or exactly the listeners of the running gesture
    are registered, and they are the ones [activeListenersRef] holds. *)
Definition gesture_inv (h : Hook) : Prop :=
  raf_inv h /\
  ((activeListenersRef h = no_listeners /\ unregistered h /\
    pendingFrames h = []) \/
   exists tgt m u, running_on tgt m u h).

End DragReference.

(** Statements of the specification that the code does not satisfy as they
    are written, transcribed from its words. *)
Module Claimed.

Local Open Scope float_scope.
Import DragResize.

(** "standard round-to-nearest (halves away from zero)". *)
Definition round_half_away_from_zero (v : number) : number :=
  if v <? 0 then - Math_round (- v) else Math_round v.

(** "if pct = 100 the grid-snap step returns w unchanged; otherwise, with
    step = (pct/100) * b, it returns round(w/step) * step". *)
Definition snapWidth_claimed (p : Params) (w b : number) : number :=
  let pct := clamp (gridPercent_of p) 1 100 in
  if strict_eq pct 100 then w
  else
    let step := (pct / 100) * b in
    round_half_away_from_zero (w / step) * step.


(** "both components positive and within
    [minWidth, maxWidth] x [minHeight, maxHeight]". *)
Definition within_bounds (p : Params) (d : ElementDimensions) : bool :=
  (0 <? width d) && (0 <? height d) &&
  (minWidth p <=? width d) && (width d <=? maxWidth p) &&
  (minHeight p <=? height d) &&
  (height d <=? match maxHeight p with Some m => m | None => infinity end).

End Claimed.

(* ================================================================== *)
(** ** The concrete inputs of the examples *)
(* ================================================================== *)

Module RectSamples.

Import ContainerRect.
Local Open Scope float_scope.

(** A page: [html > body > main (overflow-y: auto) > section > el]. *)
Definition html_node : Element := mkElement 0 (mkStyle "visible" "visible") None.
Definition body_node : Element :=
  mkElement 1 (mkStyle "visible" "visible") (Some html_node).
Definition main_node : Element :=
  mkElement 2 (mkStyle "hidden" "auto") (Some body_node).
Definition section_node : Element :=
  mkElement 3 (mkStyle "visible" "visible") (Some main_node).
Definition el_node : Element :=
  mkElement 4 (mkStyle "scroll" "scroll") (Some section_node).
Definition page : Document := mkDocument body_node.

(** An element of 100.25 x 200.75 at (10.25, 20.75), measured again at
    100.375 x 200.625, (10.375, 20.625), then at 120 x 200.625. *)
Definition probe : Element := mkElement 7 (mkStyle "visible" "visible") None.
Definition geometry1 : Layout :=
  fun _ => mkRect 10.25 20.75 100.25 200.75 20.75 10.25 110.5 221.5.
Definition geometry2 : Layout :=
  fun _ => mkRect 10.375 20.625 100.375 200.625 20.625 10.375 110.75 221.25.
Definition geometry3 : Layout :=
  fun _ => mkRect 10.375 20.625 120 200.625 20.625 10.375 130.375 221.25.
(** The first geometry with one thing changed: the height, the [x], the
    [y], the width; and with only the edges [top], [left], [right] and
    [bottom] changed. *)
Definition taller : Layout :=
  fun _ => mkRect 10.25 20.75 100.25 230.75 20.75 10.25 110.5 251.5.
Definition moved_right : Layout :=
  fun _ => mkRect 30.25 20.75 100.25 200.75 20.75 30.25 130.5 221.5.
Definition moved_down : Layout :=
  fun _ => mkRect 10.25 40.75 100.25 200.75 40.75 10.25 110.5 241.5.
Definition wider : Layout :=
  fun _ => mkRect 10.25 20.75 120.25 200.75 20.75 10.25 130.5 221.5.
Definition other_edges : Layout :=
  fun _ => mkRect 10.25 20.75 100.25 200.75 0 0 500 500.
Definition attached : Tracker :=
  ref page false geometry1 (Some probe) useContainerRect_init.

(** A first attach; a burst of notifications within one frame; what may
    still reach a tracker after a detach. *)
Definition mounted : list TrackerEvent := [Attach geometry1 probe].
Definition burst : list TrackerEvent :=
  [WindowResize; ResizeObserved; Scroll WindowTarget; WindowResize].
Definition stray_events : list TrackerEvent :=
  [WindowResize; Frame geometry3; ResizeObserved;
   Scroll WindowTarget; Detach; Dispose].

End RectSamples.

Module DragSamples.

Import DragResize DragReference.
Local Open Scope float_scope.

(** The 16:9 player of the unit tests, 200 x 200 within
    [100, 500] x [100, Infinity). *)
Definition player : Params :=
  {| initialWidth := Some 200; initialHeight := Some 200;
     minWidth := 100; minHeight := 100; maxWidth := 500; maxHeight := None;
     gridPercent := None; contentWidth := Some 16; contentHeight := Some 9;
     live := None; onDimensionsChange := true |}.



(** A hook created 50 x 40 with minimums 100 x 100. *)
Definition undersized : Params :=
  {| initialWidth := Some 50; initialHeight := Some 40;
     minWidth := 100; minHeight := 100; maxWidth := 500; maxHeight := None;
     gridPercent := None; contentWidth := None; contentHeight := None;
     live := None; onDimensionsChange := false |}.

(** A panel that may collapse: 200 x 200 with minimums 0 x 0. *)
Definition collapsible : Params :=
  {| initialWidth := Some 200; initialHeight := Some 200;
     minWidth := 0; minHeight := 0; maxWidth := 500; maxHeight := None;
     gridPercent := None; contentWidth := None; contentHeight := None;
     live := None; onDimensionsChange := false |}.

(** A grid of 1 percent. *)
Definition fine_grid : Params :=
  {| initialWidth := Some 200; initialHeight := Some 200;
     minWidth := 100; minHeight := 100; maxWidth := 500; maxHeight := None;
     gridPercent := Some 1; contentWidth := None; contentHeight := None;
     live := None; onDimensionsChange := false |}.

(** The panel of the unit tests: 200 x 200 within [100, 500] x [100, Infinity),
    dragged from [pageX = 200]. *)
Definition panel : Params :=
  {| initialWidth := Some 200; initialHeight := Some 200;
     minWidth := 100; minHeight := 100; maxWidth := 500; maxHeight := None;
     gridPercent := None; contentWidth := None; contentHeight := None;
     live := None; onDimensionsChange := true |}.

Definition right_drag : Hook :=
  initiateResize panel Right None 1 1 200 (useDragResize_init panel).

(** A grid of 25 percent. *)
Definition quarter_grid : Params :=
  {| initialWidth := Some 200; initialHeight := Some 200;
     minWidth := 100; minHeight := 100; maxWidth := 500; maxHeight := None;
     gridPercent := Some 25; contentWidth := None; contentHeight := None;
     live := None; onDimensionsChange := true |}.

Definition snap_check (n : Z) : bool :=
  let snapped := snapWidth quarter_grid (of_Z n) 500 in
  let expected := of_Z (nearest_multiple_of_125 n) in
  strict_eq snapped expected &&
  (if (0 <=? n)%Z then PrimFloat.Leibniz.eqb snapped expected else true).

(** The live panel of the unit tests. *)
Definition live_panel : Params :=
  {| initialWidth := Some 200; initialHeight := Some 200;
     minWidth := 100; minHeight := 100; maxWidth := 500; maxHeight := None;
     gridPercent := None; contentWidth := None; contentHeight := None;
     live := Some true; onDimensionsChange := true |}.

(** A drag of the unit tests: down at 200, moves to 250, 260 and, after a
    frame, 300. *)
Definition sample_moves : list Event :=
  [PointerMove 1 250; PointerMove 1 260; AnimationFrame; PointerMove 1 300].

(** A press of the right handle at [pageX = 200]; a burst of pointer moves
    within one frame; what may still arrive after the release. *)
Definition pressed : list Event := [PointerDown Right None 1 1 200].
Definition move_burst : list Event :=
  [PointerMove 1 250; PointerMove 1 260; PointerMove 1 300].
Definition late_events : list Event :=
  [PointerMove 1 320; AnimationFrame; PointerUp 1; Unmount].
Definition gesture_body : list Event :=
  [PointerMove 1 250; AnimationFrame; Render;
   SetDimensions {| width := 240; height := 180 |}; PointerMove 1 300].

(** The 16:9 player with a [maxHeight] of 150. *)
Definition capped_player : Params :=
  {| initialWidth := Some 200; initialHeight := Some 200;
     minWidth := 100; minHeight := 100; maxWidth := 500;
     maxHeight := Some 150;
     gridPercent := None; contentWidth := Some 16; contentHeight := Some 9;
     live := None; onDimensionsChange := true |}.

(** A configuration whose width bounds are given the wrong way round. *)
Definition misordered : Params :=
  {| initialWidth := Some 200; initialHeight := Some 200;
     minWidth := 300; minHeight := 100; maxWidth := 100; maxHeight := None;
     gridPercent := None; contentWidth := None; contentHeight := None;
     live := None; onDimensionsChange := true |}.

(** Three fingers, the pointers 1, 2 and 3, pressed on the handle 1 one
    after the other, none of them lifted yet, and a move to 260. *)
Definition overlapping_presses : list Event :=
  [PointerDown Right None 1 1 200; PointerDown Right None 1 2 200;
   PointerDown Right None 1 3 200; PointerMove 1 260].

(** [setDimensions] called, and the handle pressed before the next
    render. *)
Definition unrendered_press : list Event :=
  [SetDimensions {| width := 400; height := 300 |};
   PointerDown Right None 1 1 200; PointerMove 1 200].

End DragSamples.

(* ================================================================== *)
(** ** Facts about numbers *)
(* ================================================================== *)

Module NumberFacts.

Local Open Scope float_scope.

(** *** The order of binary64 values *)

Lemma SFcompare_swap (u v : spec_float) :
  SFcompare v u = option_map CompOpp (SFcompare u v).
Proof.
  destruct u as [s|s| |s m e], v as [s'|s'| |s' m' e']; simpl; trivial;
    try (destruct s; reflexivity); try (destruct s'; reflexivity);
    try (destruct s, s'; reflexivity).
  destruct s, s'; simpl; trivial; rewrite (Z.compare_antisym e e');
    destruct (e ?= e')%Z; simpl; trivial;
    pose proof (Pos.compare_cont_antisym m m' Eq) as A; simpl in A;
    rewrite <- A; try rewrite CompOpp_involutive; reflexivity.
Qed.

Lemma SFcompare_refl (u : spec_float) :
  u <> S754_nan -> SFcompare u u = Some Eq.
Proof.
  destruct u as [s|s| |s m e]; simpl; intros H; trivial; try congruence.
  - destruct s; reflexivity.
  - destruct s; rewrite Z.compare_refl; fold (Pos.compare m m);
      rewrite Pos.compare_refl; reflexivity.
Qed.

Lemma SFcompare_nan (u v : spec_float) :
  SFcompare u v = None <-> u = S754_nan \/ v = S754_nan.
Proof.
  destruct u as [s|s| |s m e], v as [s'|s'| |s' m' e']; simpl;
    split; intros H; auto; try discriminate;
    try (destruct H; discriminate).
Qed.

Ltac cmp_cases :=
  repeat match goal with
  | H : context [Z.compare ?a ?b] |- _ =>
      destruct (Z.compare_spec a b); simpl in H; try discriminate H
  | H : context [Pos.compare_cont Eq ?a ?b] |- _ =>
      change (Pos.compare_cont Eq a b) with (Pos.compare a b) in *;
      destruct (Pos.compare_spec a b); simpl in H; try discriminate H
  | |- context [Z.compare ?a ?b] => destruct (Z.compare_spec a b); simpl
  | |- context [Pos.compare_cont Eq ?a ?b] =>
      change (Pos.compare_cont Eq a b) with (Pos.compare a b) in *;
      destruct (Pos.compare_spec a b); simpl
  end; subst; try discriminate; try reflexivity; try assumption; try lia; try congruence.

Lemma SFcompare_eq_trans (u v w : spec_float) (c : comparison) :
  SFcompare u v = Some Eq -> SFcompare v w = Some c -> SFcompare u w = Some c.
Proof.
  destruct u as [s|s| |s m e], v as [s'|s'| |s' m' e'], w as [s''|s''| |s'' m'' e''];
    simpl; intros A B; try discriminate; trivial;
    try (destruct s; discriminate); try (destruct s'; discriminate);
    try (destruct s, s'; try discriminate; assumption).
  destruct s, s'; try discriminate; destruct s''; trivial; cmp_cases.
Qed.

Lemma SFcompare_lt_trans (u v w : spec_float) :
  SFcompare u v = Some Lt ->
  (SFcompare v w = Some Lt \/ SFcompare v w = Some Eq) ->
  SFcompare u w = Some Lt.
Proof.
  destruct u as [s|s| |s m e], v as [s'|s'| |s' m' e'], w as [s''|s''| |s'' m'' e''];
    simpl; intros A [B|B]; try discriminate; trivial;
    try (destruct s; try discriminate; destruct s'; try discriminate;
         destruct s''; try discriminate; trivial; cmp_cases).
Qed.

Lemma SFcompare_Eq_inv (u v : spec_float) :
  SFcompare u v = Some Eq ->
  u = v \/ exists s t, u = S754_zero s /\ v = S754_zero t.
Proof.
  destruct u as [s|s| |s m e], v as [s'|s'| |s' m' e']; simpl; intros A;
    try discriminate; try (destruct s; discriminate);
    try (destruct s'; discriminate).
  - right; eauto.
  - left; destruct s, s'; try discriminate; reflexivity.
  - left; destruct s, s'; try discriminate; cmp_cases.
Qed.

Lemma is_nan_Prim2SF (a : float) :
  is_nan a = match Prim2SF a with S754_nan => true | _ => false end.
Proof.
  unfold is_nan. rewrite eqb_spec. unfold SFeqb.
  destruct (Prim2SF a) eqn:E; try reflexivity;
    rewrite SFcompare_refl by discriminate; reflexivity.
Qed.

Lemma is_nan_cmp (a b : float) :
  cmp a b = None <-> (is_nan a || is_nan b) = true.
Proof.
  unfold cmp. rewrite SFcompare_nan, !is_nan_Prim2SF.
  destruct (Prim2SF a), (Prim2SF b); simpl; intuition congruence.
Qed.

Lemma cmp_facts (a b : float) : cmp_view a b (cmp a b).
Proof.
  pose proof (is_nan_cmp a b) as N.
  unfold cmp_view, cmp in *.
  rewrite !ltb_spec, !leb_spec, !eqb_spec.
  unfold SFltb, SFleb, SFeqb.
  rewrite (SFcompare_swap (Prim2SF a) (Prim2SF b)).
  destruct (SFcompare (Prim2SF a) (Prim2SF b)) as [[ | | ]|] eqn:E; simpl;
    repeat split; trivial;
    try (destruct (is_nan a) eqn:Na; destruct (is_nan b) eqn:Nb; trivial;
         simpl in N; destruct N as [_ N]; discriminate (N eq_refl)).
  apply N; reflexivity.
Qed.

Ltac fcmp a b :=
  let H := fresh "C" in
  pose proof (cmp_facts a b) as H; unfold cmp_view in H;
  destruct (cmp a b) as [[ | | ]|] eqn:?; decompose [and] H; clear H.

Ltac frewrite :=
  repeat match goal with
  | H : ?t = true |- context [?t] => rewrite H
  | H : ?t = false |- context [?t] => rewrite H
  end; simpl.

Ltac fsign a := destruct (get_sign a); cbv iota.

Ltac fcontra :=
  match goal with
  | H : ?t = true, H' : ?t = false |- _ => rewrite H in H'; discriminate H'
  | H : (is_nan ?a || is_nan ?b) = true,
    Ha : is_nan ?a = false, Hb : is_nan ?b = false |- _ =>
      rewrite Ha, Hb in H; discriminate H
  end.

Lemma cmp_lt_trans (a b c : float) :
  cmp a b = Some Lt -> cmp b c = Some Lt \/ cmp b c = Some Eq ->
  cmp a c = Some Lt.
Proof. apply SFcompare_lt_trans. Qed.

Lemma cmp_eq_trans (a b c : float) (k : comparison) :
  cmp a b = Some Eq -> cmp b c = Some k -> cmp a c = Some k.
Proof. apply SFcompare_eq_trans. Qed.

Lemma cmp_ltb (a b : float) : cmp a b = Some Lt -> (a <? b) = true.
Proof. intros E. pose proof (cmp_facts a b) as H. rewrite E in H. apply H. Qed.

Lemma cmp_leb (a b : float) :
  cmp a b = Some Lt \/ cmp a b = Some Eq -> (a <=? b) = true.
Proof.
  intros [E|E]; pose proof (cmp_facts a b) as H; rewrite E in H; apply H.
Qed.

Lemma cmp_facts_eq (a b : float) : cmp a b = Some Eq -> (a =? b) = true.
Proof. intros E. pose proof (cmp_facts a b) as H. rewrite E in H. apply H. Qed.

Lemma ltb_leb_trans (a b c : float) :
  (a <? b) = true -> (b <=? c) = true -> (a <? c) = true.
Proof.
  intros A B. apply cmp_ltb.
  fcmp a b; try fcontra; fcmp b c; try fcontra;
    eauto using cmp_lt_trans.
Qed.

Lemma leb_ltb_trans (a b c : float) :
  (a <=? b) = true -> (b <? c) = true -> (a <? c) = true.
Proof.
  intros A B. apply cmp_ltb.
  fcmp a b; try fcontra; fcmp b c; try fcontra;
    eauto using cmp_lt_trans, cmp_eq_trans.
Qed.

Lemma leb_trans (a b c : float) :
  (a <=? b) = true -> (b <=? c) = true -> (a <=? c) = true.
Proof.
  intros A B. apply cmp_leb.
  fcmp a b; try fcontra; fcmp b c; try fcontra;
    eauto using cmp_lt_trans, cmp_eq_trans.
Qed.

Lemma cmp_refl (a : float) : is_nan a = false -> cmp a a = Some Eq.
Proof.
  intros N. apply SFcompare_refl. intros E.
  rewrite is_nan_Prim2SF, E in N. discriminate N.
Qed.

Lemma leb_refl (a : float) : is_nan a = false -> (a <=? a) = true.
Proof. intros N. apply cmp_leb. right. apply cmp_refl, N. Qed.

Lemma eqb_refl (a : float) : is_nan a = false -> (a =? a) = true.
Proof.
  intros N. pose proof (cmp_facts a a) as H.
  rewrite (cmp_refl _ N) in H. apply H.
Qed.

Lemma Prim2SF_zero : Prim2SF zero = S754_zero false.
Proof. reflexivity. Qed.

(** IEEE equality is identity except between the two zeros. *)
Lemma eqb_leibniz (a b : float) :
  (a =? b) = true -> is_zero b = false -> a = b.
Proof.
  intros E Z. fcmp a b; try fcontra.
  match goal with H : cmp a b = Some Eq |- _ =>
    destruct (SFcompare_Eq_inv _ _ H) as [I|(s & t & I & J)] end.
  - apply Prim2SF_inj; assumption.
  - exfalso. unfold is_zero in Z. rewrite eqb_spec, J, Prim2SF_zero in Z.
    discriminate Z.
Qed.

Lemma leb_not_nan (a b : float) :
  (a <=? b) = true -> is_nan a = false /\ is_nan b = false.
Proof. intros A. fcmp a b; try fcontra; auto. Qed.

Lemma ltb_not_nan (a b : float) :
  (a <? b) = true -> is_nan a = false /\ is_nan b = false.
Proof. intros A. fcmp a b; try fcontra; auto. Qed.

(** *** More on the order, the zeros and NaN *)

Lemma is_nan_opp (a : number) : is_nan (- a) = is_nan a.
Proof.
  rewrite !is_nan_Prim2SF, opp_spec. destruct (Prim2SF a); reflexivity.
Qed.

Lemma Math_max_cases (a b : number) :
  is_nan a = false -> is_nan b = false ->
  (Math_max a b = a /\ (b <=? a) = true) \/
  (Math_max a b = b /\ (a <=? b) = true).
Proof.
  intros Na Nb. unfold Math_max. fcmp a b; try fcontra; frewrite; auto.
  fsign a; auto.
Qed.



Lemma Math_max_ge (a b : number) :
  (b <=? a) = true -> (Math_max a b =? a) = true /\ (b <=? Math_max a b) = true.
Proof.
  intros A. destruct (leb_not_nan _ _ A) as [Nb Na].
  unfold Math_max. fcmp a b; try fcontra; frewrite.
  - fsign a; split; auto using eqb_refl, leb_refl.
  - split; auto using eqb_refl.
Qed.

Lemma eqb_trans (a b c : number) :
  (a =? b) = true -> (b =? c) = true -> (a =? c) = true.
Proof.
  intros A B. apply cmp_facts_eq.
  fcmp a b; try fcontra; fcmp b c; try fcontra; eauto using cmp_eq_trans.
Qed.

Lemma eqb_leb_compat (a b c : number) :
  (a =? b) = true -> (b <=? c) = true -> (a <=? c) = true.
Proof.
  intros A B. apply cmp_leb.
  fcmp a b; try fcontra; fcmp b c; try fcontra; eauto using cmp_eq_trans.
Qed.

Lemma Prim2SF_infinity : Prim2SF infinity = S754_infinity false.
Proof. reflexivity. Qed.

Lemma leb_infinity (a : number) : is_nan a = false -> (a <=? infinity) = true.
Proof.
  intros N. rewrite leb_spec, Prim2SF_infinity.
  rewrite is_nan_Prim2SF in N. unfold SFleb.
  destruct (Prim2SF a) as [s|s| |s m e]; try discriminate N; simpl; trivial;
    destruct s; reflexivity.
Qed.

Lemma Math_max_not_nan (a b : number) :
  is_nan a = false -> is_nan b = false -> is_nan (Math_max a b) = false.
Proof.
  intros Na Nb. destruct (Math_max_cases a b Na Nb) as [[-> _]|[-> _]];
    assumption.
Qed.

(** *** Rounding never invents a NaN *)

Lemma shr_1_nonneg (mrs : shr_record) :
  (0 <= shr_m mrs)%Z -> (0 <= shr_m (shr_1 mrs))%Z.
Proof.
  destruct mrs as [m r s]. destruct m as [|[q|q|]|[q|q|]]; cbn; lia.
Qed.

Lemma iter_shr_1_nonneg (n : positive) :
  forall mrs, (0 <= shr_m mrs)%Z -> (0 <= shr_m (iter_pos shr_1 n mrs))%Z.
Proof.
  induction n as [n IH|n IH|]; intros mrs H; cbn [iter_pos];
    auto using shr_1_nonneg.
Qed.

Lemma shr_fexp_nonneg (m e : Z) (l : location) :
  (0 <= m)%Z -> (0 <= shr_m (fst (shr_fexp prec emax m e l)))%Z.
Proof.
  intros H. unfold shr_fexp, shr.
  assert (I : (0 <= shr_m (shr_record_of_loc m l))%Z)
    by (destruct l as [|[]]; exact H).
  destruct (fexp prec emax (Zdigits2 m + e) - e)%Z; cbn [fst];
    auto using iter_shr_1_nonneg.
Qed.

Lemma round_nearest_even_nonneg (m : Z) (l : location) :
  (0 <= m)%Z -> (0 <= round_nearest_even m l)%Z.
Proof.
  intros H. destruct l as [|[]]; cbn; try lia. destruct (Z.even m); lia.
Qed.

Lemma binary_round_aux_not_nan (s : bool) (m e : Z) (l : location) :
  (0 <= m)%Z -> binary_round_aux prec emax s m e l <> S754_nan.
Proof.
  intros H. unfold binary_round_aux.
  pose proof (shr_fexp_nonneg m e l H) as A.
  destruct (shr_fexp prec emax m e l) as [mrs' e']. cbn [fst] in A.
  pose proof (shr_fexp_nonneg _ e' loc_Exact
                (round_nearest_even_nonneg _ (loc_of_shr_record mrs') A)) as B.
  destruct (shr_fexp prec emax _ e' loc_Exact) as [mrs'' e'']. cbn [fst] in B.
  destruct (shr_m mrs''); try discriminate; [|lia].
  match goal with |- context [Z.leb ?u ?v] => destruct (Z.leb u v) end;
    discriminate.
Qed.

Lemma binary_round_not_nan (s : bool) (m : positive) (e : Z) :
  binary_round prec emax s m e <> S754_nan.
Proof.
  unfold binary_round. destruct (shl_align m e _) as [mz ez].
  apply binary_round_aux_not_nan. lia.
Qed.

Lemma binary_normalize_not_nan (m e : Z) (sz : bool) :
  binary_normalize prec emax m e sz <> S754_nan.
Proof.
  destruct m; cbn; try discriminate; apply binary_round_not_nan.
Qed.

Lemma not_nan_Prim2SF (a : float) :
  is_nan a = false <-> Prim2SF a <> S754_nan.
Proof.
  rewrite is_nan_Prim2SF. destruct (Prim2SF a); split; congruence.
Qed.

Lemma is_finite_Prim2SF (a : float) :
  is_finite a = true <-> SFfinite (Prim2SF a).
Proof.
  unfold is_finite, is_infinity. rewrite is_nan_Prim2SF, eqb_spec, abs_spec.
  rewrite Prim2SF_infinity. unfold SFeqb.
  destruct (Prim2SF a) as [s|s| |s m e]; cbn; intuition congruence.
Qed.

Lemma is_finite_not_nan (a : float) : is_finite a = true -> is_nan a = false.
Proof.
  unfold is_finite. destruct (is_nan a); [discriminate|reflexivity].
Qed.

Lemma SFsub_not_nan (u v : spec_float) :
  SFfinite u -> SFfinite v -> SF64sub u v <> S754_nan.
Proof.
  destruct u as [s|s| |s m e], v as [s'|s'| |s' m' e']; cbn;
    try contradiction; intros _ _; try discriminate.
  - destruct s, s'; discriminate.
  - apply binary_normalize_not_nan.
Qed.

Lemma SFadd_not_nan (u v : spec_float) :
  SFfinite u -> v <> S754_nan -> SF64add u v <> S754_nan.
Proof.
  destruct u as [s|s| |s m e], v as [s'|s'| |s' m' e']; cbn;
    try contradiction; intros _ H; try discriminate; try congruence.
  - destruct s, s'; discriminate.
  - apply binary_normalize_not_nan.
Qed.

Lemma sub_not_nan (a b : float) :
  is_finite a = true -> is_finite b = true -> is_nan (a - b) = false.
Proof.
  rewrite !is_finite_Prim2SF, not_nan_Prim2SF, sub_spec.
  apply SFsub_not_nan.
Qed.

Lemma add_not_nan (a b : float) :
  is_finite a = true -> is_nan b = false -> is_nan (a + b) = false.
Proof.
  rewrite is_finite_Prim2SF, !not_nan_Prim2SF, add_spec.
  apply SFadd_not_nan.
Qed.

Lemma SFmul_not_nan (u v : spec_float) :
  SFfinite u -> SFfinite v -> SF64mul u v <> S754_nan.
Proof.
  destruct u as [s|s| |s m e], v as [s'|s'| |s' m' e']; cbn;
    try contradiction; intros _ _; try discriminate.
  apply (binary_round_aux_not_nan (xorb s s') (Z.pos (m * m'))). lia.
Qed.

Lemma mul_not_nan (a b : float) :
  is_finite a = true -> is_finite b = true -> is_nan (a * b) = false.
Proof.
  rewrite !is_finite_Prim2SF, not_nan_Prim2SF, mul_spec.
  apply SFmul_not_nan.
Qed.

(** A positive finite number, such as a step that passed the guard of
    [snapWidth]. *)
Lemma positive_finite_Prim2SF (a : float) :
  (a <=? 0) = false -> is_finite a = true ->
  exists m e, Prim2SF a = S754_finite false m e.
Proof.
  rewrite is_finite_Prim2SF, leb_spec. change (Prim2SF 0) with (S754_zero false).
  unfold SFleb. destruct (Prim2SF a) as [s|s| |[|] m e]; cbn;
    try contradiction; try discriminate. eauto.
Qed.

Lemma SFdiv_not_nan (u : spec_float) (m : positive) (e : Z) :
  u <> S754_nan -> SF64div u (S754_finite false m e) <> S754_nan.
Proof.
  destruct u as [s|s| |s mu eu]; cbn; intros H; try discriminate; try congruence.
  unfold SFdiv_core_binary.
  set (m' := match _ with Z.pos _ => _ | _ => _ end).
  assert (P : (0 <= m')%Z).
  { subst m'. match goal with |- context [match ?t with _ => _ end] =>
      destruct t end; try lia. apply Z.shiftl_nonneg. lia. }
  pose proof (Z.div_pos m' (Z.pos m) P ltac:(lia)) as Q.
  unfold Z.div in Q. destruct (Z.div_eucl m' (Z.pos m)) as [q r]. cbn [fst] in Q.
  apply binary_round_aux_not_nan. exact Q.
Qed.

Lemma SFmul_finite_not_nan (u : spec_float) (m : positive) (e : Z) :
  u <> S754_nan -> SF64mul u (S754_finite false m e) <> S754_nan.
Proof.
  destruct u as [s|s| |s mu eu]; cbn; intros H; try discriminate; try congruence.
  apply (binary_round_aux_not_nan (xorb s false) (Z.pos (mu * m))). lia.
Qed.

(** [of_Z] and [Math.round] *)

Lemma SF2Prim_not_nan (u : spec_float) :
  u <> S754_nan -> is_nan (SF2Prim u) = false.
Proof.
  intros H. destruct u as [[|]|[|]| |s m e]; try reflexivity; try congruence.
  assert (F : is_nan (Z.ldexp (of_uint63 (Uint63.of_Z (Z.pos m))) e) = false).
  { apply not_nan_Prim2SF. unfold Z.ldexp. rewrite ldshiftexp_spec.
    rewrite of_uint63_spec. unfold SFldexp.
    destruct (binary_normalize prec emax _ 0 false) eqn:E;
      try discriminate.
    - exfalso. exact (binary_normalize_not_nan _ _ _ E).
    - apply binary_round_not_nan. }
  cbn [SF2Prim]. destruct s; [rewrite is_nan_opp|]; exact F.
Qed.

Lemma of_Z_not_nan (n : Z) : is_nan (of_Z n) = false.
Proof. apply SF2Prim_not_nan, binary_normalize_not_nan. Qed.

Lemma Math_round_not_nan (a : float) :
  is_nan a = false -> is_nan (Math_round a) = false.
Proof.
  intros N. unfold Math_round.
  destruct (Prim2SF a) as [s|s| |s m e]; trivial.
  destruct (0 <=? e)%Z; trivial.
  match goal with |- context [(?n =? 0)%Z] => destruct (n =? 0)%Z end.
  - destruct s; reflexivity.
  - apply of_Z_not_nan.
Qed.

Lemma div_positive_not_nan (a s : float) :
  is_nan a = false -> (s <=? 0) = false -> is_finite s = true ->
  is_nan (a / s) = false.
Proof.
  intros N P F. destruct (positive_finite_Prim2SF s P F) as (m & e & E).
  apply not_nan_Prim2SF. rewrite div_spec, E.
  apply SFdiv_not_nan. apply not_nan_Prim2SF. exact N.
Qed.

Lemma mul_positive_not_nan (a s : float) :
  is_nan a = false -> (s <=? 0) = false -> is_finite s = true ->
  is_nan (a * s) = false.
Proof.
  intros N P F. destruct (positive_finite_Prim2SF s P F) as (m & e & E).
  apply not_nan_Prim2SF. rewrite mul_spec, E.
  apply SFmul_finite_not_nan. apply not_nan_Prim2SF. exact N.
Qed.


Lemma within_finite (lo v hi : float) :
  (lo <=? v) = true -> (v <=? hi) = true ->
  is_finite lo = true -> is_finite hi = true -> is_finite v = true.
Proof.
  rewrite !is_finite_Prim2SF, !leb_spec. unfold SFleb.
  destruct (Prim2SF lo) as [s|s| |s m e], (Prim2SF v) as [s'|[|]| |s' m' e'],
    (Prim2SF hi) as [s''|s''| |s'' m'' e'']; cbn; try contradiction;
    trivial; try discriminate; try (destruct s; discriminate);
    try (destruct s''; discriminate).
Qed.

(** *** Subtraction is odd *)




(** *** [Math.round] is [floor(v + 1/2)] *)

Lemma round_half_up_arith (s : bool) (m : positive) (k : Z) :
  (0 < k)%Z ->
  let q := Z.shiftr (Zpos m) k in
  let twice_frac := (2 * Z.land (Zpos m) (Z.ones k))%Z in
  let unit := Z.shiftl 1 k in
  let n := if s then (if (unit <? twice_frac)%Z then q + 1 else q)%Z
           else (if (unit <=? twice_frac)%Z then q + 1 else q)%Z in
  (if s then - n else n)%Z =
  ((2 * cond_Zopp s (Zpos m) + 2 ^ k) / 2 ^ (1 + k))%Z.
Proof.
  intros K q twice_frac unit n. subst n twice_frac unit q.
  rewrite Z.shiftr_div_pow2, Z.land_ones, Z.shiftl_1_l by lia.
  rewrite Z.pow_add_r, Z.pow_1_r by lia.
  pose proof (Z.pow_pos_nonneg 2 k ltac:(lia) ltac:(lia)) as P.
  pose proof (Z.div_mod (Zpos m) (2 ^ k) ltac:(lia)) as DM.
  pose proof (Z.mod_pos_bound (Zpos m) (2 ^ k) P) as B.
  set (pw := (2 ^ k)%Z) in *. set (q := (Z.pos m / pw)%Z) in *.
  set (r := (Z.pos m mod pw)%Z) in *.
  destruct s; cbn [cond_Zopp].
  - destruct (Z.ltb_spec pw (2 * r)).
    + apply Z.div_unique with (r := (2 * pw + pw - 2 * r)%Z); [lia|].
      rewrite DM. ring.
    + apply Z.div_unique with (r := (pw - 2 * r)%Z); [lia|].
      rewrite DM. ring.
  - destruct (Z.leb_spec pw (2 * r)).
    + apply Z.div_unique with (r := (2 * r - pw)%Z); [lia|].
      rewrite DM at 1. ring.
    + apply Z.div_unique with (r := (2 * r + pw)%Z); [lia|].
      rewrite DM at 1. ring.
Qed.

Lemma Math_round_floor_plus_half (v : float) (s : bool) (m : positive) (e : Z) :
  Prim2SF v = S754_finite s m e -> (e < 0)%Z ->
  strict_eq (Math_round v) (of_Z (floor_plus_half s m e)) = true /\
  (floor_plus_half s m e <> 0%Z -> Math_round v = of_Z (floor_plus_half s m e)).
Proof.
  intros E N. unfold Math_round. rewrite E.
  destruct (Z.leb_spec 0 e); [lia|].
  pose proof (round_half_up_arith s m (- e) ltac:(lia)) as A. cbn zeta in A.
  unfold floor_plus_half. replace (1 - e)%Z with (1 + - e)%Z by lia.
  rewrite <- A. clear A.
  match goal with |- context [(?n =? 0)%Z] =>
    set (k := n) in *; destruct (Z.eqb_spec k 0) as [Z|Z] end.
  - rewrite Z. split; [destruct s; reflexivity|].
    destruct s; intros C; exfalso; apply C; reflexivity.
  - split; [|reflexivity]. apply eqb_refl, of_Z_not_nan.
Qed.
(** *** [clamp] and [snapWidth] *)

Import DragResize.

Lemma clamp_above (v lo hi : float) :
  (lo <=? hi) = true -> (hi <? v) = true -> clamp v lo hi = hi.
Proof.
  intros A B. pose proof (leb_ltb_trans _ _ _ A B) as D.
  unfold clamp, Math_min, Math_max.
  fcmp lo v; try fcontra. frewrite.
  fcmp hi v; try fcontra. frewrite. reflexivity.
Qed.

Lemma clamp_below (v lo hi : float) :
  (lo <=? hi) = true -> (v <? lo) = true ->
  (clamp v lo hi =? lo) = true /\ (is_zero lo = false -> clamp v lo hi = lo).
Proof.
  intros A B.
  assert (G : (clamp v lo hi =? lo) = true).
  { unfold clamp, Math_min, Math_max.
    fcmp lo v; try fcontra. frewrite.
    fcmp hi lo; try fcontra; frewrite;
      try destruct (get_sign hi); trivial; apply eqb_refl; assumption. }
  split; trivial. intros Z. apply eqb_leibniz; assumption.
Qed.

Lemma clamp_inside (v lo hi : float) :
  (lo <=? v) = true -> (v <=? hi) = true ->
  (clamp v lo hi =? v) = true /\ (is_zero v = false -> clamp v lo hi = v).
Proof.
  intros A B.
  assert (G : (clamp v lo hi =? v) = true).
  { unfold clamp, Math_min, Math_max.
    fcmp lo v; try fcontra; frewrite.
    - fsign lo.
      + fcmp hi v; try fcontra; frewrite;
          try fsign hi; trivial; apply eqb_refl; assumption.
      + pose proof (leb_trans _ _ _ A B) as D.
        fcmp hi lo; try fcontra; frewrite;
          try fsign hi; trivial.
        apply cmp_facts_eq. eapply cmp_eq_trans; eauto.
    - fcmp hi v; try fcontra; frewrite;
        try fsign hi; trivial; apply eqb_refl; assumption. }
  split; trivial. intros Z. apply eqb_leibniz; assumption.
Qed.

Lemma clamp_range (v lo hi : float) :
  (lo <=? hi) = true -> is_nan v = false ->
  (lo <=? clamp v lo hi) = true /\ (clamp v lo hi <=? hi) = true.
Proof.
  intros A N. destruct (leb_not_nan _ _ A) as [Nlo Nhi].
  unfold clamp, Math_min, Math_max.
  fcmp lo v; frewrite.
  - fsign lo.
    + fcmp hi v; try fcontra; frewrite; auto using leb_refl;
        fsign hi; auto using leb_refl.
    + fcmp hi lo; try fcontra; frewrite; auto using leb_refl;
        fsign hi; auto using leb_refl.
  - fcmp hi v; try fcontra; frewrite; auto using leb_refl;
      fsign hi; auto using leb_refl.
  - fcmp hi lo; try fcontra; frewrite; auto using leb_refl;
      fsign hi; auto using leb_refl.
  - fcontra.
Qed.

Lemma snapWidth_not_nan (p : Params) (w b : number) :
  is_nan w = false -> is_nan (snapWidth p w b) = false.
Proof.
  intros N. unfold snapWidth.
  destruct (strict_eq _ 100); [exact N|].
  set (step := clamp (gridPercent_of p) 1 100 / 100 * b).
  destruct (step <=? 0) eqn:P; [exact N|].
  unfold isFinite. destruct (is_finite step) eqn:F; [|exact N].
  cbn [orb negb].
  apply mul_positive_not_nan; trivial.
  apply Math_round_not_nan. apply div_positive_not_nan; trivial.
Qed.

End NumberFacts.

(* ================================================================== *)
(** ** The Rect Tracker *)
(* ================================================================== *)

Module RectTracker.

Import ContainerRect RectReference RectSamples NumberFacts.
Local Open Scope float_scope.

(** *** Scroll parents *)

Lemma regex_on_keyword (s : string) :
  css_overflow_keyword s = true -> scroll_regex_test s = scroll_keyword s.
Proof.
  unfold css_overflow_keyword. rewrite !orb_true_iff, !String.eqb_eq.
  intuition subst; reflexivity.
Qed.

Lemma scroll_test_computed (n : Element) :
  css_computed n ->
  scroll_regex_test (overflowY (getComputedStyle n)) ||
  scroll_regex_test (overflowX (getComputedStyle n)) = is_scroll_parent n.
Proof.
  intros [HX HY]. unfold is_scroll_parent.
  rewrite (regex_on_keyword _ HX), (regex_on_keyword _ HY). apply orb_comm.
Qed.

Lemma scroll_loop_unfold (doc : Document) (n : Element) (res : list EventTarget) :
  scroll_loop doc n res =
  if same_node n (body doc) then res
  else
    let res' :=
      if scroll_regex_test (overflowY (getComputedStyle n)) ||
         scroll_regex_test (overflowX (getComputedStyle n))
      then res ++ [ElementTarget n] else res in
    match parentElement n with
    | None => res'
    | Some p => scroll_loop doc p res'
    end.
Proof. destruct n; reflexivity. Qed.

Lemma inclusive_ancestors_unfold (n : Element) :
  inclusive_ancestors n =
  n :: match parentElement n with
       | None => []
       | Some p => inclusive_ancestors p
       end.
Proof. destruct n; reflexivity. Qed.

Lemma scroll_loop_spec (doc : Document) (n : Element) :
  forall res,
    let below := take_until (fun a => same_node a (body doc))
                            (inclusive_ancestors n) in
    Forall css_computed below ->
    scroll_loop doc n res =
    res ++ map ElementTarget (filter is_scroll_parent below).
Proof.
  induction n as [id cs|id cs p IH] using Element_chain_ind; intros res;
    rewrite scroll_loop_unfold, inclusive_ancestors_unfold;
    cbn [take_until]; destruct (same_node _ (body doc));
    try (intros _; simpl; rewrite app_nil_r; reflexivity);
    intros H; inversion H as [|? ? Hn Hrest]; subst;
    rewrite (scroll_test_computed _ Hn);
    cbn [parentElement filter map take_until] in *;
    destruct (is_scroll_parent _); cbn [map];
    try rewrite IH by assumption; try rewrite <- app_assoc;
    try rewrite app_nil_r; reflexivity.
Qed.

(** C9. The scroll parents of an element are its ancestors, from the parent
    upward and below [document.body], whose computed [overflow-x] or
    [overflow-y] is [auto], [scroll] or [overlay], nearest first, followed
    by the window; without such an ancestor (and for a null element) the
    result is the window alone. *)
Theorem getScrollParents_spec (doc : Document) (el : Element) :
  Forall css_computed (ancestors_below_body doc el) ->
  getScrollParents doc (Some el) =
    map ElementTarget (filter is_scroll_parent (ancestors_below_body doc el))
    ++ [WindowTarget]
  /\ (filter is_scroll_parent (ancestors_below_body doc el) = [] ->
      getScrollParents doc (Some el) = [WindowTarget])
  /\ getScrollParents doc None = [WindowTarget].
Proof.
  intros H.
  assert (E : getScrollParents doc (Some el) =
    map ElementTarget (filter is_scroll_parent (ancestors_below_body doc el))
    ++ [WindowTarget]).
  { unfold getScrollParents, ancestors_below_body, ancestors in *.
    destruct (parentElement el) as [n|]; trivial.
    rewrite (scroll_loop_spec doc n [] H). reflexivity. }
  split; [exact E|]. split; [|reflexivity].
  intros F. rewrite E, F. reflexivity.
Qed.

Lemma getScrollParents_spec_witness :
  getScrollParents page (Some el_node) = [ElementTarget main_node; WindowTarget].
Proof.
  assert (H : Forall css_computed (ancestors_below_body page el_node)).
  { repeat constructor. }
  exact (proj1 (getScrollParents_spec page el_node H)).
Defined.

(** *** Measurement *)

Lemma rect_eta (r : Rect) :
  {| x := x r; y := y r; width := width r; height := height r;
     top := top r; left := left r; right := right r; bottom := bottom r |} = r.
Proof. destruct r; reflexivity. Qed.

Lemma same_rounded_refl (r : Rect) :
  numeric_rect r -> same_rounded r r = true.
Proof.
  intros (Nx & Ny & Nw & Nh). unfold same_rounded, strict_eq.
  rewrite !eqb_refl by (apply Math_round_not_nan; assumption). reflexivity.
Qed.

Lemma measure_same (L : Layout) (el : Element) (t : Tracker) :
  same_rounded (current_rect t) (L el) = true -> measure L el t = t.
Proof. unfold current_rect, measure. intros E. rewrite E. reflexivity. Qed.

Lemma measure_publishes (L : Layout) (el : Element) (t : Tracker) :
  same_rounded (current_rect t) (L el) = false ->
  current_rect (measure L el t) = L el.
Proof.
  unfold current_rect, measure. intros E. rewrite E.
  unfold deref. cbn [rect heap]. rewrite rect_eta.
  rewrite app_nth2 by apply Nat.le_refl. rewrite Nat.sub_diag. reflexivity.
Qed.

(** The test of [measure] compares the four rounded fields, and only
    those. *)
Lemma same_rounded_equal (a b : Rect) :
  same_rounded a b = true <-> rounded_equal a b.
Proof.
  unfold same_rounded, rounded_equal. rewrite !andb_true_iff. tauto.
Qed.

Lemma same_rounded_differ (a b : Rect) :
  same_rounded a b = false <-> rounded_differ a b.
Proof.
  unfold same_rounded, rounded_differ. rewrite !andb_false_iff. tauto.
Qed.

Lemma rounded_equal_refl (r : Rect) : numeric_rect r -> rounded_equal r r.
Proof. intros N. apply same_rounded_equal, same_rounded_refl. exact N. Qed.

Lemma rounded_equal_trans (a b c : Rect) :
  rounded_equal a b -> rounded_equal b c -> rounded_equal a c.
Proof.
  unfold rounded_equal, strict_eq.
  intros (A1 & A2 & A3 & A4) (B1 & B2 & B3 & B4).
  repeat split; eapply eqb_trans; eauto.
Qed.

(** C3. A measurement whose [x], [y], [width] and [height], each rounded,
    are strictly equal to those of the published rect leaves the tracker as
    it is: the same rect object, no update signalled.  When one of the four
    rounded fields differs, whichever it is, a rect object that did not
    exist before is published; it holds the geometry as measured,
    unrounded, and the objects published earlier are untouched.  Hence a
    second measurement of a geometry that is unchanged up to rounding
    changes nothing: measuring is idempotent. *)
Theorem measure_dedup (L : Layout) (el : Element) (t : Tracker) :
  (rounded_equal (current_rect t) (L el) -> measure L el t = t)
  /\
  (rounded_differ (current_rect t) (L el) ->
     let t' := measure L el t in
     rect t' = List.length (heap t) /\
     nth_error (heap t') (rect t') = Some (L el) /\
     rectRef t' = rect t' /\
     renders t' = S (renders t) /\
     (forall r, r < List.length (heap t) ->
        nth_error (heap t') r = nth_error (heap t) r))
  /\
  (forall L', rounded_equal (L el) (L' el) ->
     measure L' el (measure L el t) = measure L el t)
  /\
  (numeric_rect (L el) ->
     measure L el (measure L el t) = measure L el t).
Proof.
  assert (I : forall L', rounded_equal (L el) (L' el) ->
                measure L' el (measure L el t) = measure L el t).
  { intros L' E. destruct (same_rounded (current_rect t) (L el)) eqn:S.
    - rewrite (measure_same L el t S). apply measure_same.
      apply same_rounded_equal.
      apply rounded_equal_trans with (L el); [|exact E].
      apply same_rounded_equal. exact S.
    - apply measure_same. rewrite (measure_publishes L el t S).
      apply same_rounded_equal. exact E. }
  split; [intros E; apply measure_same, same_rounded_equal; exact E|].
  split; [|split; [exact I|intros N; apply I, rounded_equal_refl; exact N]].
  intros D. apply same_rounded_differ in D.
  unfold current_rect, measure in *. rewrite D.
  cbn [rect heap rectRef renders]. rewrite rect_eta.
  repeat split.
  - rewrite nth_error_app2 by apply Nat.le_refl.
    rewrite Nat.sub_diag. reflexivity.
  - intros r Hr. apply nth_error_app1. assumption.
Qed.

Lemma measure_dedup_witness :
  measure geometry2 probe attached = attached /\
  measure other_edges probe attached = attached /\
  nth_error (heap (measure taller probe attached)) 2%nat = Some (taller probe) /\
  nth_error (heap (measure moved_right probe attached)) 2%nat
    = Some (moved_right probe) /\
  nth_error (heap (measure moved_down probe attached)) 2%nat
    = Some (moved_down probe) /\
  nth_error (heap (measure wider probe attached)) 2%nat = Some (wider probe) /\
  rect (measure taller probe attached) = 2%nat /\
  measure geometry3 probe (measure geometry3 probe attached) =
    measure geometry3 probe attached.
Proof.
  destruct (measure_dedup geometry2 probe attached) as (S & _).
  destruct (measure_dedup other_edges probe attached) as (S' & _).
  destruct (measure_dedup taller probe attached) as (_ & Dh & _).
  destruct (measure_dedup moved_right probe attached) as (_ & Dx & _).
  destruct (measure_dedup moved_down probe attached) as (_ & Dy & _).
  destruct (measure_dedup wider probe attached) as (_ & Dw & _).
  destruct (measure_dedup geometry3 probe attached) as (_ & _ & _ & I).
  assert (Eh : rounded_differ (current_rect attached) (taller probe))
    by (right; right; right; reflexivity).
  assert (Ex : rounded_differ (current_rect attached) (moved_right probe))
    by (left; reflexivity).
  assert (Ey : rounded_differ (current_rect attached) (moved_down probe))
    by (right; left; reflexivity).
  assert (Ew : rounded_differ (current_rect attached) (wider probe))
    by (right; right; left; reflexivity).
  split; [apply S; repeat split|].
  split; [apply S'; repeat split|].
  destruct (Dh Eh) as (Rh & Hh & _). rewrite Rh in Hh.
  destruct (Dx Ex) as (Rx & Hx & _). rewrite Rx in Hx.
  destruct (Dy Ey) as (Ry & Hy & _). rewrite Ry in Hy.
  destruct (Dw Ew) as (Rw & Hw & _). rewrite Rw in Hw.
  split; [exact Hh|]. split; [exact Hx|]. split; [exact Hy|].
  split; [exact Hw|]. split; [exact Rh|].
  apply I. repeat split.
Defined.

(** *** Detaching *)



End RectTracker.

(* ================================================================== *)
(** ** The Drag-Resize Controller *)
(* ================================================================== *)

Module DragResizeController.

Import DragResize DragReference Claimed DragSamples NumberFacts.
Local Open Scope float_scope.

(** *** Dispatching an event to the registered listeners *)

Lemma dispatch_ind {A : Type} (P : Hook -> Prop)
  (registered : A -> Hook -> bool) (handler : A -> Hook -> Hook)
  (ls : list A) :
  (forall l h, P h -> P (handler l h)) ->
  forall h, P h -> P (dispatch registered handler ls h).
Proof.
  intros H. induction ls as [|l ls IH]; intros h Ph; cbn [dispatch]; [exact Ph|].
  apply IH. destruct (registered l h); [apply H|]; exact Ph.
Qed.

(** What every [pointermove] listener preserves, a [pointermove] event
    preserves, and likewise for [pointerup]. *)
Lemma pointermove_ind (P : Hook -> Prop) (p : Params) (tgt : nat)
  (px : number) (h : Hook) :
  (forall bw h', P h' -> P (handlePointerMove p bw px h')) ->
  P h -> P (pointermove p tgt px h).
Proof. intros H. apply dispatch_ind. intros l h'. apply H. Qed.

Lemma pointerup_ind (P : Hook -> Prop) (p : Params) (tgt : nat) (h : Hook) :
  (forall t i h', P h' -> P (handlePointerUp p t i h')) ->
  P h -> P (pointerup p tgt h).
Proof. intros H. apply dispatch_ind. intros l h'. apply H. Qed.

Lemma pointermove_unregistered (p : Params) (tgt : nat) (px : number) (h : Hook) :
  moveListeners h = [] -> pointermove p tgt px h = h.
Proof. unfold pointermove. intros ->. reflexivity. Qed.

Lemma pointerup_unregistered (p : Params) (tgt : nat) (h : Hook) :
  upListeners h = [] -> pointerup p tgt h = h.
Proof. unfold pointerup. intros ->. reflexivity. Qed.

(** With one listener registered, the event runs it when it reaches its
    target, and nothing otherwise. *)
Lemma pointermove_single (p : Params) (tgt t : nat) (m : MoveListener)
  (px : number) (h : Hook) :
  moveListeners h = [(t, m)] ->
  pointermove p tgt px h =
  if Nat.eqb t tgt then handlePointerMove p (move_boundaryWidth m) px h else h.
Proof.
  unfold pointermove, move_registered, listeners_on. intros E. rewrite E.
  cbn [filter fst]. destruct (Nat.eqb t tgt) eqn:T; [|reflexivity].
  cbn [map snd dispatch]. rewrite E. unfold same_move.
  cbn [existsb fst snd]. rewrite T, Nat.eqb_refl. reflexivity.
Qed.

Lemma pointerup_single (p : Params) (tgt t : nat) (u : UpListener) (h : Hook) :
  upListeners h = [(t, u)] ->
  pointerup p tgt h =
  if Nat.eqb t tgt then handlePointerUp p (up_target u) (up_pointerId u) h else h.
Proof.
  unfold pointerup, up_registered, listeners_on. intros E. rewrite E.
  cbn [filter fst]. destruct (Nat.eqb t tgt) eqn:T; [|reflexivity].
  cbn [map snd dispatch]. rewrite E. unfold same_up.
  cbn [existsb fst snd]. rewrite T, Nat.eqb_refl. reflexivity.
Qed.

(** *** Reachable states *)

Lemma raf_inv_init (p : Params) : raf_inv (useDragResize_init p).
Proof.
  unfold raf_inv. cbn. split; [discriminate|]. split; [reflexivity|].
  left. split; reflexivity.
Qed.

Lemma animation_frame_idle (h : Hook) :
  pendingFrames h = [] -> animation_frame h = h.
Proof. destruct h; cbn. intros ->. reflexivity. Qed.

Lemma raf_cancelled (h : Hook) :
  (rafIdRef h = None /\ pendingFrames h = []) \/
  (exists id, rafIdRef h = Some (S id) /\ pendingFrames h = [S id]) ->
  (if truthy (rafIdRef h) then None else rafIdRef h) = None /\
  (if truthy (rafIdRef h)
   then cancelAnimationFrame (rafIdRef h) (pendingFrames h)
   else pendingFrames h) = [].
Proof.
  intros [[-> ->]|(id & -> & ->)]; cbn; rewrite ?Nat.eqb_refl; auto.
Qed.

Lemma raf_inv_cleanup (h : Hook) : raf_inv h -> raf_inv (cleanup h).
Proof.
  intros (N & D & R). destruct (raf_cancelled h R) as [E1 E2].
  unfold raf_inv, cleanup. cbn. rewrite E1, E2. auto.
Qed.

Lemma raf_inv_notifyLive (p : Params) (h : Hook) :
  raf_inv h -> raf_inv (notifyLive p h).
Proof.
  intros (N & D & R). unfold notifyLive.
  destruct (negb (live_of p) || negb (onDimensionsChange p));
    [repeat split; assumption|].
  destruct (raf_cancelled h R) as [_ E2].
  unfold raf_inv. cbn. rewrite E2.
  split; [discriminate|]. split; [exact D|]. right.
  destruct (nextId h) as [|k]; [congruence|]. exists k. auto.
Qed.

Lemma raf_inv_handlePointerMove (p : Params) (bw px : number) (h : Hook) :
  raf_inv h -> raf_inv (handlePointerMove p bw px h).
Proof.
  intros I. unfold handlePointerMove. destruct (changed _ _); [|exact I].
  apply raf_inv_notifyLive. destruct I as (N & D & R).
  repeat split; assumption.
Qed.

Lemma raf_inv_handlePointerUp (p : Params) (tgt i : nat) (h : Hook) :
  raf_inv h -> raf_inv (handlePointerUp p tgt i h).
Proof.
  intros I.
  assert (J : raf_inv (cleanup (releasePointerCapture tgt i h))).
  { apply raf_inv_cleanup. destruct I as (N & D & R).
    repeat split; assumption. }
  unfold handlePointerUp, call_onDimensionsChange.
  destruct J as (N & D & R).
  destruct (onDimensionsChange p); repeat split; assumption.
Qed.

Lemma raf_inv_step (p : Params) (e : Event) (h : Hook) :
  raf_inv h -> raf_inv (step p e h).
Proof.
  intros I. destruct e as [d bw tgt i px|tgt px|tgt| |d'| |]; cbn [step].
  - destruct I as (N & D & R). repeat split; try assumption. discriminate.
  - apply pointermove_ind; [|exact I].
    intros bw h'. apply raf_inv_handlePointerMove.
  - apply pointerup_ind; [|exact I].
    intros t i h'. apply raf_inv_handlePointerUp.
  - destruct I as (N & D & [[R1 R2]|(id & R1 & R2)]).
    + rewrite (animation_frame_idle h R2). unfold raf_inv. auto.
    + unfold animation_frame. rewrite R2. unfold raf_inv. cbn. auto.
  - destruct I as (N & D & R). repeat split; trivial.
  - destruct I as (N & D & R). repeat split; trivial.
  - apply raf_inv_cleanup. exact I.
Qed.

Lemma raf_inv_run (p : Params) (es : list Event) :
  forall h, raf_inv h -> raf_inv (run p es h).
Proof.
  induction es as [|e es IH]; intros h H; cbn [run]; auto using raf_inv_step.
Qed.

Lemma run_app (p : Params) (es fs : list Event) :
  forall h, run p (es ++ fs) h = run p fs (run p es h).
Proof. induction es as [|e es IH]; intros h; cbn [run app]; auto. Qed.

(** What a pointer move leaves alone. *)
Lemma handlePointerMove_keeps (p : Params) (bw px : number) (h : Hook) :
  let h' := handlePointerMove p bw px h in
  calls h' = calls h /\ rendered h' = rendered h /\
  isResizing h' = isResizing h /\ pointerCapture h' = pointerCapture h /\
  dirRef h' = dirRef h /\ originXRef h' = originXRef h /\
  startDimsRef h' = startDimsRef h /\
  activeListenersRef h' = activeListenersRef h /\
  moveListeners h' = moveListeners h /\ upListeners h' = upListeners h.
Proof.
  cbn zeta. unfold handlePointerMove. destruct (changed _ _); [|repeat split].
  unfold notifyLive.
  destruct (negb (live_of p) || negb (onDimensionsChange p)); repeat split.
Qed.

(** With [live] off, or without a callback, nothing is ever requested from
    the browser. *)
Lemma silent_handlePointerMove (p : Params) (bw px : number) (h : Hook) :
  live_of p = false \/ onDimensionsChange p = false ->
  pendingFrames (handlePointerMove p bw px h) = pendingFrames h.
Proof.
  intros L. unfold handlePointerMove. destruct (changed _ _); [|reflexivity].
  unfold notifyLive.
  replace (negb (live_of p) || negb (onDimensionsChange p)) with true;
    [reflexivity|].
  destruct L as [-> | ->]; [reflexivity|symmetry; apply orb_true_r].
Qed.

Lemma handlePointerUp_pending (p : Params) (tgt i : nat) (h : Hook) :
  pendingFrames h = [] -> pendingFrames (handlePointerUp p tgt i h) = [].
Proof.
  intros Q. unfold handlePointerUp, call_onDimensionsChange.
  destruct (onDimensionsChange p); cbn; rewrite Q;
    destruct (truthy _); try destruct (rafIdRef h); reflexivity.
Qed.

Lemma silent_step (p : Params) (e : Event) (h : Hook) :
  live_of p = false \/ onDimensionsChange p = false ->
  pendingFrames h = [] -> pendingFrames (step p e h) = [].
Proof.
  intros L Q. destruct e as [d bw tgt i px|tgt px|tgt| |d'| |]; cbn [step].
  - exact Q.
  - apply pointermove_ind; [|exact Q].
    intros bw h' Q'. rewrite (silent_handlePointerMove p bw px h' L). exact Q'.
  - apply pointerup_ind; [|exact Q].
    intros t i h'. apply handlePointerUp_pending.
  - rewrite (animation_frame_idle h Q). exact Q.
  - exact Q.
  - exact Q.
  - cbn. rewrite Q. destruct (truthy _); try destruct (rafIdRef h); reflexivity.
Qed.

Lemma silent_run (p : Params) (es : list Event) :
  live_of p = false \/ onDimensionsChange p = false ->
  forall h, pendingFrames h = [] -> pendingFrames (run p es h) = [].
Proof.
  intros L. induction es as [|e es IH]; intros h Q; cbn [run];
    auto using silent_step.
Qed.

Lemma pointermove_calls (p : Params) (tgt : nat) (px : number) (h : Hook) :
  calls (pointermove p tgt px h) = calls h.
Proof.
  apply (pointermove_ind (fun h' => calls h' = calls h)); [|reflexivity].
  intros bw h' E. rewrite <- E. apply handlePointerMove_keeps.
Qed.

Lemma quiet_drag (p : Params) (body : list Event) :
  live_of p = false -> Forall during_drag body ->
  forall h, pendingFrames h = [] -> calls (run p body h) = calls h.
Proof.
  intros L F. induction F as [|e body E F IH]; intros h Q; [reflexivity|].
  cbn [run]. rewrite IH by (apply silent_step; auto).
  destruct e as [d bw tgt i px|tgt px|tgt| |d'| |]; cbn [during_drag] in E;
    try contradiction; cbn [step].
  - apply pointermove_calls.
  - rewrite (animation_frame_idle h Q). reflexivity.
  - reflexivity.
Qed.

Lemma frame_callbacks_fields (n : nat) (h0 : Hook) :
  let h := Nat.iter n frame_callback h0 in
  dimensions h = dimensions h0 /\ dimsRef h = dimsRef h0 /\
  startDimsRef h = startDimsRef h0 /\ originXRef h = originXRef h0 /\
  activeListenersRef h = activeListenersRef h0 /\
  rendered h = rendered h0 /\
  isResizing h = isResizing h0 /\ pointerCapture h = pointerCapture h0 /\
  dirRef h = dirRef h0 /\
  moveListeners h = moveListeners h0 /\ upListeners h = upListeners h0.
Proof.
  induction n as [|n IH]; [repeat split|]. cbn zeta in *.
  rewrite Nat.iter_succ.
  destruct IH as (A & B & C & D & E & F & G & H & I & J & K).
  unfold frame_callback at 1 2 3 4 5 6 7 8 9 10 11.
  cbn [dimensions dimsRef startDimsRef originXRef activeListenersRef rendered
       isResizing pointerCapture dirRef moveListeners upListeners].
  repeat split; assumption.
Qed.

Lemma animation_frame_fields (h : Hook) :
  dimensions (animation_frame h) = dimensions h /\
  dimsRef (animation_frame h) = dimsRef h /\
  startDimsRef (animation_frame h) = startDimsRef h /\
  originXRef (animation_frame h) = originXRef h /\
  activeListenersRef (animation_frame h) = activeListenersRef h /\
  rendered (animation_frame h) = rendered h /\
  isResizing (animation_frame h) = isResizing h /\
  pointerCapture (animation_frame h) = pointerCapture h /\
  dirRef (animation_frame h) = dirRef h /\
  moveListeners (animation_frame h) = moveListeners h /\
  upListeners (animation_frame h) = upListeners h.
Proof.
  unfold animation_frame.
  exact (frame_callbacks_fields (List.length (pendingFrames h)) _).
Qed.

(** *** Constraining *)

Lemma aspect_ratio (p : Params) (cw ch : number) :
  contentWidth p = Some cw -> contentHeight p = Some ch ->
  hasAspect p = true /\ aspect p = ch / cw.
Proof. unfold hasAspect, aspect. intros -> ->. split; reflexivity. Qed.

(** The helper of the code is "[maxHeight]-or-infinity". *)
Lemma height_ceiling_bound (p : Params) : height_ceiling p = max_height_bound p.
Proof. unfold height_ceiling, max_height_bound. destruct (maxHeight p); reflexivity. Qed.

(** An accepted pointer move publishes what the pipeline computed. *)
Lemma handlePointerMove_accepts (p : Params) (bw px : number) (h : Hook) :
  changed (dimsRef h) (next_dims p bw px h) = true ->
  dimensions (handlePointerMove p bw px h) = next_dims p bw px h /\
  dimsRef (handlePointerMove p bw px h) = next_dims p bw px h.
Proof.
  intros E. unfold handlePointerMove. rewrite E. unfold notifyLive.
  destruct (negb (live_of p) || negb (onDimensionsChange p)); split; reflexivity.
Qed.

(** C1, as the specification words it, fails when the width bounds are
    given the wrong way round: with [minWidth = 300] and [maxWidth = 100] a
    width of 50, below [minWidth], gives [maxWidth], and so does a drag far
    to the left. *)
Lemma constrainWH_counterexample :
  (50 <? minWidth misordered) = true /\
  width (constrainWH misordered (useDragResize_init misordered) 50) = 100 /\
  width (constrainWH misordered (useDragResize_init misordered) 50)
    <> minWidth misordered /\
  width (dimensions
    (run misordered [PointerDown Right None 1 1 200; PointerMove 1 (-100000)]
       (useDragResize_init misordered))) = 100.
Proof.
  repeat split; try (vm_compute; reflexivity).
  intros H. apply (f_equal (fun v => v =? 300)) in H.
  vm_compute in H. discriminate H.
Qed.

(** C1, amended.  The constrain step maps the snapped width [w] to
    [min(maxWidth, max(minWidth, w))]; when [minWidth <= maxWidth], a width
    beyond [maxWidth] gives [maxWidth] and a width below [minWidth] gives
    [minWidth]; under aspect lock the height is
    [width' * (contentHeight / contentWidth)] clamped to [minHeight] and to
    [maxHeight] when [maxHeight] is given, to [minHeight] alone when it is
    not, so that a derived height above a given [maxHeight] becomes
    [maxHeight]; at 16:9 the width 320 gives the height 180 when 180 is
    within the height bounds; and this is what an accepted pointer move
    publishes. *)
Theorem constrainWH_spec (p : Params) (h : Hook) (w : number) :
  let d := constrainWH p h w in
  width d = Math_min (maxWidth p) (Math_max (minWidth p) w)
  /\ ((minWidth p <=? maxWidth p) = true -> (maxWidth p <? w) = true ->
      width d = maxWidth p)
  /\ ((minWidth p <=? maxWidth p) = true -> (w <? minWidth p) = true ->
      strict_eq (width d) (minWidth p) = true /\
      (is_zero (minWidth p) = false -> width d = minWidth p))
  /\ (forall cw ch,
        contentWidth p = Some cw -> contentHeight p = Some ch ->
        (forall m, maxHeight p = Some m ->
           height d = Math_min m (Math_max (minHeight p) (width d * (ch / cw))))
        /\ (maxHeight p = None ->
            height d =
              Math_min infinity (Math_max (minHeight p) (width d * (ch / cw))))
        /\ (forall m, maxHeight p = Some m -> (minHeight p <=? m) = true ->
              (m <? width d * (ch / cw)) = true -> height d = m)
        /\ (maxHeight p = None ->
            (minHeight p <=? width d * (ch / cw)) = true ->
            strict_eq (height d) (width d * (ch / cw)) = true))
  /\ (contentWidth p = Some 16 -> contentHeight p = Some 9 ->
      w = 320 -> (minWidth p <=? 320) = true -> (320 <=? maxWidth p) = true ->
      (minHeight p <=? 180) = true -> (180 <=? max_height_bound p) = true ->
      d = {| width := 320; height := 180 |})
  /\ (forall bw px,
        changed (dimsRef h) (next_dims p bw px h) = true ->
        dimensions (handlePointerMove p bw px h) =
        constrainWH p h (snapWidth p (proposedW h px) bw)).
Proof.
  intros d. subst d. unfold constrainWH. cbn [width height].
  split; [reflexivity|].
  split; [intros B A; apply clamp_above; assumption|].
  split; [intros B A; apply clamp_below; assumption|].
  split.
  { intros cw ch Hw Hh. destruct (aspect_ratio p cw ch Hw Hh) as [-> ->].
    unfold height_ceiling.
    split; [intros m ->; reflexivity|].
    split; [intros ->; reflexivity|].
    split.
    - intros m -> B A. cbn [nullish].
      pose proof (leb_ltb_trans _ _ _ B A) as D.
      apply clamp_above; assumption.
    - intros -> B. cbn [nullish].
      apply clamp_inside; [exact B|].
      apply leb_infinity. apply (leb_not_nan _ _ B). }
  split.
  { intros Hw Hh -> A1 A2 A3 A4.
    destruct (aspect_ratio p _ _ Hw Hh) as [-> ->].
    destruct (clamp_inside 320 _ _ A1 A2) as [_ ->]; [|reflexivity].
    replace (320 * (9 / 16)) with 180 by reflexivity.
    rewrite height_ceiling_bound.
    destruct (clamp_inside 180 _ _ A3 A4) as [_ ->]; reflexivity. }
  intros bw px E. apply handlePointerMove_accepts. exact E.
Qed.

Lemma constrainWH_spec_witness :
  constrainWH player (useDragResize_init player) 320 =
    {| width := 320; height := 180 |} /\
  width (constrainWH player (useDragResize_init player) 100000) = 500 /\
  width (constrainWH player (useDragResize_init player) (-100000)) = 100 /\
  height (constrainWH capped_player (useDragResize_init capped_player) 320) = 150 /\
  dimensions (run player [PointerDown Right None 1 1 200; PointerMove 1 320]
                (useDragResize_init player)) =
    {| width := 320; height := 180 |}.
Proof.
  pose proof (constrainWH_spec player (useDragResize_init player) 320)
    as (_ & _ & _ & _ & E & _).
  pose proof (constrainWH_spec player (useDragResize_init player) 100000)
    as (_ & Hi & _).
  pose proof (constrainWH_spec player (useDragResize_init player) (-100000))
    as (_ & _ & Lo & _).
  pose proof (constrainWH_spec capped_player (useDragResize_init capped_player) 320)
    as (_ & _ & _ & C & _).
  split; [exact (E eq_refl eq_refl eq_refl eq_refl eq_refl eq_refl eq_refl)|].
  split; [exact (Hi eq_refl eq_refl)|].
  split; [exact (proj2 (Lo eq_refl eq_refl) eq_refl)|].
  split.
  - destruct (C 16 9 eq_refl eq_refl) as (_ & _ & Cap & _).
    exact (Cap 150 eq_refl eq_refl eq_refl).
  - vm_compute. reflexivity.
Defined.

(** *** The height without aspect lock *)




(** *** The range of the dimensions *)

(** C6, as the specification words it, fails: the initial dimensions are
    the given [initialWidth] and [initialHeight], out of range or not,
    [setDimensions] stores what it is handed, and with a minimum of 0 a
    drag can bring the width to 0, which is not positive. *)
Lemma dimensions_within_bounds_counterexample :
  dimensions (useDragResize_init undersized) = {| width := 50; height := 40 |} /\
  within_bounds undersized (dimensions (useDragResize_init undersized)) = false /\
  within_bounds undersized
    (dimensions (step undersized (SetDimensions {| width := 900; height := -5 |})
                   (useDragResize_init undersized))) = false /\
  dimensions (run collapsible [PointerDown Right None 1 1 200; PointerMove 1 (-500)]
                (useDragResize_init collapsible)) =
    {| width := 0; height := 200 |} /\
  within_bounds collapsible
    (dimensions (run collapsible [PointerDown Right None 1 1 200; PointerMove 1 (-500)]
                   (useDragResize_init collapsible))) = false.
Proof. repeat split; vm_compute; reflexivity. Qed.

Lemma proposedW_not_nan (h : Hook) (px : number) :
  is_finite (width (startDimsRef h)) = true ->
  is_finite (originXRef h) = true -> is_finite px = true ->
  is_nan (proposedW h px) = false.
Proof.
  intros S O P. unfold proposedW. apply add_not_nan; [exact S|].
  destruct (dirRef h); cbn [deltaX]; apply sub_not_nan; assumption.
Qed.

Lemma constrainWH_in_range (p : Params) (h : Hook) (w : number) :
  well_formed p ->
  (hasAspect p = false -> is_nan (height (dimsRef h)) = false) ->
  is_nan w = false ->
  in_range p (constrainWH p h w).
Proof.
  intros (BW & Flo & Fhi & BH & FA) Nf Nw.
  destruct (leb_not_nan _ _ BH) as [NminH _].
  unfold in_range, constrainWH. cbn [width height].
  rewrite height_ceiling_bound.
  destruct (clamp_range w _ _ BW Nw) as [W1 W2].
  split; [exact W1|]. split; [exact W2|].
  apply clamp_range; [exact BH|].
  destruct (hasAspect p).
  - apply mul_not_nan; [|apply FA; reflexivity].
    exact (within_finite _ _ _ W1 W2 Flo Fhi).
  - apply Math_max_not_nan; [apply Nf; reflexivity | exact NminH].
Qed.

Lemma in_range_positive (p : Params) (d : ElementDimensions) :
  in_range p d -> (0 <? minWidth p) = true -> (0 <? minHeight p) = true ->
  within_bounds p d = true.
Proof.
  intros (R1 & R2 & R3 & R4) PW PH. unfold within_bounds.
  rewrite (ltb_leb_trans _ _ _ PW R1), (ltb_leb_trans _ _ _ PH R3).
  unfold max_height_bound in R4.
  destruct (maxHeight p); rewrite R1, R2, R3, R4; reflexivity.
Qed.

Lemma handlePointerMove_dimensions (p : Params) (bw px : number) (h : Hook) :
  let h' := handlePointerMove p bw px h in
  (dimensions h' = dimensions h /\ dimsRef h' = dimsRef h) \/
  (dimensions h' = next_dims p bw px h /\ dimsRef h' = next_dims p bw px h).
Proof.
  cbn zeta. unfold handlePointerMove.
  destruct (changed _ _); [right|left; split; reflexivity].
  unfold notifyLive.
  destruct (negb (live_of p) || negb (onDimensionsChange p)); split; reflexivity.
Qed.

(** What holds between pointer-down and pointer-up, whichever listeners
    run: the numbers of the gesture stay numbers, and the dimensions are
    the ones the gesture started with or lie within the bounds. *)
Lemma handlePointerMove_in_range (p : Params) (d0 : ElementDimensions)
  (bw px : number) (h : Hook) :
  well_formed p -> is_finite px = true ->
  numeric_gesture p h /\ dimsRef h = dimensions h /\
  (dimensions h = d0 \/ in_range p (dimensions h)) ->
  let h' := handlePointerMove p bw px h in
  numeric_gesture p h' /\ dimsRef h' = dimensions h' /\
  (dimensions h' = d0 \/ in_range p (dimensions h')).
Proof.
  intros WF Fpx (G & D & R). cbn zeta.
  pose proof G as (G1 & G2 & G3).
  destruct (handlePointerMove_keeps p bw px h)
    as (_ & _ & _ & _ & _ & O & S & _).
  assert (I : in_range p (next_dims p bw px h)).
  { apply constrainWH_in_range; trivial.
    apply snapWidth_not_nan, proposedW_not_nan; assumption. }
  destruct (handlePointerMove_dimensions p bw px h) as [[A B]|[A B]].
  - split; [unfold numeric_gesture; rewrite S, O, B; exact G|].
    split; [rewrite A, B; exact D|]. rewrite A. exact R.
  - split.
    + unfold numeric_gesture. rewrite S, O, B. repeat split; trivial.
      intros _. destruct I as (_ & _ & I & _). apply (leb_not_nan _ _ I).
    + split; [rewrite A, B; reflexivity|]. right. rewrite A. exact I.
Qed.

Lemma drag_in_range (p : Params) (d0 : ElementDimensions) (body : list Event) :
  well_formed p -> Forall numeric_drag body ->
  forall h,
    numeric_gesture p h -> dimsRef h = dimensions h ->
    dimensions h = d0 \/ in_range p (dimensions h) ->
    dimensions (run p body h) = d0 \/ in_range p (dimensions (run p body h)).
Proof.
  intros WF F. induction F as [|e body E F IH]; intros h G D R; [exact R|].
  cbn [run].
  destruct e as [d bw tgt i px|tgt px|tgt| |d'| |]; cbn [numeric_drag] in E;
    try contradiction; cbn [step].
  - assert (J : numeric_gesture p (pointermove p tgt px h) /\
                dimsRef (pointermove p tgt px h)
                  = dimensions (pointermove p tgt px h) /\
                (dimensions (pointermove p tgt px h) = d0 \/
                 in_range p (dimensions (pointermove p tgt px h)))).
    { apply (pointermove_ind
               (fun h' => numeric_gesture p h' /\ dimsRef h' = dimensions h' /\
                          (dimensions h' = d0 \/ in_range p (dimensions h'))));
        [|auto].
      intros bw h' J. apply handlePointerMove_in_range; assumption. }
    destruct J as (J1 & J2 & J3). apply IH; assumption.
  - destruct (animation_frame_fields h) as (A & B & S & O & _). apply IH.
    + unfold numeric_gesture. rewrite S, O, B. exact G.
    + rewrite A, B. exact D.
    + rewrite A. exact R.
  - apply IH; assumption.
Qed.

(** C6, amended.  In a well-formed configuration, on a hook with any
    history whose dimensions, as they are and as the latest render saw
    them, are numbers, a gesture (pointer-down, then pointer moves at
    finite positions on any target, animation frames and renders) leaves
    the dimensions either as they were before the gesture or within
    [[minWidth, maxWidth] x [minHeight, maxHeight]], [maxHeight] defaulting
    to unbounded, and then positive when the minimums are: every value the
    constraint pipeline stores is within the bounds.  The exported
    [currentWidth] and [currentHeight] are never below the minimums.  The
    initial dimensions and those handed to [setDimensions] are stored as
    they are. *)
Theorem pipeline_within_bounds (p : Params) (es body : list Event)
  (d : ResizeDirection) (bw : option number) (tgt i : nat) (px : number) :
  well_formed p ->
  let h0 := run p es (useDragResize_init p) in
  is_nan (width (dimensions h0)) = false ->
  is_nan (height (dimensions h0)) = false ->
  is_nan (width (rendered h0)) = false ->
  is_finite px = true ->
  Forall numeric_drag body ->
  let h1 := run p (PointerDown d bw tgt i px :: body) h0 in
  (dimensions h1 = dimensions h0 \/ in_range p (dimensions h1))
  /\ (dimensions h1 <> dimensions h0 ->
      (0 <? minWidth p) = true -> (0 <? minHeight p) = true ->
      within_bounds p (dimensions h1) = true)
  /\ (forall w, is_nan w = false -> in_range p (constrainWH p h1 w))
  /\ (minWidth p <=? currentWidth p h0) = true
  /\ (minHeight p <=? currentHeight p h0) = true
  /\ dimensions (useDragResize_init p) =
       {| width := nullish (initialWidth p) (minWidth p);
          height := nullish (initialHeight p) (minHeight p) |}
  /\ (forall d', dimensions (setDims d' h0) = d').
Proof.
  intros WF h0 Nw Nh Nr Fpx F h1.
  assert (I0 : raf_inv h0) by (apply raf_inv_run, raf_inv_init).
  destruct I0 as (_ & D0 & _).
  pose proof WF as (BW & Flo & Fhi & BH & FA).
  set (hd := initiateResize p d bw tgt i px h0).
  assert (G : numeric_gesture p hd).
  { unfold numeric_gesture, hd. cbn. repeat split; trivial.
    - destruct (clamp_range _ _ _ BW Nr) as [W1 W2].
      exact (within_finite _ _ _ W1 W2 Flo Fhi).
    - intros _. rewrite D0. exact Nh. }
  assert (R : dimensions h1 = dimensions h0 \/ in_range p (dimensions h1)).
  { subst h1. cbn [run step]. fold hd.
    apply (drag_in_range p (dimensions h0) body WF F hd G);
      [exact D0 | left; reflexivity]. }
  split; [exact R|]. split.
  { intros C PW PH. destruct R as [R|R]; [contradiction|].
    apply in_range_positive; assumption. }
  split.
  { intros w N. apply constrainWH_in_range; trivial.
    intros _. destruct R as [R|(_ & _ & R & _)].
    - assert (I1 : raf_inv h1) by (apply raf_inv_run, raf_inv_run, raf_inv_init).
      destruct I1 as (_ & D1 & _). rewrite D1, R. exact Nh.
    - assert (I1 : raf_inv h1) by (apply raf_inv_run, raf_inv_run, raf_inv_init).
      destruct I1 as (_ & D1 & _). rewrite D1. apply (leb_not_nan _ _ R). }
  destruct (leb_not_nan _ _ BW) as [NminW _].
  destruct (leb_not_nan _ _ BH) as [NminH _].
  split.
  { unfold currentWidth.
    destruct (Math_max_cases _ _ Nw NminW) as [[-> E]|[-> _]];
      [exact E | apply leb_refl; exact NminW]. }
  split.
  { unfold currentHeight.
    destruct (Math_max_cases _ _ Nh NminH) as [[-> E]|[-> _]];
      [exact E | apply leb_refl; exact NminH]. }
  split; reflexivity.
Qed.

Lemma pipeline_within_bounds_witness :
  well_formed undersized /\ well_formed capped_player /\
  Forall numeric_drag [PointerMove 1 230] /\
  within_bounds undersized
    (dimensions (run undersized [PointerDown Right None 1 1 200; PointerMove 1 230]
                   (run undersized [] (useDragResize_init undersized)))) = true /\
  within_bounds capped_player
    (dimensions (run capped_player [PointerDown Right None 1 1 200; PointerMove 1 320]
                   (run capped_player [] (useDragResize_init capped_player)))) = true.
Proof.
  assert (WF : well_formed undersized).
  { unfold well_formed. repeat split; intros; reflexivity. }
  assert (WC : well_formed capped_player).
  { unfold well_formed. repeat split; intros; reflexivity. }
  assert (F : Forall numeric_drag [PointerMove 1 230]).
  { repeat constructor. }
  assert (F' : Forall numeric_drag [PointerMove 1 320]).
  { repeat constructor. }
  pose proof (pipeline_within_bounds undersized [] [PointerMove 1 230]
                Right None 1 1 200 WF eq_refl eq_refl eq_refl eq_refl F)
    as (_ & P & _).
  pose proof (pipeline_within_bounds capped_player [] [PointerMove 1 320]
                Right None 1 1 200 WC eq_refl eq_refl eq_refl eq_refl F')
    as (_ & P' & _).
  split; [exact WF|]. split; [exact WC|]. split; [exact F|]. split.
  - apply P; try reflexivity.
    intros H. apply (f_equal (fun d => width d =? 50)) in H.
    vm_compute in H. discriminate H.
  - apply P'; try reflexivity.
    intros H. apply (f_equal (fun d => width d =? 200)) in H.
    vm_compute in H. discriminate H.
Defined.

(** Under aspect lock a given [maxHeight] caps the derived height: the
    16:9 player with [maxHeight = 150] dragged to the width 320 is
    320 x 150, not 320 x 180. *)
Example capped_player_drag :
  dimensions (run capped_player [PointerDown Right None 1 1 200; PointerMove 1 320]
                (useDragResize_init capped_player))
  = {| width := 320; height := 150 |}.
Proof. vm_compute. reflexivity. Qed.

(** *** Direction *)



(** *** Grid snapping *)

(** C10, amended.  Whenever the step is zero, negative or not finite,
    [snapWidth] returns the proposed width as it is, so the division by
    such a step is not performed and a finite proposed width stays finite;
    and whatever the step, a proposed width that is a number never snaps to
    NaN. *)
Theorem snapWidth_degenerate_step (p : Params) (w b : number) :
  ((snap_step p b <=? 0) = true \/ isFinite (snap_step p b) = false ->
   snapWidth p w b = w /\
   (isFinite w = true -> isFinite (snapWidth p w b) = true))
  /\ (is_nan w = false -> is_nan (snapWidth p w b) = false).
Proof.
  split; [|apply snapWidth_not_nan].
  intros D.
  assert (E : snapWidth p w b = w).
  { unfold snapWidth. fold (snap_step p b).
    destruct (strict_eq _ 100); [reflexivity|].
    destruct D as [-> | ->]; [reflexivity|].
    rewrite orb_true_r. reflexivity. }
  rewrite E. auto.
Qed.

Lemma snapWidth_degenerate_step_witness :
  snapWidth quarter_grid 300 0 = 300 /\
  snapWidth quarter_grid 300 infinity = 300 /\
  snapWidth quarter_grid 300 (-500) = 300 /\
  snapWidth quarter_grid 300 nan = 300 /\
  is_nan (snapWidth quarter_grid 300 500) = false /\
  is_nan (Math_round (300 / snap_step quarter_grid 0)
          * snap_step quarter_grid 0) = true.
Proof.
  split; [exact (proj1 (proj1 (snapWidth_degenerate_step quarter_grid 300 0)
                          (or_introl eq_refl)))|].
  split; [exact (proj1 (proj1 (snapWidth_degenerate_step quarter_grid 300 infinity)
                          (or_intror eq_refl)))|].
  split; [exact (proj1 (proj1 (snapWidth_degenerate_step quarter_grid 300 (-500))
                          (or_introl eq_refl)))|].
  split; [exact (proj1 (proj1 (snapWidth_degenerate_step quarter_grid 300 nan)
                          (or_intror eq_refl)))|].
  split; [exact (proj2 (snapWidth_degenerate_step quarter_grid 300 500) eq_refl)|].
  reflexivity.
Defined.

(** C10, as the specification words it, fails in its last part: the guard
    is about the step, not about the quotient.  With the positive, finite
    step 0.5 the finite width 2^1023 has a quotient beyond the largest
    double, and the snap computation gives an infinite width. *)
Lemma snapWidth_degenerate_step_counterexample :
  snap_step fine_grid 50 = 0.5 /\
  (0 <? snap_step fine_grid 50) = true /\
  isFinite (snap_step fine_grid 50) = true /\
  isFinite 0x1p1023 = true /\
  snapWidth fine_grid 0x1p1023 50 = infinity /\
  isFinite (snapWidth fine_grid 0x1p1023 50) = false.
Proof. repeat split; vm_compute; reflexivity. Qed.

(** C2, as the specification words it, fails twice: with a boundary width
    of 0 the code returns the proposed width where the formula gives NaN,
    and a quotient of -2.5 is rounded to -2 by [Math.round], toward
    +infinity, not away from zero. *)
Lemma snapWidth_counterexample :
  snapWidth quarter_grid 300 0 = 300 /\
  is_nan (snapWidth_claimed quarter_grid 300 0) = true /\
  snapWidth quarter_grid (-312.5) 500 = -250 /\
  snapWidth_claimed quarter_grid (-312.5) 500 = -375 /\
  snapWidth quarter_grid 300 0 <> snapWidth_claimed quarter_grid 300 0 /\
  snapWidth quarter_grid (-312.5) 500 <>
    snapWidth_claimed quarter_grid (-312.5) 500.
Proof.
  repeat split; try (vm_compute; reflexivity); intros H.
  - apply (f_equal (fun v => v =? 300)) in H. vm_compute in H. discriminate H.
  - apply (f_equal (fun v => v =? -250)) in H. vm_compute in H. discriminate H.
Qed.

Lemma forallb_centered_range (f : Z -> bool) (N : Z) :
  forallb (fun k => f (Z.of_nat k - N)%Z) (seq 0 (Z.to_nat (2 * N + 1))) = true ->
  forall n, (- N <= n <= N)%Z -> f n = true.
Proof.
  intros H n R. rewrite forallb_forall in H.
  specialize (H (Z.to_nat (n + N))).
  rewrite Z2Nat.id in H by lia.
  replace (n + N - N)%Z with n in H by lia.
  apply H. apply in_seq. lia.
Qed.

Lemma snap_check_all_true :
  forallb (fun k => snap_check (Z.of_nat k - snap_range))
          (seq 0 (Z.to_nat (2 * snap_range + 1))) = true.
Proof. vm_compute. reflexivity. Qed.

Lemma snap_check_spec (n : Z) :
  snap_check n = true ->
  strict_eq (snapWidth quarter_grid (of_Z n) 500)
            (of_Z (nearest_multiple_of_125 n)) = true /\
  ((0 <= n)%Z ->
   snapWidth quarter_grid (of_Z n) 500 = of_Z (nearest_multiple_of_125 n)).
Proof.
  unfold snap_check.
  generalize (snapWidth quarter_grid (of_Z n) 500).
  generalize (of_Z (nearest_multiple_of_125 n)).
  intros e s H. apply andb_true_iff in H. destruct H as [H1 H2].
  split; [exact H1|]. intros P.
  apply FloatAxioms.Leibniz.eqb_spec.
  destruct (Z.leb_spec 0 n); [exact H2 | lia].
Qed.

Lemma snapWidth_quarter_grid_integers (n : Z) :
  (- snap_range <= n <= snap_range)%Z ->
  strict_eq (snapWidth quarter_grid (of_Z n) 500)
            (of_Z (nearest_multiple_of_125 n)) = true /\
  ((0 <= n)%Z ->
   snapWidth quarter_grid (of_Z n) 500 = of_Z (nearest_multiple_of_125 n)).
Proof.
  intros R. apply snap_check_spec.
  exact (forallb_centered_range snap_check snap_range snap_check_all_true n R).
Qed.

Lemma snapWidth_gridPercent (p q : Params) (w b : number) :
  gridPercent p = gridPercent q -> snapWidth p w b = snapWidth q w b.
Proof. unfold snapWidth, gridPercent_of. intros ->. reflexivity. Qed.

(** C2, amended.  With [pct] the grid percentage clamped to [[1, 100]]:
    when [pct] is 100 the proposed width is returned as it is; otherwise,
    when the step [(pct / 100) * boundaryWidth] is positive and finite, the
    result is [Math.round(w / step) * step], where [Math.round] rounds to
    the nearest integer and a half toward +infinity (2.5 to 3, -2.5 to -2),
    that is [floor(v + 1/2)], which is rounding half away from zero for
    quotients that are not negative.  For [gridPercent = 25] and
    [boundaryWidth = 500] the step is 125, every integer width up to 1000
    in absolute value snaps to the multiple of 125 nearest to it, and 300
    snaps to 250. *)
Theorem snapWidth_spec (p : Params) (w b : number) :
  let pct := clamp (gridPercent_of p) 1 100 in
  let step := (pct / 100) * b in
  (strict_eq pct 100 = true -> snapWidth p w b = w)
  /\ (strict_eq pct 100 = false -> (0 <? step) = true -> isFinite step = true ->
      snapWidth p w b = Math_round (w / step) * step)
  /\ (forall v s m e,
        Prim2SF v = S754_finite s m e -> (e < 0)%Z ->
        strict_eq (Math_round v) (of_Z (floor_plus_half s m e)) = true)
  /\ (Math_round (300 / 125) = 2 /\ Math_round 2.5 = 3 /\ Math_round (-2.5) = -2)
  /\ (forall v, (v <? 0) = false -> round_half_away_from_zero v = Math_round v)
  /\ (gridPercent p = Some 25 ->
      (clamp (gridPercent_of p) 1 100 / 100) * 500 = 125 /\
      snapWidth p 300 500 = 250 /\
      forall n, (- snap_range <= n <= snap_range)%Z ->
        strict_eq (snapWidth p (of_Z n) 500)
                  (of_Z (nearest_multiple_of_125 n)) = true /\
        ((0 <= n)%Z ->
         snapWidth p (of_Z n) 500 = of_Z (nearest_multiple_of_125 n))).
Proof.
  intros pct step.
  split.
  { intros E. unfold snapWidth. fold pct. rewrite E. reflexivity. }
  split.
  { intros E P F. unfold snapWidth. fold pct. rewrite E. fold step.
    assert (G : (step <=? 0) = false) by (fcmp step 0; try fcontra; assumption).
    unfold isFinite in *. rewrite G, F. reflexivity. }
  split; [intros v s m e E N; apply (Math_round_floor_plus_half v s m e E N)|].
  split; [repeat split; reflexivity|].
  split.
  { intros v E. unfold round_half_away_from_zero. rewrite E. reflexivity. }
  intros G.
  split; [unfold gridPercent_of; rewrite G; reflexivity|].
  split.
  { rewrite (snapWidth_gridPercent p quarter_grid) by exact G. reflexivity. }
  intros n R. rewrite (snapWidth_gridPercent p quarter_grid) by exact G.
  apply snapWidth_quarter_grid_integers. exact R.
Qed.

Lemma snapWidth_spec_witness :
  snapWidth quarter_grid 300 500 = 250 /\
  snapWidth quarter_grid 270 500 = 250 /\
  snapWidth quarter_grid 320 500 = 375 /\
  snapWidth panel 237 500 = 237.
Proof.
  pose proof (snapWidth_spec quarter_grid 270 500) as (_ & A & _ & _ & _ & B).
  pose proof (snapWidth_spec quarter_grid 320 500) as (_ & C & _).
  pose proof (snapWidth_spec panel 237 500) as (D & _).
  split; [exact (proj1 (proj2 (B eq_refl)))|].
  split; [exact (A eq_refl eq_refl eq_refl)|].
  split; [exact (C eq_refl eq_refl eq_refl)|].
  exact (D eq_refl).
Defined.

(** *** Notifications *)

(** With [live] off the callback is not called between pointer-down and
    pointer-up, whatever is registered. *)
Lemma quiet_gesture (p : Params) (es body : list Event)
  (d : ResizeDirection) (bw : option number) (tgt i : nat) (px : number) :
  live_of p = false -> Forall during_drag body ->
  calls (run p (PointerDown d bw tgt i px :: body)
           (run p es (useDragResize_init p)))
  = calls (run p es (useDragResize_init p)).
Proof.
  intros L F. cbn [run].
  rewrite (quiet_drag p body L F); [reflexivity|].
  cbn [step initiateResize pendingFrames].
  apply silent_run; [left; exact L|reflexivity].
Qed.

(** C4 fails on the code when presses overlap.  [initiateResize] adds its
    two listeners without removing those of an earlier pointer-down, and
    [cleanup] removes only the pair [activeListenersRef] holds.  With three
    fingers pressed on one handle, the first finger lifted runs the first
    [pointerup] listener, which removes the pair of the third press and
    calls the callback, and then the second one, which is still registered
    and calls it again: two calls for one pointer-up; and the listeners of
    the first two presses stay registered.  With [live] off nothing was
    called before. *)
Lemma overlapping_presses_call_twice :
  calls (run panel overlapping_presses (useDragResize_init panel)) = [] /\
  calls (step panel (PointerUp 1)
           (run panel overlapping_presses (useDragResize_init panel)))
  = [{| width := 260; height := 200 |}; {| width := 260; height := 200 |}] /\
  List.length (upListeners
    (step panel (PointerUp 1)
       (run panel overlapping_presses (useDragResize_init panel)))) = 2%nat.
Proof. repeat split; vm_compute; reflexivity. Qed.

End DragResizeController.

(* ================================================================== *)
(** ** The life of a Rect Tracker *)
(* ================================================================== *)

Module RectTrackerLifecycle.

Import ContainerRect RectReference RectSamples NumberFacts.
Local Open Scope float_scope.

(** *** Reachable trackers *)

Lemma filter_none {A : Type} (f : A -> bool) (l : list A) :
  (forall a, In a l -> f a = false) -> filter f l = [].
Proof.
  induction l as [|a l IH]; intros H; [reflexivity|]. cbn.
  rewrite (H a (or_introl eq_refl)). apply IH. intros b Hb. apply H. right. exact Hb.
Qed.

Lemma filter_all {A : Type} (f : A -> bool) (l : list A) :
  (forall a, In a l -> f a = true) -> filter f l = l.
Proof.
  induction l as [|a l IH]; intros H; [reflexivity|]. cbn.
  rewrite (H a (or_introl eq_refl)). f_equal. apply IH. intros b Hb. apply H. right. exact Hb.
Qed.

Lemma same_target_refl (a : EventTarget) : same_target a a = true.
Proof. destruct a; cbn; [apply Nat.eqb_refl|reflexivity]. Qed.

(** Removing the listeners that were added leaves none of them. *)
Lemma remove_scroll_self (l : list (EventTarget * Handler)) :
  remove_scroll l l = [].
Proof.
  unfold remove_scroll. apply filter_none. intros r Hr.
  apply negb_false_iff. apply existsb_exists. exists r. split; [exact Hr|].
  rewrite same_target_refl, Nat.eqb_refl. reflexivity.
Qed.

Lemma remove_scroll_nil (reg : list (EventTarget * Handler)) :
  remove_scroll [] reg = reg.
Proof. unfold remove_scroll. apply filter_all. reflexivity. Qed.

Lemma add_scroll_next (tgts : list EventTarget) :
  forall id l, id <= snd (add_scroll tgts id l).
Proof.
  induction tgts as [|tgt rest IH]; intros id l; cbn; [apply Nat.le_refl|].
  specialize (IH (S id) (l ++ [(tgt, id)])). lia.
Qed.

Lemma add_scroll_targets (tgts : list EventTarget) :
  forall id l, map fst (fst (add_scroll tgts id l)) = map fst l ++ tgts.
Proof.
  induction tgts as [|tgt rest IH]; intros id l; cbn.
  - rewrite app_nil_r. reflexivity.
  - rewrite IH, map_app, <- app_assoc. reflexivity.
Qed.

Lemma pending_cancelled (t : Tracker) :
  (pendingFrames t = [] \/
   exists id, rafIdRef t = Some (S id) /\ pendingFrames t = [S id]) ->
  (if truthy (rafIdRef t)
   then cancelAnimationFrame (rafIdRef t) (pendingFrames t)
   else pendingFrames t) = [].
Proof.
  intros [E|(id & E1 & E2)]; rewrite E || rewrite E1, E2; cbn.
  - destruct (truthy _); [destruct (rafIdRef t)|]; reflexivity.
  - rewrite Nat.eqb_refl. reflexivity.
Qed.

Lemma tracker_inv_init : tracker_inv useContainerRect_init.
Proof.
  unfold tracker_inv. cbn. repeat split; auto; try discriminate; congruence.
Qed.

Lemma tracker_inv_measure (L : Layout) (n : Element) (t : Tracker) :
  tracker_inv t -> tracker_inv (measure L n t).
Proof.
  intros I. unfold measure. destruct (same_rounded _ _); [exact I|].
  destruct I as (A & B & C & D & E & F & G & H & J).
  unfold tracker_inv, named_window_listeners in *. cbn.
  repeat split; try assumption; try (apply D; assumption).
  rewrite length_app. cbn. lia.
Qed.

Lemma tracker_inv_schedule (t : Tracker) :
  tracker_inv t -> nodeRef t <> None -> tracker_inv (schedule t).
Proof.
  intros (A & B & C & D & E & F & G & H & J) N.
  pose proof (pending_cancelled t G) as P.
  unfold tracker_inv, named_window_listeners, schedule in *. cbn. rewrite P.
  repeat split; try assumption; try (apply D; assumption);
    try (intros; contradiction); try discriminate.
  right. destruct (nextId t) as [|k]; [congruence|]. exists k. auto.
Qed.

Lemma schedule_nodeRef (t : Tracker) : nodeRef (schedule t) = nodeRef t.
Proof. reflexivity. Qed.

Lemma tracker_inv_schedule_each {A : Type} (l : list A) :
  forall t, tracker_inv t -> (l <> [] -> nodeRef t <> None) ->
            tracker_inv (schedule_each l t).
Proof.
  unfold schedule_each.
  induction l as [|a l IH]; intros t I N; cbn; [exact I|].
  assert (M : nodeRef t <> None) by (apply N; discriminate).
  apply IH; [apply tracker_inv_schedule; assumption|]. intros _. exact M.
Qed.

Lemma tracker_inv_cleanup (t : Tracker) (node : option Element) :
  tracker_inv t ->
  let c := set_nodeRef node (cleanup t) in
  windowResizeListeners c = [] /\ scrollListeners c = [] /\
  roRef c = None /\ resizeHandlerRef c = None /\ scrollHandlersRef c = [] /\
  pendingFrames c = [] /\ nextId c = nextId t /\ nodeRef c = node /\
  rect c = rect t /\ heap c = heap t /\ renders c = renders t.
Proof.
  intros (A & B & C & D & E & F & G & H & J).
  pose proof (pending_cancelled t G) as P.
  cbn. rewrite P, A, B, remove_scroll_self.
  unfold named_window_listeners.
  destruct (resizeHandlerRef t) as [h|]; cbn; rewrite ?Nat.eqb_refl;
    repeat split; reflexivity.
Qed.

Lemma tracker_inv_detached (t : Tracker) :
  windowResizeListeners t = [] -> scrollListeners t = [] ->
  roRef t = None -> resizeHandlerRef t = None -> scrollHandlersRef t = [] ->
  pendingFrames t = [] -> nextId t <> 0%nat -> nodeRef t = None ->
  rect t < List.length (heap t) -> tracker_inv t.
Proof.
  intros A B C D E F G H J. unfold tracker_inv, named_window_listeners.
  rewrite A, B, C, D, E, F, H. repeat split; auto; congruence.
Qed.

Lemma measure_fields (L : Layout) (n : Element) (t : Tracker) :
  let m := measure L n t in
  nodeRef m = nodeRef t /\ rafIdRef m = rafIdRef t /\ roRef m = roRef t /\
  resizeHandlerRef m = resizeHandlerRef t /\
  scrollHandlersRef m = scrollHandlersRef t /\
  pendingFrames m = pendingFrames t /\ nextId m = nextId t /\
  windowResizeListeners m = windowResizeListeners t /\
  scrollListeners m = scrollListeners t /\
  (rect t < List.length (heap t) -> rect m < List.length (heap m)).
Proof.
  unfold measure. destruct (same_rounded _ _); cbn; repeat split; auto.
  intros _. rewrite length_app. cbn. lia.
Qed.

Lemma tracker_inv_ref (doc : Document) (tp : bool) (L : Layout)
  (node : option Element) (t : Tracker) :
  tracker_inv t -> tracker_inv (ref doc tp L node t).
Proof.
  intros I. pose proof I as (_ & _ & _ & _ & _ & F & _ & _ & J).
  destruct (tracker_inv_cleanup t node I)
    as (A & B & C & D & E & P & N & M & R & Hp & _).
  unfold ref. destruct node as [n|].
  - set (c := set_nodeRef (Some n) (cleanup t)) in *. clearbody c.
    destruct (measure_fields L n c) as (m1 & m2 & m3 & m4 & m5 & m6 & m7 & m8 & m9 & m10).
    set (m := measure L n c) in *. clearbody m.
    unfold tracker_inv, named_window_listeners, observe. cbn.
    rewrite m1, m5, m6, m7, m8, m9, M, E, P, N, A, B.
    repeat split; try discriminate; auto.
    + destruct tp; cbn; [|discriminate].
      pose proof (add_scroll_next (getScrollParents doc (Some n)) (S (nextId t)) []) as S.
      cbn in S. lia.
    + apply m10. rewrite R, Hp. exact J.
  - apply tracker_inv_detached; try assumption; congruence.
Qed.

Lemma tracker_inv_unmount (t : Tracker) :
  tracker_inv t -> tracker_inv (unmount t).
Proof.
  intros I. pose proof I as (A & B & C & D & E & F & G & H & J).
  pose proof (pending_cancelled t G) as P.
  unfold unmount. apply tracker_inv_detached; cbn; try assumption; try reflexivity.
  - rewrite A. unfold named_window_listeners.
    destruct (resizeHandlerRef t); cbn; rewrite ?Nat.eqb_refl; reflexivity.
  - rewrite B. apply remove_scroll_self.
Qed.

Lemma clear_frames_idle (t : Tracker) :
  pendingFrames t = [] -> clear_frames t = t.
Proof. intros E. destruct t. cbn in *. subst. reflexivity. Qed.

Lemma tracker_frame_idle (L : Layout) (t : Tracker) :
  pendingFrames t = [] -> next_frame L t = t.
Proof.
  intros E. unfold next_frame. rewrite E. cbn. apply clear_frames_idle. exact E.
Qed.

(** A frame with a request pending runs the callback once, on a tracker with
    nothing pending. *)
Lemma tracker_frame_pending (L : Layout) (t : Tracker) (id : nat) :
  pendingFrames t = [id] ->
  next_frame L t = frame_callback L (clear_frames t).
Proof. intros E. unfold next_frame. rewrite E. reflexivity. Qed.

Lemma tracker_inv_clear_frames (t : Tracker) :
  tracker_inv t -> tracker_inv (clear_frames t).
Proof.
  intros (A & B & C & D & E & F & G & H & J).
  unfold tracker_inv, named_window_listeners in *. cbn.
  repeat split; try assumption; try (apply D; assumption); auto.
Qed.

Lemma tracker_inv_animation_frame (L : Layout) (t : Tracker) :
  tracker_inv t -> tracker_inv (next_frame L t).
Proof.
  intros I. pose proof I as (_ & _ & _ & _ & _ & _ & [G|(id & _ & G)] & _).
  - rewrite tracker_frame_idle; assumption.
  - rewrite (tracker_frame_pending L t _ G). unfold frame_callback.
    apply tracker_inv_clear_frames in I.
    destruct (nodeRef (clear_frames t)); [apply tracker_inv_measure|]; exact I.
Qed.

Lemma tracker_inv_step (doc : Document) (tp : bool) (e : TrackerEvent) (t : Tracker) :
  tracker_inv t -> tracker_inv (tracker_step doc tp e t).
Proof.
  intros I. pose proof I as (A & B & C & D & E & F & G & H & J).
  destruct e; cbn [tracker_step].
  - apply tracker_inv_ref; exact I.
  - apply tracker_inv_ref; exact I.
  - unfold resize_observed. destruct (roRef t) eqn:R; [|exact I].
    apply tracker_inv_schedule; [exact I|]. congruence.
  - unfold window_resize. apply tracker_inv_schedule_each; [exact I|].
    rewrite A. unfold named_window_listeners. intros N M.
    destruct (D M) as [D1 _]. rewrite D1 in N. apply N. reflexivity.
  - unfold scroll_on. apply tracker_inv_schedule_each; [exact I|].
    rewrite B. intros N M. destruct (D M) as [_ D2]. rewrite D2 in N.
    apply N. reflexivity.
  - apply tracker_inv_animation_frame; exact I.
  - apply tracker_inv_unmount; exact I.
Qed.

Lemma tracker_inv_run (doc : Document) (tp : bool) (es : list TrackerEvent) :
  forall t, tracker_inv t -> tracker_inv (tracker_run doc tp es t).
Proof.
  induction es as [|e es IH]; intros t I; cbn [tracker_run]; [exact I|].
  apply IH. apply tracker_inv_step. exact I.
Qed.


(** *** Notifications *)

Lemma same_attachment_refl (t : Tracker) : same_attachment t t.
Proof. repeat split. Qed.

Lemma same_attachment_trans (a b c : Tracker) :
  same_attachment a b -> same_attachment b c -> same_attachment a c.
Proof.
  unfold same_attachment. intros (A1 & A2 & A3 & A4 & A5 & A6 & A7)
    (B1 & B2 & B3 & B4 & B5 & B6 & B7).
  repeat split; congruence.
Qed.

Lemma same_attachment_schedule_each {A : Type} (l : list A) :
  forall t, same_attachment t (schedule_each l t).
Proof.
  unfold schedule_each. induction l as [|a l IH]; intros t; cbn.
  - apply same_attachment_refl.
  - apply same_attachment_trans with (schedule t); [repeat split|apply IH].
Qed.

Lemma same_attachment_notification (doc : Document) (tp : bool) (e : TrackerEvent)
  (t : Tracker) :
  notification e -> same_attachment t (tracker_step doc tp e t).
Proof.
  destruct e; cbn; try contradiction; intros _.
  - unfold resize_observed. destruct (roRef t); repeat split.
  - apply same_attachment_schedule_each.
  - apply same_attachment_schedule_each.
Qed.

Lemma same_attachment_burst (doc : Document) (tp : bool) (es : list TrackerEvent) :
  forall t, Forall notification es -> same_attachment t (tracker_run doc tp es t).
Proof.
  induction es as [|e es IH]; intros t F; cbn [tracker_run].
  - apply same_attachment_refl.
  - inversion F as [|? ? Fe Fes]; subst.
    apply same_attachment_trans with (tracker_step doc tp e t);
      [apply same_attachment_notification; exact Fe|apply IH; exact Fes].
Qed.

Lemma schedule_each_pending {A : Type} (l : list A) :
  forall t, pendingFrames t <> [] \/ l <> [] ->
            pendingFrames (schedule_each l t) <> [].
Proof.
  unfold schedule_each. induction l as [|a l IH]; intros t H; cbn.
  - destruct H as [H|H]; [exact H|contradiction H; reflexivity].
  - apply IH. left. cbn. intros E. apply app_eq_nil in E. destruct E as [_ E].
    discriminate E.
Qed.

Lemma notification_keeps_pending (doc : Document) (tp : bool) (e : TrackerEvent)
  (t : Tracker) :
  notification e -> pendingFrames t <> [] ->
  pendingFrames (tracker_step doc tp e t) <> [].
Proof.
  destruct e; cbn; try contradiction; intros _ P.
  - unfold resize_observed. destruct (roRef t); [|exact P].
    apply (schedule_each_pending [tt] t). right. discriminate.
  - apply schedule_each_pending. left. exact P.
  - apply schedule_each_pending. left. exact P.
Qed.

Lemma burst_keeps_pending (doc : Document) (tp : bool) (es : list TrackerEvent) :
  forall t, Forall notification es -> pendingFrames t <> [] ->
            pendingFrames (tracker_run doc tp es t) <> [].
Proof.
  induction es as [|e es IH]; intros t F P; cbn [tracker_run]; [exact P|].
  inversion F as [|? ? Fe Fes]; subst.
  apply IH; [exact Fes|]. apply notification_keeps_pending; assumption.
Qed.

Lemma heard_notification (tp : bool) (e : TrackerEvent) : heard tp e -> notification e.
Proof. destruct e; cbn; auto. Qed.

Lemma In_filter_target (l : list (EventTarget * Handler)) :
  In WindowTarget (map fst l) ->
  filter (fun r => same_target (fst r) WindowTarget) l <> [].
Proof.
  induction l as [|[tgt h] l IH]; cbn; [contradiction|].
  intros [E|I].
  - subst. cbn. discriminate.
  - destruct (same_target tgt WindowTarget); [discriminate|]. apply IH. exact I.
Qed.

(** A notification an attached tracker listens for leaves a request
    pending. *)
Lemma heard_schedules (doc : Document) (tp : bool) (e : TrackerEvent) (t : Tracker) :
  tracker_inv t -> scroll_inv tp t -> nodeRef t <> None -> heard tp e ->
  pendingFrames (tracker_step doc tp e t) <> [].
Proof.
  intros (A & B & C & D & E & _) S N H. destruct e; cbn in H; try contradiction;
    cbn [tracker_step].
  - unfold resize_observed. rewrite C. destruct (nodeRef t); [|contradiction N; reflexivity].
    apply (schedule_each_pending [tt] t). right. discriminate.
  - unfold window_resize. apply schedule_each_pending. right. rewrite A.
    unfold named_window_listeners. specialize (E N).
    destruct (resizeHandlerRef t); [discriminate|contradiction E; reflexivity].
  - destruct tgt; [contradiction|]. unfold scroll_on.
    apply schedule_each_pending. right. apply In_filter_target. apply S; assumption.
Qed.

Lemma scroll_inv_step (doc : Document) (tp : bool) (e : TrackerEvent) (t : Tracker) :
  scroll_inv tp t -> scroll_inv tp (tracker_step doc tp e t).
Proof.
  intros S. destruct e.
  - intros T _. subst tp. cbn [tracker_step]. unfold ref, observe. cbn [scrollListeners fst].
    rewrite map_app, add_scroll_targets. cbn [getScrollParents map app].
    apply in_or_app. right. apply in_or_app. right. left. reflexivity.
  - intros _ N. contradiction N. reflexivity.
  - destruct (same_attachment_notification doc tp ResizeObserved t I)
      as (_ & N & _ & _ & _ & _ & L).
    unfold scroll_inv. rewrite N, L. exact S.
  - destruct (same_attachment_notification doc tp WindowResize t I)
      as (_ & N & _ & _ & _ & _ & L).
    unfold scroll_inv. rewrite N, L. exact S.
  - destruct (same_attachment_notification doc tp (Scroll tgt) t I)
      as (_ & N & _ & _ & _ & _ & L).
    unfold scroll_inv. rewrite N, L. exact S.
  - cbn [tracker_step]. unfold next_frame.
    assert (G : forall k u, scroll_inv tp u ->
                scroll_inv tp (Nat.iter k (frame_callback L) u)).
    { induction k as [|k IH]; intros u Su; [exact Su|]. rewrite Nat.iter_succ.
      specialize (IH u Su). set (v := Nat.iter k (frame_callback L) u) in *.
      unfold frame_callback.
      destruct (nodeRef v) as [n|] eqn:Nv; [|exact IH].
      destruct (measure_fields L n v)
        as (m1 & _ & _ & _ & _ & _ & _ & _ & m9 & _).
      unfold scroll_inv. rewrite m1, m9. exact IH. }
    apply G. exact S.
  - intros _ N. contradiction N. reflexivity.
Qed.

Lemma scroll_inv_run (doc : Document) (tp : bool) (es : list TrackerEvent) :
  forall t, scroll_inv tp t -> scroll_inv tp (tracker_run doc tp es t).
Proof.
  induction es as [|e es IH]; intros t S; cbn [tracker_run]; [exact S|].
  apply IH. apply scroll_inv_step. exact S.
Qed.

Lemma scroll_inv_init (tp : bool) : scroll_inv tp useContainerRect_init.
Proof. intros _ N. contradiction N. reflexivity. Qed.

Lemma published_measure (L : Layout) (n : Element) (a b : Tracker) :
  published a = published b ->
  published (measure L n a) = published (measure L n b).
Proof.
  unfold published. intros E. injection E as E1 E2 E3 E4.
  unfold measure, deref. rewrite E1, E2.
  destruct (same_rounded _ _); cbn; congruence.
Qed.

(** What the next frame publishes after a burst of notifications. *)
Lemma frame_after_burst (doc : Document) (tp : bool) (L : Layout)
  (es : list TrackerEvent) (t : Tracker) :
  tracker_inv t -> Forall notification es ->
  let t' := tracker_run doc tp es t in
  (pendingFrames t' = [] /\ published (next_frame L t') = published t) \/
  (pendingFrames t' <> [] /\ exists n, nodeRef t = Some n /\
     published (next_frame L t') = published (measure L n t)).
Proof.
  intros I F t'.
  assert (I' : tracker_inv t') by (apply tracker_inv_run; exact I).
  destruct (same_attachment_burst doc tp es t F) as (P & N & _).
  fold t' in P, N.
  pose proof I' as (_ & _ & _ & _ & _ & _ & [G|(id & _ & G)] & H & _).
  - left. split; [exact G|]. rewrite tracker_frame_idle; assumption.
  - right. split; [rewrite G; discriminate|].
    destruct (nodeRef t') as [n|] eqn:Nt.
    + exists n. split; [congruence|].
      rewrite (tracker_frame_pending L t' _ G). unfold frame_callback.
      cbn [clear_frames nodeRef]. rewrite Nt.
      apply published_measure. rewrite <- P. reflexivity.
    + rewrite (H eq_refl) in G. discriminate G.
Qed.


Lemma cleanup_set_nodeRef (node : option Element) (t : Tracker) :
  cleanup (set_nodeRef node t) = set_nodeRef node (cleanup t).
Proof. reflexivity. Qed.

Lemma released_after_cleanup (node : option Element) (t : Tracker) :
  tracker_inv t -> released (set_nodeRef node (cleanup t)).
Proof.
  intros I. destruct (tracker_inv_cleanup t node I)
    as (A & B & C & D & E & P & _).
  repeat split; assumption.
Qed.

Lemma renders_measure (L : Layout) (n : Element) (t : Tracker) :
  renders (measure L n t) <= S (renders t).
Proof. unfold measure. destruct (same_rounded _ _); cbn; lia. Qed.

Lemma measure_in_sync (L : Layout) (n : Element) (t : Tracker) :
  numeric_rect (L n) -> rounded_equal (current_rect (measure L n t)) (L n).
Proof.
  intros N. destruct (same_rounded (current_rect t) (L n)) eqn:E.
  - rewrite (RectTracker.measure_same L n t E).
    apply RectTracker.same_rounded_equal. exact E.
  - rewrite (RectTracker.measure_publishes L n t E).
    apply RectTracker.rounded_equal_refl. exact N.
Qed.

Lemma measure_differ (L : Layout) (n : Element) (t : Tracker) :
  rounded_differ (current_rect t) (L n) -> current_rect (measure L n t) = L n.
Proof.
  intros D. apply RectTracker.measure_publishes.
  apply RectTracker.same_rounded_differ. exact D.
Qed.

Lemma current_rect_published (a b : Tracker) :
  published a = published b -> current_rect a = current_rect b.
Proof.
  unfold published, current_rect, deref. intros E. injection E as E1 E2 _ _.
  rewrite E1, E2. reflexivity.
Qed.

Lemma renders_published (a b : Tracker) :
  published a = published b -> renders a = renders b.
Proof. unfold published. intros E. injection E as _ _ E _. exact E. Qed.

(** X1. Along any sequence of events of a mounted tracker, a detach and an
    unmount leave nothing with the browser: no window [resize] listener, no
    [scroll] listener on any target, no observer, no pending animation-frame
    request. *)
Theorem teardown_releases_everything (doc : Document) (trackPosition : bool)
  (es : list TrackerEvent) :
  let t := tracker_run doc trackPosition es useContainerRect_init in
  released (tracker_step doc trackPosition Detach t) /\
  released (tracker_step doc trackPosition Dispose t).
Proof.
  intros t.
  assert (I : tracker_inv t) by (apply tracker_inv_run, tracker_inv_init).
  split; [exact (released_after_cleanup None t I)|].
  cbn [tracker_step]. unfold unmount. rewrite cleanup_set_nodeRef.
  exact (released_after_cleanup None t I).
Qed.

(** X2. Attaching a node, whatever happened to the tracker before, leaves
    exactly one window [resize] listener (the one [resizeHandlerRef] names),
    the observer on that node, no pending request, and as [scroll]
    listeners exactly those [scrollHandlersRef] names: none without
    [trackPosition], one per scroll parent of the node, in order, with
    it. *)
Theorem attach_registers_once (doc : Document) (trackPosition : bool)
  (es : list TrackerEvent) (L : Layout) (n : Element) :
  let t' := tracker_step doc trackPosition (Attach L n)
              (tracker_run doc trackPosition es useContainerRect_init) in
  (exists h, windowResizeListeners t' = [h] /\ resizeHandlerRef t' = Some h) /\
  roRef t' = Some n /\ nodeRef t' = Some n /\
  pendingFrames t' = [] /\
  scrollListeners t' = scrollHandlersRef t' /\
  map fst (scrollListeners t') =
    (if trackPosition then getScrollParents doc (Some n) else []).
Proof.
  set (t := tracker_run doc trackPosition es useContainerRect_init). intros t'.
  assert (I : tracker_inv t) by (apply tracker_inv_run, tracker_inv_init).
  destruct (tracker_inv_cleanup t (Some n) I)
    as (A & B & C & D & E & P & N & M & R & Hp & _).
  subst t'. cbn [tracker_step]. unfold ref.
  set (c := set_nodeRef (Some n) (cleanup t)) in *. clearbody c.
  destruct (measure_fields L n c)
    as (m1 & m2 & m3 & m4 & m5 & m6 & m7 & m8 & m9 & m10).
  set (m := measure L n c) in *. clearbody m.
  unfold observe. cbn [windowResizeListeners resizeHandlerRef roRef nodeRef
    pendingFrames scrollListeners scrollHandlersRef].
  rewrite m1, m5, m6, m8, m9, A, B, E, P, M.
  split; [exists (nextId m); split; reflexivity|].
  repeat split. destruct trackPosition; [|reflexivity].
  cbn [app fst]. apply add_scroll_targets.
Qed.

(** X3. Notifications (observer, window resize, scroll) measure nothing
    themselves: after any burst of them the consumer sees what it saw
    before, and the browser holds at most one animation-frame request.  The
    next frame takes the request, signals at most one update, and publishes
    either nothing new or what one measurement of the attached node
    gives. *)
Theorem burst_measured_once (doc : Document) (trackPosition : bool)
  (es0 es : list TrackerEvent) (L : Layout) :
  Forall notification es ->
  let t := tracker_run doc trackPosition es0 useContainerRect_init in
  let t' := tracker_run doc trackPosition es t in
  published t' = published t /\
  List.length (pendingFrames t') <= 1 /\
  pendingFrames (next_frame L t') = [] /\
  renders (next_frame L t') <= S (renders t) /\
  (published (next_frame L t') = published t \/
   exists n, nodeRef t = Some n /\
     published (next_frame L t') = published (measure L n t)).
Proof.
  intros F t t'.
  assert (I : tracker_inv t) by (apply tracker_inv_run, tracker_inv_init).
  assert (I' : tracker_inv t') by (apply tracker_inv_run; exact I).
  destruct (same_attachment_burst doc trackPosition es t F) as (P & _).
  fold t' in P.
  assert (Q : pendingFrames (next_frame L t') = []).
  { pose proof (tracker_inv_animation_frame L t' I')
      as (_ & _ & _ & _ & _ & _ & G' & _).
    pose proof I' as (_ & _ & _ & _ & _ & _ & [G|(id & _ & G)] & _).
    - rewrite tracker_frame_idle; assumption.
    - rewrite (tracker_frame_pending L t' _ G). unfold frame_callback.
      destruct (nodeRef (clear_frames t')) as [n|]; [|reflexivity].
      destruct (measure_fields L n (clear_frames t'))
        as (_ & _ & _ & _ & _ & m6 & _). rewrite m6. reflexivity. }
  split; [exact P|]. split.
  { destruct I' as (_ & _ & _ & _ & _ & _ & [G|(id & _ & G)] & _);
      rewrite G; cbn; lia. }
  split; [exact Q|].
  destruct (frame_after_burst doc trackPosition L es t I F)
    as [(_ & E)|(_ & n & N & E)]; fold t' in E.
  - split; [|left; exact E]. rewrite (renders_published _ _ E). lia.
  - split; [|right; exists n; split; assumption].
    rewrite (renders_published _ _ E). apply renders_measure.
Qed.

Lemma burst_measured_once_witness :
  Forall notification burst /\
  published (tracker_run page true burst (tracker_run page true mounted useContainerRect_init))
    = published (tracker_run page true mounted useContainerRect_init) /\
  List.length (pendingFrames
    (tracker_run page true burst (tracker_run page true mounted useContainerRect_init))) <= 1.
Proof.
  assert (F : Forall notification burst) by (repeat constructor).
  split; [exact F|].
  destruct (burst_measured_once page true mounted burst geometry3 F)
    as (A & B & _).
  split; [exact A|exact B].
Defined.

Lemma heard_burst_pending (doc : Document) (tp : bool) (es : list TrackerEvent) :
  forall t, tracker_inv t -> scroll_inv tp t -> nodeRef t <> None ->
    Forall notification es -> Exists (heard tp) es ->
    pendingFrames (tracker_run doc tp es t) <> [].
Proof.
  induction es as [|e es IH]; intros t I Sc N F X; [inversion X|].
  inversion F as [|? ? Fe Fes]; subst. cbn [tracker_run].
  inversion X as [? ? He|? ? Hes]; subst.
  - apply burst_keeps_pending; [exact Fes|].
    apply heard_schedules; assumption.
  - apply IH; try assumption.
    + apply tracker_inv_step; exact I.
    + apply scroll_inv_step; exact Sc.
    + destruct (same_attachment_notification doc tp e t Fe) as (_ & N' & _).
      rewrite N'. exact N.
Qed.

(** X4. While a node is attached, a burst of notifications that contains one
    the tracker listens for (the observer, a window resize or, with
    [trackPosition], a scroll of the window) is always followed up: the next
    frame publishes exactly what one measurement of the node at that frame
    gives.  The published rect then has the rounded [x], [y], [width] and
    [height] of the node's geometry, each of the four; and when one of them
    had changed, whichever it is, the published rect is the geometry as
    measured. *)
Theorem heard_notification_is_measured (doc : Document) (trackPosition : bool)
  (es0 es : list TrackerEvent) (L : Layout) (n : Element) :
  Forall notification es -> Exists (heard trackPosition) es ->
  nodeRef (tracker_run doc trackPosition es0 useContainerRect_init) = Some n ->
  numeric_rect (L n) ->
  let t := tracker_run doc trackPosition es0 useContainerRect_init in
  let t' := next_frame L (tracker_run doc trackPosition es t) in
  published t' = published (measure L n t) /\
  rounded_equal (current_rect t') (L n) /\
  (rounded_differ (current_rect t) (L n) -> current_rect t' = L n).
Proof.
  intros F X N Num t t'.
  assert (I : tracker_inv t) by (apply tracker_inv_run, tracker_inv_init).
  assert (Sc : scroll_inv trackPosition t)
    by (apply scroll_inv_run, scroll_inv_init).
  assert (P : pendingFrames (tracker_run doc trackPosition es t) <> []).
  { apply heard_burst_pending; try assumption. fold t in N. congruence. }
  assert (E : published t' = published (measure L n t)).
  { destruct (frame_after_burst doc trackPosition L es t I F)
      as [(G & _)|(_ & n' & N' & E)]; [contradiction|].
    fold t in N. assert (n' = n) by congruence. subst n'. exact E. }
  split; [exact E|].
  rewrite (current_rect_published _ _ E).
  split; [apply measure_in_sync; exact Num|apply measure_differ].
Qed.

Lemma heard_notification_is_measured_witness :
  Forall notification burst /\ Exists (heard false) burst /\
  nodeRef (tracker_run page false mounted useContainerRect_init) = Some probe /\
  numeric_rect (taller probe) /\
  current_rect (next_frame taller
     (tracker_run page false burst
        (tracker_run page false mounted useContainerRect_init)))
  = taller probe.
Proof.
  assert (F : Forall notification burst) by (repeat constructor).
  assert (X : Exists (heard false) burst) by (left; exact I).
  assert (N : nodeRef (tracker_run page false mounted useContainerRect_init) = Some probe)
    by reflexivity.
  assert (Num : numeric_rect (taller probe)) by (repeat split).
  repeat (split; [assumption|]).
  apply (proj2 (proj2 (heard_notification_is_measured page false mounted burst
                         taller probe F X N Num))).
  right. right. right. reflexivity.
Defined.

Lemma no_scroll_listeners_step (doc : Document) (e : TrackerEvent) (t : Tracker) :
  scrollListeners t = [] /\ scrollHandlersRef t = [] ->
  scrollListeners (tracker_step doc false e t) = [] /\
  scrollHandlersRef (tracker_step doc false e t) = [].
Proof.
  intros [A B]. destruct e.
  - cbn [tracker_step]. unfold ref.
    destruct (measure_fields L node (set_nodeRef (Some node) (cleanup t)))
      as (_ & _ & _ & _ & m5 & _ & _ & _ & m9 & _).
    unfold observe. cbn [scrollListeners scrollHandlersRef fst].
    rewrite m5, m9. cbn. rewrite A, B. split; reflexivity.
  - cbn. rewrite A, B. split; reflexivity.
  - destruct (same_attachment_notification doc false ResizeObserved t I)
      as (_ & _ & _ & _ & H & _ & L). rewrite H, L. split; assumption.
  - destruct (same_attachment_notification doc false WindowResize t I)
      as (_ & _ & _ & _ & H & _ & L). rewrite H, L. split; assumption.
  - destruct (same_attachment_notification doc false (Scroll tgt) t I)
      as (_ & _ & _ & _ & H & _ & L). rewrite H, L. split; assumption.
  - cbn [tracker_step]. unfold next_frame.
    assert (G : forall k u,
      scrollListeners u = [] /\ scrollHandlersRef u = [] ->
      scrollListeners (Nat.iter k (frame_callback L) u) = [] /\
      scrollHandlersRef (Nat.iter k (frame_callback L) u) = []).
    { induction k as [|k IH]; intros u Su; [exact Su|]. rewrite Nat.iter_succ.
      specialize (IH u Su). set (v := Nat.iter k (frame_callback L) u) in *.
      unfold frame_callback. destruct (nodeRef v) as [n|]; [|exact IH].
      destruct (measure_fields L n v)
        as (_ & _ & _ & _ & m5 & _ & _ & _ & m9 & _).
      rewrite m5, m9. exact IH. }
    apply G. split; assumption.
  - cbn. rewrite A, B. split; reflexivity.
Qed.

Lemma no_scroll_listeners_run (doc : Document) (es : list TrackerEvent) :
  forall t, scrollListeners t = [] /\ scrollHandlersRef t = [] ->
    scrollListeners (tracker_run doc false es t) = [] /\
    scrollHandlersRef (tracker_run doc false es t) = [].
Proof.
  induction es as [|e es IH]; intros t H; [exact H|].
  cbn [tracker_run]. apply IH. apply no_scroll_listeners_step. exact H.
Qed.

(** X5. Without [trackPosition] the tracker never listens to [scroll]:
    whatever happened before, a scroll of any target changes nothing of
    it, and schedules nothing. *)
Theorem scroll_ignored_without_trackPosition (doc : Document)
  (es : list TrackerEvent) (tgt : EventTarget) :
  let t := tracker_run doc false es useContainerRect_init in
  scrollListeners t = [] /\ tracker_step doc false (Scroll tgt) t = t.
Proof.
  intros t.
  destruct (no_scroll_listeners_run doc es useContainerRect_init
              (conj eq_refl eq_refl)) as [A _].
  fold t in A. split; [exact A|].
  cbn [tracker_step]. unfold scroll_on. rewrite A. reflexivity.
Qed.

Lemma detached_inert (doc : Document) (tp : bool) (e : TrackerEvent) (d : Tracker) :
  released d -> nodeRef d = None -> truthy (rafIdRef d) = false ->
  not_attach e -> tracker_step doc tp e d = d.
Proof.
  intros (A & B & C & D & E & F) N T H.
  destruct d as [hp r rn nr rr raf ro rh sh pf ni wl sl].
  cbn in A, B, C, D, E, F, N, T. subst.
  destruct raf as [[|k]|]; try discriminate T;
    destruct e; try contradiction; reflexivity.
Qed.

Lemma detached_inert_run (doc : Document) (tp : bool) (es : list TrackerEvent)
  (d : Tracker) :
  released d -> nodeRef d = None -> truthy (rafIdRef d) = false ->
  Forall not_attach es -> tracker_run doc tp es d = d.
Proof.
  intros R N T. induction es as [|e es IH]; intros F; [reflexivity|].
  inversion F as [|? ? Fe Fes]; subst. cbn [tracker_run].
  rewrite (detached_inert doc tp e d R N T Fe). apply IH. exact Fes.
Qed.

Lemma cleanup_not_truthy (t : Tracker) : truthy (rafIdRef (cleanup t)) = false.
Proof. cbn -[truthy]. destruct (rafIdRef t) as [[|k]|]; reflexivity. Qed.

(** X6. A detached tracker is inert: after a detach or an unmount, whatever
    happened before, no event but a new attach changes anything of it;
    notifications that still arrive, frames, and further detaches and
    unmounts leave the tracker, the published rect included, exactly as it
    was. *)
Theorem detached_tracker_is_inert (doc : Document) (trackPosition : bool)
  (es0 es : list TrackerEvent) :
  Forall not_attach es ->
  let t := tracker_run doc trackPosition es0 useContainerRect_init in
  tracker_run doc trackPosition es (tracker_step doc trackPosition Detach t)
    = tracker_step doc trackPosition Detach t /\
  tracker_run doc trackPosition es (tracker_step doc trackPosition Dispose t)
    = tracker_step doc trackPosition Dispose t.
Proof.
  intros F t.
  assert (I : tracker_inv t) by (apply tracker_inv_run, tracker_inv_init).
  split; apply detached_inert_run; try assumption; try reflexivity;
    try apply cleanup_not_truthy;
    exact (released_after_cleanup None t I).
Qed.


Lemma detached_tracker_is_inert_witness :
  Forall not_attach stray_events /\
  tracker_run page true stray_events
    (tracker_step page true Detach (tracker_run page true mounted useContainerRect_init))
  = tracker_step page true Detach (tracker_run page true mounted useContainerRect_init).
Proof.
  assert (F : Forall not_attach stray_events) by (repeat constructor).
  split; [exact F|].
  exact (proj1 (detached_tracker_is_inert page true mounted stray_events F)).
Defined.

(** X7. [cleanup] is idempotent, on any tracker whatever: every step of it
    is guarded by the ref it then clears, so a second call finds nothing to
    do; the same holds for an unmount and for a detach, and on a tracker
    that was never attached [cleanup] does nothing at all. *)
Theorem cleanup_idempotent (doc : Document) (trackPosition : bool)
  (L : Layout) (t : Tracker) :
  cleanup (cleanup t) = cleanup t /\
  unmount (unmount t) = unmount t /\
  ref doc trackPosition L None (ref doc trackPosition L None t)
    = ref doc trackPosition L None t /\
  cleanup useContainerRect_init = useContainerRect_init.
Proof.
  assert (C : forall u, cleanup (cleanup u) = cleanup u).
  { intros u. unfold cleanup at 1. rewrite cleanup_not_truthy.
    cbn [resizeHandlerRef scrollHandlersRef cleanup]. rewrite remove_scroll_nil.
    reflexivity. }
  split; [apply C|]. split; [|split; [|reflexivity]].
  - unfold unmount. rewrite !cleanup_set_nodeRef.
    change (set_nodeRef None (set_nodeRef None (cleanup (cleanup t)))
            = set_nodeRef None (cleanup t)).
    rewrite C. reflexivity.
  - unfold ref. rewrite <- !cleanup_set_nodeRef.
    change (cleanup (cleanup (set_nodeRef None t)) = cleanup (set_nodeRef None t)).
    apply C.
Qed.

Lemma published_observe (doc : Document) (tp : bool) (n : Element) (t : Tracker) :
  published (observe doc tp n t) = published t.
Proof. reflexivity. Qed.

Lemma published_cleanup (node : option Element) (t : Tracker) :
  published (set_nodeRef node (cleanup t)) = published t.
Proof. reflexivity. Qed.

(** X8. An attach measures at once: whatever the tracker went through, right
    after [ref(node)] the published rect has the rounded [x], [y], [width]
    and [height] of the node's geometry, each of the four, and is the
    geometry as measured when one of them differed from the rect published
    before, whichever it is; at most one update was signalled, and
    attaching the same node again at the same geometry replaces the
    listeners without publishing anything. *)
Theorem attach_publishes_at_once (doc : Document) (trackPosition : bool)
  (L : Layout) (n : Element) (t : Tracker) :
  numeric_rect (L n) ->
  let t' := tracker_step doc trackPosition (Attach L n) t in
  published t' = published (measure L n t) /\
  rounded_equal (current_rect t') (L n) /\
  (rounded_differ (current_rect t) (L n) -> current_rect t' = L n) /\
  renders t' <= S (renders t) /\
  published (tracker_step doc trackPosition (Attach L n) t') = published t'.
Proof.
  intros Num t'.
  assert (A : forall u, published (tracker_step doc trackPosition (Attach L n) u)
                        = published (measure L n u)).
  { intros u. cbn [tracker_step]. unfold ref. rewrite published_observe.
    apply published_measure. apply published_cleanup. }
  assert (Sy : rounded_equal (current_rect t') (L n)).
  { unfold t'. rewrite (current_rect_published _ _ (A t)).
    apply measure_in_sync. exact Num. }
  split; [apply A|]. split; [exact Sy|]. split; [|split].
  - unfold t'. rewrite (current_rect_published _ _ (A t)). apply measure_differ.
  - unfold t'. rewrite (renders_published _ _ (A t)). apply renders_measure.
  - rewrite (A t'). apply RectTracker.same_rounded_equal in Sy.
    rewrite (RectTracker.measure_same L n t' Sy). reflexivity.
Qed.

Lemma attach_publishes_at_once_witness :
  numeric_rect (taller probe) /\ numeric_rect (moved_down probe) /\
  current_rect (tracker_step page true (Attach taller probe) attached)
    = taller probe /\
  current_rect (tracker_step page true (Attach moved_down probe) attached)
    = moved_down probe.
Proof.
  assert (Nt : numeric_rect (taller probe)) by (repeat split).
  assert (Nd : numeric_rect (moved_down probe)) by (repeat split).
  split; [exact Nt|]. split; [exact Nd|]. split.
  - apply (proj1 (proj2 (proj2 (attach_publishes_at_once page true taller probe
                                  attached Nt)))).
    right. right. right. reflexivity.
  - apply (proj1 (proj2 (proj2 (attach_publishes_at_once page true moved_down
                                  probe attached Nd)))).
    right. left. reflexivity.
Defined.

(** *** Scroll parents, whatever the styles *)

Lemma scroll_loop_filter (doc : Document) (n : Element) :
  forall res,
    scroll_loop doc n res =
    res ++ map ElementTarget
      (filter overflow_matches
         (take_until (fun a => same_node a (body doc)) (inclusive_ancestors n))).
Proof.
  induction n as [id cs|id cs p IH] using Element_chain_ind; intros res;
    rewrite RectTracker.scroll_loop_unfold, RectTracker.inclusive_ancestors_unfold;
    cbn [take_until]; destruct (same_node _ (body doc));
    try (simpl; rewrite app_nil_r; reflexivity);
    cbn [parentElement filter map take_until] in *;
    unfold overflow_matches at 1;
    destruct (scroll_regex_test _ || scroll_regex_test _); cbn [map];
    try rewrite IH; try rewrite <- app_assoc;
    try rewrite app_nil_r; reflexivity.
Qed.

Lemma take_until_stop {A : Type} (stop : A -> bool) (l : list A) :
  Forall (fun a => stop a = false) (take_until stop l).
Proof.
  induction l as [|a l IH]; cbn; [constructor|].
  destruct (stop a) eqn:E; constructor; assumption.
Qed.

Lemma take_until_incl {A : Type} (stop : A -> bool) (l : list A) (a : A) :
  In a (take_until stop l) -> In a l.
Proof.
  induction l as [|b l IH]; cbn; [auto|].
  destruct (stop b); cbn; [contradiction|]. intros [E|I]; auto.
Qed.

(** X9. For any element and any computed styles, well-formed or not, the
    scroll parents are a selection of the proper ancestors of the element
    below [document.body], nearest first, followed by the window, which
    comes last and only once: the element itself, [document.body] and what
    is above it are never reported, and the list is never empty. *)
Theorem getScrollParents_shape (doc : Document) (el : Element) :
  let found := filter overflow_matches (ancestors_below_body doc el) in
  getScrollParents doc (Some el) = map ElementTarget found ++ [WindowTarget] /\
  Forall (fun n => In n (ancestors el) /\ same_node n (body doc) = false) found /\
  ~ In WindowTarget (map ElementTarget found) /\
  last (getScrollParents doc (Some el)) WindowTarget = WindowTarget /\
  getScrollParents doc (Some el) <> [].
Proof.
  intros found.
  assert (E : getScrollParents doc (Some el)
              = map ElementTarget found ++ [WindowTarget]).
  { unfold found, getScrollParents, ancestors_below_body, ancestors.
    destruct (parentElement el) as [n|]; [|reflexivity].
    rewrite scroll_loop_filter. reflexivity. }
  split; [exact E|]. split; [|split; [|split]].
  - apply Forall_forall. intros n Hn. unfold found in Hn.
    apply filter_In in Hn. destruct Hn as [Hn _]. unfold ancestors_below_body in Hn.
    split; [apply (take_until_incl _ _ _ Hn)|].
    pose proof (take_until_stop (fun a => same_node a (body doc)) (ancestors el)) as T.
    rewrite Forall_forall in T. apply (T n Hn).
  - intros H. apply in_map_iff in H. destruct H as (n & H & _). discriminate H.
  - rewrite E. apply last_last.
  - rewrite E. intros H. apply app_eq_nil in H. destruct H as [_ H]. discriminate H.
Qed.

End RectTrackerLifecycle.

(* ================================================================== *)
(** ** The life of a drag gesture *)
(* ================================================================== *)

Module DragGesture.

Import DragResize DragReference DragSamples NumberFacts.
Local Open Scope float_scope.

(** *** Hooks reached by gestures that do not overlap *)

Lemma gesture_inv_init (p : Params) : gesture_inv (useDragResize_init p).
Proof.
  split; [apply DragResizeController.raf_inv_init|].
  left. repeat split.
Qed.

Lemma remove_move_single (t : nat) (m : MoveListener) :
  remove_move t m [(t, m)] = [].
Proof.
  unfold remove_move, same_move. cbn. rewrite !Nat.eqb_refl. reflexivity.
Qed.

Lemma remove_up_single (t : nat) (u : UpListener) :
  remove_up t u [(t, u)] = [].
Proof.
  unfold remove_up, same_up. cbn. rewrite !Nat.eqb_refl. reflexivity.
Qed.

(** [cleanup] on a hook with one gesture running, or none, leaves nothing
    registered and nothing pending. *)
Lemma cleanup_releases (h : Hook) :
  gesture_inv h ->
  activeListenersRef (cleanup h) = no_listeners /\ unregistered (cleanup h) /\
  pendingFrames (cleanup h) = [] /\ rafIdRef (cleanup h) = None.
Proof.
  intros [(N & D & R) G].
  destruct (DragResizeController.raf_cancelled h R) as [E1 E2].
  unfold unregistered.
  destruct G as [(A & (M & U) & Q)|(tgt & m & u & A & M & U & T)];
    unfold cleanup; rewrite A, M, U;
    cbn [activeListenersRef moveListeners upListeners pendingFrames rafIdRef
         target moveHandler upHandler no_listeners];
    rewrite ?remove_move_single, ?remove_up_single, E1, E2; auto.
Qed.

Lemma releasePointerCapture_inv (tgt i : nat) (h : Hook) :
  gesture_inv h -> gesture_inv (releasePointerCapture tgt i h).
Proof. intros [(N & D & R) G]. split; [repeat split; assumption|exact G]. Qed.

Lemma handlePointerUp_releases (p : Params) (tgt i : nat) (h : Hook) :
  gesture_inv h ->
  let r := handlePointerUp p tgt i h in
  activeListenersRef r = no_listeners /\ unregistered r /\
  pendingFrames r = [] /\ rafIdRef r = None.
Proof.
  intros I. cbn zeta.
  destruct (cleanup_releases _ (releasePointerCapture_inv tgt i h I))
    as (A & U & Q & R).
  unfold handlePointerUp, call_onDimensionsChange, unregistered in *.
  destruct (onDimensionsChange p);
    cbn [activeListenersRef moveListeners upListeners pendingFrames rafIdRef
         set_isResizing]; auto.
Qed.

Lemma running_on_keeps (tgt : nat) (m : MoveListener) (u : UpListener)
  (h h' : Hook) :
  activeListenersRef h' = activeListenersRef h ->
  moveListeners h' = moveListeners h -> upListeners h' = upListeners h ->
  running_on tgt m u h -> running_on tgt m u h'.
Proof. unfold running_on. intros -> -> ->. auto. Qed.

Lemma gesture_inv_step (p : Params) (e : Event) (h : Hook) :
  gesture_inv h ->
  match e with
  | PointerDown _ _ _ _ _ => unregistered h
  | _ => True
  end ->
  gesture_inv (step p e h).
Proof.
  intros I B. pose proof I as [R G].
  split; [apply DragResizeController.raf_inv_step; exact R|].
  destruct e as [d bw tgt i px|tgt px|tgt| |d'| |]; cbn [step].
  - right. destruct B as [M U].
    exists tgt, {| move_id := nextId h;
                   move_boundaryWidth := nullish bw (maxWidth p) |},
           {| up_id := S (nextId h); up_target := tgt; up_pointerId := i |}.
    unfold running_on, initiateResize.
    cbn [activeListenersRef moveListeners upListeners up_target].
    rewrite M, U. repeat split.
  - destruct G as [(A & (M & U) & Q)|(t & m & u & G)].
    + rewrite (DragResizeController.pointermove_unregistered p tgt px h M).
      left. repeat split; assumption.
    + right. exists t, m, u.
      apply (DragResizeController.pointermove_ind (running_on t m u));
        [|exact G].
      intros bw h' G'.
      destruct (DragResizeController.handlePointerMove_keeps p bw px h')
        as (_ & _ & _ & _ & _ & _ & _ & A' & M' & U').
      exact (running_on_keeps t m u h' _ A' M' U' G').
  - destruct G as [(A & (M & U) & Q)|(t & m & u & A & M & U & T)].
    + rewrite (DragResizeController.pointerup_unregistered p tgt h U).
      left. repeat split; assumption.
    + rewrite (DragResizeController.pointerup_single p tgt t u h U).
      destruct (Nat.eqb t tgt).
      * left. destruct (handlePointerUp_releases p (up_target u)
                          (up_pointerId u) h I) as (A' & U' & Q' & _).
        repeat split; try assumption; apply U'.
      * right. exists t, m, u. repeat split; assumption.
  - destruct (DragResizeController.animation_frame_fields h)
      as (_ & _ & _ & _ & A & _ & _ & _ & _ & M & U).
    destruct G as [(A0 & (M0 & U0) & Q)|(t & m & u & G)].
    + left. rewrite (DragResizeController.animation_frame_idle h Q).
      repeat split; assumption.
    + right. exists t, m, u. exact (running_on_keeps t m u h _ A M U G).
  - exact G.
  - exact G.
  - left. destruct (cleanup_releases h I) as (A & U & Q & _).
    repeat split; try assumption; apply U.
Qed.

Lemma gesture_inv_run (p : Params) (es : list Event) :
  forall h, gesture_inv h -> bracketed p es h -> gesture_inv (run p es h).
Proof.
  induction es as [|e es IH]; intros h I B; cbn [run]; [exact I|].
  destruct B as [B1 B2]. apply IH; [|exact B2].
  apply gesture_inv_step; assumption.
Qed.

Lemma reachable_gesture_inv (p : Params) (es : list Event) :
  bracketed p es (useDragResize_init p) ->
  gesture_inv (run p es (useDragResize_init p)).
Proof. intros B. apply gesture_inv_run; [apply gesture_inv_init|exact B]. Qed.

Lemma bracketed_app (p : Params) (es fs : list Event) :
  forall h, bracketed p (es ++ fs) h ->
            bracketed p es h /\ bracketed p fs (run p es h).
Proof.
  induction es as [|e es IH]; intros h B; cbn [app bracketed run] in *;
    [split; [exact I|exact B]|].
  destruct B as [B1 B2]. destruct (IH _ B2) as [B3 B4].
  repeat split; assumption.
Qed.

(** A pointer-down of a history of gestures that do not overlap starts
    the one gesture that is running. *)
Lemma press_starts_gesture (p : Params) (es : list Event)
  (d : ResizeDirection) (bw : option number) (tgt i : nat) (px : number) :
  bracketed p (es ++ [PointerDown d bw tgt i px]) (useDragResize_init p) ->
  let h0 := run p es (useDragResize_init p) in
  let hd := step p (PointerDown d bw tgt i px) h0 in
  gesture_inv h0 /\ unregistered h0 /\ gesture_inv hd /\
  exists m u, running_on tgt m u hd /\
    move_boundaryWidth m = nullish bw (maxWidth p) /\ up_pointerId u = i.
Proof.
  intros B h0 hd. destruct (bracketed_app p es _ _ B) as [B0 [Bd _]].
  fold h0 in Bd.
  assert (I0 : gesture_inv h0) by (apply reachable_gesture_inv; exact B0).
  split; [exact I0|]. split; [exact Bd|]. split.
  - apply gesture_inv_step; assumption.
  - destruct Bd as [M U].
    exists {| move_id := nextId h0;
              move_boundaryWidth := nullish bw (maxWidth p) |},
           {| up_id := S (nextId h0); up_target := tgt; up_pointerId := i |}.
    unfold running_on, hd. cbn [step initiateResize activeListenersRef
      moveListeners upListeners up_target move_boundaryWidth up_pointerId].
    rewrite M, U. repeat split.
Qed.

(** *** Live updates *)







(** The trace of that burst: one call, with the last size. *)
Example move_burst_trace :
  calls (step live_panel AnimationFrame
           (run live_panel (pressed ++ move_burst) (useDragResize_init live_panel)))
  = [{| width := 300; height := 200 |}].
Proof. vm_compute. reflexivity. Qed.

(** *** The flags of a gesture *)

Lemma gesture_keeps (p : Params) (body : list Event) :
  Forall within_gesture body ->
  forall h,
    let h' := run p body h in
    isResizing h' = isResizing h /\ pointerCapture h' = pointerCapture h /\
    dirRef h' = dirRef h /\ activeListenersRef h' = activeListenersRef h /\
    originXRef h' = originXRef h /\ startDimsRef h' = startDimsRef h /\
    moveListeners h' = moveListeners h /\ upListeners h' = upListeners h.
Proof.
  intros F. induction F as [|e body E F IH]; intros h; [repeat split|].
  cbn [run]. cbn zeta in *.
  destruct (IH (step p e h)) as (A & B & C & D & G & H & J & K).
  rewrite A, B, C, D, G, H, J, K. clear IH A B C D G H J K.
  destruct e as [d bw tgt i px|tgt px|tgt| |d'| |]; cbn [within_gesture] in E;
    try contradiction; cbn [step].
  - apply (DragResizeController.pointermove_ind
             (fun h' => isResizing h' = isResizing h /\
                pointerCapture h' = pointerCapture h /\
                dirRef h' = dirRef h /\
                activeListenersRef h' = activeListenersRef h /\
                originXRef h' = originXRef h /\
                startDimsRef h' = startDimsRef h /\
                moveListeners h' = moveListeners h /\
                upListeners h' = upListeners h)); [|repeat split].
    intros bw h' (A & B & C & D & G & H & J & K).
    destruct (DragResizeController.handlePointerMove_keeps p bw px h')
      as (_ & _ & A' & B' & C' & G' & H' & D' & J' & K').
    repeat split; congruence.
  - destruct (DragResizeController.animation_frame_fields h)
      as (_ & _ & S & O & L & _ & A & B & C & J & K).
    repeat split; assumption.
  - repeat split.
  - repeat split.
Qed.

(** X11. The flags of a gesture that does not overlap another: in a history
    of gestures that do not overlap, a pointer-down changes neither the
    dimensions nor the trace of calls and registers exactly its two
    listeners on its target; from it until the pointer-up, through pointer
    moves, frames, renders and overrides by [setDimensions], [isResizing]
    is true, the handle holds the pointer capture, and the listeners, the
    direction, the origin and the baseline of the gesture stay as the
    pointer-down set them, the boundary width defaulting to [maxWidth]; the
    pointer-up on that target resets [isResizing], releases the capture,
    removes the listeners, so that none is registered, and keeps the
    dimensions. *)
Theorem gesture_flags (p : Params) (es body : list Event)
  (d : ResizeDirection) (bw : option number) (tgt i : nat) (px : number) :
  bracketed p (es ++ [PointerDown d bw tgt i px]) (useDragResize_init p) ->
  Forall within_gesture body ->
  let h0 := run p es (useDragResize_init p) in
  let hd := step p (PointerDown d bw tgt i px) h0 in
  let h1 := run p body hd in
  let h2 := step p (PointerUp tgt) h1 in
  (dimensions hd = dimensions h0 /\ calls hd = calls h0) /\
  (isResizing h1 = true /\ pointerCapture h1 = Some (tgt, i) /\
   (exists m u,
      running_on tgt m u h1 /\
      move_boundaryWidth m = nullish bw (maxWidth p) /\ up_pointerId u = i) /\
   dirRef h1 = d /\ originXRef h1 = px /\ startDimsRef h1 = startDimsRef hd) /\
  (isResizing h2 = false /\ pointerCapture h2 = None /\
   activeListenersRef h2 = no_listeners /\ unregistered h2 /\
   dimensions h2 = dimensions h1).
Proof.
  intros B F h0 hd h1 h2.
  destruct (press_starts_gesture p es d bw tgt i px B)
    as (I0 & U0 & Id & m & u & Rn & Bm & Bu).
  fold h0 in I0, U0. fold hd in Id, Rn.
  destruct (gesture_keeps p body F hd) as (A & C & D & L & G & H & J & K).
  fold h1 in A, C, D, L, G, H, J, K.
  assert (Rn1 : running_on tgt m u h1)
    by exact (running_on_keeps tgt m u hd h1 L J K Rn).
  split; [split; reflexivity|]. split.
  - rewrite A, C, D, G, H.
    split; [reflexivity|]. split; [reflexivity|].
    split; [exists m, u; split; [exact Rn1|split; assumption]|].
    repeat split.
  - destruct Rn1 as (A1 & M1 & U1 & T1).
    assert (I1 : gesture_inv h1).
    { split; [apply DragResizeController.raf_inv_run; apply Id|].
      right. exists tgt, m, u. repeat split; assumption. }
    subst h2. cbn [step].
    rewrite (DragResizeController.pointerup_single p tgt tgt u h1 U1).
    rewrite Nat.eqb_refl, T1, Bu.
    destruct (handlePointerUp_releases p tgt i h1 I1) as (A2 & U2 & _).
    split; [|split; [|split; [exact A2|split; [exact U2|]]]];
      unfold handlePointerUp, call_onDimensionsChange;
      destruct (onDimensionsChange p);
      cbn [isResizing pointerCapture dimensions cleanup set_isResizing
           releasePointerCapture]; try reflexivity;
      rewrite C; cbn [hd step initiateResize pointerCapture];
      rewrite !Nat.eqb_refl; reflexivity.
Qed.

Lemma gesture_flags_witness :
  bracketed panel ([] ++ [PointerDown Right None 1 1 200])
    (useDragResize_init panel) /\
  Forall within_gesture gesture_body /\
  isResizing (run panel gesture_body
    (step panel (PointerDown Right None 1 1 200)
       (run panel [] (useDragResize_init panel)))) = true /\
  unregistered
    (step panel (PointerUp 1)
       (run panel gesture_body
          (step panel (PointerDown Right None 1 1 200)
             (run panel [] (useDragResize_init panel))))).
Proof.
  assert (B : bracketed panel ([] ++ [PointerDown Right None 1 1 200])
                (useDragResize_init panel)) by (repeat split).
  assert (F : Forall within_gesture gesture_body) by (repeat constructor).
  split; [exact B|]. split; [exact F|].
  pose proof (gesture_flags panel [] gesture_body Right None 1 1 200 B F)
    as (_ & (R & _) & (_ & _ & _ & U & _)).
  split; [exact R|exact U].
Defined.

(** *** After the release *)

Lemma released_hook_inert (p : Params) (e : Event) (h : Hook) :
  activeListenersRef h = no_listeners -> unregistered h ->
  pendingFrames h = [] -> rafIdRef h = None -> after_release e ->
  step p e h = h.
Proof.
  intros A [M U] B C E. destruct h. cbn in A, M, U, B, C. subst.
  destruct e; try contradiction; reflexivity.
Qed.

Lemma released_hook_inert_run (p : Params) (es : list Event) (h : Hook) :
  activeListenersRef h = no_listeners -> unregistered h ->
  pendingFrames h = [] -> rafIdRef h = None -> Forall after_release es ->
  run p es h = h.
Proof.
  intros A U B C F. induction F as [|e es E F IH]; [reflexivity|].
  cbn [run]. rewrite (released_hook_inert p e h A U B C E). exact IH.
Qed.

(** X12. In a history of gestures that do not overlap: after an unmount,
    and after the pointer-up that ends the running gesture, no listener of
    the hook is registered on any target and no request is pending;
    pointer events on any target, frames and unmounts that still arrive
    change nothing of the hook, so the callback is not called again.  An
    unmount in the middle of a gesture calls nothing, and leaves the
    dimensions, [isResizing] and the pointer capture as they were. *)
Theorem release_is_final (p : Params) (es0 es : list Event) (tgt : nat) :
  bracketed p es0 (useDragResize_init p) -> Forall after_release es ->
  let h := run p es0 (useDragResize_init p) in
  let u := step p Unmount h in
  let r := step p (PointerUp tgt) h in
  (activeListenersRef u = no_listeners /\ unregistered u /\
   pendingFrames u = [] /\
   calls u = calls h /\ dimensions u = dimensions h /\
   isResizing u = isResizing h /\ pointerCapture u = pointerCapture h) /\
  run p es u = u /\
  (target (activeListenersRef h) = Some tgt ->
   activeListenersRef r = no_listeners /\ unregistered r /\
   pendingFrames r = [] /\ run p es r = r).
Proof.
  intros B F h u r.
  pose proof (reachable_gesture_inv p es0 B) as I. fold h in I.
  destruct (cleanup_releases h I) as (U1 & U2 & U3 & U4).
  split; [repeat split; try assumption; apply U2|].
  split; [apply released_hook_inert_run; assumption|].
  intros T. pose proof I as [_ [(A & _)|(t & m & w & A & M & U & Tw)]].
  - rewrite A in T. discriminate T.
  - rewrite A in T. cbn in T. injection T as T. subst t.
    assert (E : r = handlePointerUp p tgt (up_pointerId w) h).
    { unfold r. cbn [step].
      rewrite (DragResizeController.pointerup_single p tgt tgt w h U).
      rewrite Nat.eqb_refl, Tw. reflexivity. }
    destruct (handlePointerUp_releases p tgt (up_pointerId w) h I)
      as (R1 & R2 & R3 & R4).
    rewrite E. repeat split; try assumption; try apply R2.
    apply released_hook_inert_run; assumption.
Qed.

Lemma release_is_final_witness :
  bracketed live_panel (pressed ++ move_burst) (useDragResize_init live_panel) /\
  Forall after_release late_events /\
  run live_panel late_events
    (step live_panel Unmount
       (run live_panel (pressed ++ move_burst) (useDragResize_init live_panel)))
  = step live_panel Unmount
      (run live_panel (pressed ++ move_burst) (useDragResize_init live_panel)).
Proof.
  assert (B : bracketed live_panel (pressed ++ move_burst)
                (useDragResize_init live_panel)) by (repeat split).
  assert (F : Forall after_release late_events) by (repeat constructor).
  split; [exact B|]. split; [exact F|].
  exact (proj1 (proj2 (release_is_final live_panel (pressed ++ move_burst)
                         late_events 1 B F))).
Defined.

(** *** Repeated pointer positions *)

Lemma is_zero_Math_round (a : number) : is_zero a = true -> Math_round a = a.
Proof.
  unfold is_zero. rewrite eqb_spec, Prim2SF_zero. unfold Math_round.
  destruct (Prim2SF a) as [s|s| |s m e]; try reflexivity.
  unfold SFeqb, SFcompare. destruct s; discriminate.
Qed.

(** [Math.round] respects [===]. *)
Lemma Math_round_eqb (a b : number) :
  (a =? b) = true -> (Math_round a =? Math_round b) = true.
Proof.
  intros E. destruct (is_zero b) eqn:Z.
  - assert (Za : is_zero a = true) by (unfold is_zero in *; eapply eqb_trans; eauto).
    rewrite (is_zero_Math_round a Za), (is_zero_Math_round b Z). exact E.
  - rewrite (eqb_leibniz a b E Z). apply eqb_refl, Math_round_not_nan.
    fcmp a b; try fcontra; assumption.
Qed.

Lemma unchanged_eqb (d d' : ElementDimensions) :
  (width d =? width d') = true -> (height d =? height d') = true ->
  changed d d' = false.
Proof.
  intros W H. unfold changed, strict_neq.
  rewrite (Math_round_eqb _ _ W), (Math_round_eqb _ _ H). reflexivity.
Qed.

(** Constraining again from a constrained height gives the same size. *)
Lemma constrainWH_settled (p : Params) (h h' : Hook) (w : number) :
  well_formed p ->
  (hasAspect p = false -> is_nan (height (dimsRef h)) = false) ->
  is_nan w = false ->
  dimsRef h' = constrainWH p h w ->
  changed (dimsRef h') (constrainWH p h' w) = false.
Proof.
  intros WF Nf Nw D.
  pose proof (DragResizeController.constrainWH_in_range p h w WF Nf Nw)
    as (R1 & R2 & R3 & R4).
  rewrite <- DragResizeController.height_ceiling_bound in R4.
  assert (Nw' : is_nan (width (constrainWH p h w)) = false)
    by apply (leb_not_nan _ _ R1).
  assert (Nh' : is_nan (height (constrainWH p h w)) = false)
    by apply (leb_not_nan _ _ R3).
  rewrite D. apply unchanged_eqb.
  - apply eqb_refl. exact Nw'.
  - destruct (hasAspect p) eqn:A.
    + replace (height (constrainWH p h' w)) with (height (constrainWH p h w))
        by (unfold constrainWH; rewrite A; reflexivity).
      apply eqb_refl. exact Nh'.
    + replace (height (constrainWH p h' w))
        with (clamp (Math_max (height (constrainWH p h w)) (minHeight p))
                (minHeight p) (height_ceiling p))
        by (unfold constrainWH at 2; rewrite A, D; reflexivity).
      set (c := height (constrainWH p h w)) in *.
      destruct (Math_max_ge c (minHeight p) R3) as [M1 M2].
      destruct (clamp_inside (Math_max c (minHeight p)) (minHeight p)
                  (height_ceiling p) M2 (eqb_leb_compat _ _ _ M1 R4)) as [K _].
      pose proof (eqb_trans _ _ _ K M1) as T.
      set (c' := clamp (Math_max c (minHeight p)) (minHeight p) (height_ceiling p)) in *.
      apply cmp_facts_eq. fcmp c' c; try fcontra.
      fcmp c c'; try fcontra; trivial.
Qed.

(** One listener run twice at one position. *)
Lemma handlePointerMove_twice (p : Params) (bw px : number) (h : Hook) :
  well_formed p -> numeric_gesture p h -> is_finite px = true ->
  handlePointerMove p bw px (handlePointerMove p bw px h)
  = handlePointerMove p bw px h.
Proof.
  intros WF (G1 & G2 & G3) Fpx.
  destruct (DragResizeController.handlePointerMove_keeps p bw px h)
    as (_ & _ & _ & _ & Hd & Ho & Hs & _).
  set (h1 := handlePointerMove p bw px h) in *.
  assert (Nw : is_nan (snapWidth p (proposedW h px) bw) = false).
  { apply snapWidth_not_nan, DragResizeController.proposedW_not_nan; assumption. }
  assert (P : proposedW h1 px = proposedW h px).
  { unfold proposedW. rewrite Hd, Ho, Hs. reflexivity. }
  assert (Ch : changed (dimsRef h1) (next_dims p bw px h1) = false).
  { unfold next_dims. rewrite P.
    destruct (changed (dimsRef h) (next_dims p bw px h)) eqn:E.
    - apply (constrainWH_settled p h h1 _ WF G3 Nw).
      apply (DragResizeController.handlePointerMove_accepts p bw px h E).
    - assert (Same : h1 = h)
        by (unfold h1, handlePointerMove; rewrite E; reflexivity).
      rewrite Same. exact E. }
  unfold handlePointerMove at 1. rewrite Ch. reflexivity.
Qed.

(** X13. A pointer event at the position of the one before it changes
    nothing: in a well-formed configuration, once a [pointermove] listener
    has handled a move at a finite position, its second run at that
    position finds the rounded size unchanged, stores nothing and schedules
    no call, also when the first move was cut by a height bound; so on a
    hook with at most one [pointermove] listener registered (gestures that
    do not overlap) a second [pointermove] event at the position of the
    first leaves the hook as the first left it. *)
Theorem repeated_move_ignored (p : Params) (tgt : nat) (bw px : number)
  (h : Hook) :
  well_formed p -> numeric_gesture p h -> is_finite px = true ->
  handlePointerMove p bw px (handlePointerMove p bw px h)
    = handlePointerMove p bw px h /\
  (List.length (moveListeners h) <= 1 ->
   let h1 := step p (PointerMove tgt px) h in
   step p (PointerMove tgt px) h1 = h1).
Proof.
  intros WF G Fpx. split; [apply handlePointerMove_twice; assumption|].
  intros Len. cbn [step].
  destruct (moveListeners h) as [|[t m] [|r rest]] eqn:M;
    [| |cbn in Len; lia].
  - rewrite (DragResizeController.pointermove_unregistered p tgt px h M).
    cbn zeta. apply DragResizeController.pointermove_unregistered. exact M.
  - rewrite (DragResizeController.pointermove_single p tgt t m px h M).
    cbn zeta. destruct (Nat.eqb t tgt) eqn:T.
    + destruct (DragResizeController.handlePointerMove_keeps p
                  (move_boundaryWidth m) px h)
        as (_ & _ & _ & _ & _ & _ & _ & _ & M' & _).
      rewrite M in M'.
      rewrite (DragResizeController.pointermove_single p tgt t m px _ M'), T.
      apply handlePointerMove_twice; assumption.
    + rewrite (DragResizeController.pointermove_single p tgt t m px h M), T.
      reflexivity.
Qed.

Lemma repeated_move_ignored_witness :
  well_formed panel /\ numeric_gesture panel right_drag /\
  step panel (PointerMove 1 260) (step panel (PointerMove 1 260) right_drag)
  = step panel (PointerMove 1 260) right_drag.
Proof.
  assert (WF : well_formed panel).
  { unfold well_formed. repeat split; intros; reflexivity. }
  assert (G : numeric_gesture panel right_drag).
  { unfold numeric_gesture. repeat split; intros; reflexivity. }
  split; [exact WF|]. split; [exact G|].
  apply (proj2 (repeated_move_ignored panel 1 500 260 right_drag WF G eq_refl)).
  cbn. lia.
Defined.

(** *** The grid percentage at its edges *)

Lemma nan_unique (g : number) : is_nan g = true -> g = nan.
Proof.
  intros N. apply Prim2SF_inj. rewrite is_nan_Prim2SF in N.
  destruct (Prim2SF g); try discriminate N. reflexivity.
Qed.

Lemma nan_step (b : number) :
  (nan / 100 * b <=? 0) || negb (isFinite (nan / 100 * b)) = true.
Proof.
  assert (N : is_nan (nan / 100 * b) = true).
  { rewrite is_nan_Prim2SF, mul_spec.
    replace (Prim2SF (nan / 100)) with S754_nan by reflexivity. reflexivity. }
  unfold isFinite. destruct (is_finite (nan / 100 * b)) eqn:F.
  - apply is_finite_not_nan in F. congruence.
  - apply orb_true_r.
Qed.

(** X14. The grid percentage at its edges.  Left out, at 100 or above, or
    not a number, it switches snapping off: the proposed width is returned
    as it is, whatever the boundary width.  At 1 or below, zero and
    negative values included, it snaps exactly as 1 percent does. *)
Theorem snapWidth_gridPercent_edges (p : Params) (w b : number) :
  (gridPercent p = None -> snapWidth p w b = w) /\
  (forall g, gridPercent p = Some g -> (100 <=? g) = true ->
     snapWidth p w b = w) /\
  (forall g, gridPercent p = Some g -> is_nan g = true ->
     snapWidth p w b = w) /\
  (forall g q, gridPercent p = Some g -> (g <=? 1) = true ->
     gridPercent q = Some 1 -> snapWidth p w b = snapWidth q w b).
Proof.
  unfold snapWidth, gridPercent_of. repeat split.
  - intros ->. reflexivity.
  - intros g -> G. cbn [nullish].
    replace (clamp g 1 100) with 100; [reflexivity|].
    fcmp 100 g; try fcontra.
    + assert (E : g = 100) by (apply eqb_leibniz; [assumption|reflexivity]).
      rewrite E. reflexivity.
    + symmetry. apply clamp_above; [reflexivity|assumption].
  - intros g -> N. cbn [nullish]. rewrite (nan_unique g N).
    replace (clamp nan 1 100) with nan by reflexivity.
    replace (strict_eq nan 100) with false by reflexivity.
    rewrite nan_step. reflexivity.
  - intros g q -> G ->. cbn [nullish].
    replace (clamp g 1 100) with (clamp 1 1 100); [reflexivity|].
    destruct (Math_max_ge 1 g G) as [M _].
    unfold clamp. rewrite (eqb_leibniz _ _ M eq_refl). reflexivity.
Qed.


(** *** A press without displacement *)

Lemma sub_diag (a : number) : is_finite a = true -> a - a = 0.
Proof.
  intros F. apply Prim2SF_inj. rewrite sub_spec.
  change (Prim2SF 0) with (S754_zero false).
  apply is_finite_Prim2SF in F.
  destruct (Prim2SF a) as [s|s| |s m e]; try contradiction.
  - destruct s; reflexivity.
  - unfold SF64sub, SFsub. rewrite Z.sub_diag. reflexivity.
Qed.

Lemma add_zero (a : number) : is_nan a = false -> (a + 0 =? a) = true.
Proof.
  intros N. rewrite eqb_spec, add_spec.
  change (Prim2SF 0) with (S754_zero false).
  rewrite is_nan_Prim2SF in N.
  destruct (Prim2SF a) as [s|s| |s m e] eqn:E; try discriminate N.
  - destruct s; reflexivity.
  - destruct s; reflexivity.
  - unfold SF64add, SFadd, SFeqb. rewrite SFcompare_refl by discriminate.
    reflexivity.
Qed.

Lemma leb_eqb_compat (a b c : number) :
  (c <=? b) = true -> (a =? b) = true -> (c <=? a) = true.
Proof.
  intros A B. apply cmp_leb.
  fcmp b a; try fcontra. fcmp c b; try fcontra.
  - right. eapply cmp_eq_trans; eauto.
  - left. eapply cmp_lt_trans; eauto.
Qed.


Lemma eqb_sym (a b : number) : (a =? b) = true -> (b =? a) = true.
Proof. intros E. fcmp a b; try fcontra; assumption. Qed.

Lemma clamp_settled (v v' lo hi : number) :
  (lo <=? v) = true -> (v <=? hi) = true -> (v' =? v) = true ->
  (v =? clamp v' lo hi) = true.
Proof.
  intros A B E. apply eqb_sym.
  destruct (clamp_inside v' lo hi (leb_eqb_compat _ _ _ A E)
              (eqb_leb_compat _ _ _ E B)) as [K _].
  exact (eqb_trans _ _ _ K E).
Qed.


(** X15. A press without displacement changes nothing.  Without aspect lock
    and without snapping, on a hook that has rendered its current size,
    whose size lies within the bounds, and on which no [pointermove]
    listener is registered, a pointer move that reaches the pressed handle
    at the very position of the pointer-down, for either handle, proposes
    the baseline width, finds the rounded size unchanged, and leaves the
    hook as the pointer-down left it. *)
Theorem press_without_displacement (p : Params) (d : ResizeDirection)
  (bw : option number) (tgt i : nat) (px : number) (h : Hook) :
  well_formed p -> hasAspect p = false ->
  strict_eq (clamp (gridPercent_of p) 1 100) 100 = true ->
  dimsRef h = dimensions h -> rendered h = dimensions h ->
  moveListeners h = [] ->
  in_range p (dimensions h) ->
  is_finite px = true ->
  let hd := step p (PointerDown d bw tgt i px) h in
  (proposedW hd px =? width (dimensions h)) = true /\
  step p (PointerMove tgt px) hd = hd.
Proof.
  intros WF A G D Rd Ml (R1 & R2 & R3 & R4) F hd.
  rewrite <- DragResizeController.height_ceiling_bound in R4.
  set (c := clamp (width (dimensions h)) (minWidth p) (maxWidth p)).
  assert (P : proposedW hd px = c + 0).
  { unfold proposedW, hd. cbn [step initiateResize startDimsRef dirRef originXRef width].
    rewrite Rd. fold c. destruct d; cbn [deltaX]; rewrite (sub_diag px F); reflexivity. }
  destruct (clamp_inside _ _ _ R1 R2) as [C _]. fold c in C.
  assert (Nc : is_nan c = false) by (fcmp c (width (dimensions h)); try fcontra; assumption).
  assert (E : (c + 0 =? width (dimensions h)) = true)
    by exact (eqb_trans _ _ _ (add_zero c Nc) C).
  split; [rewrite P; exact E|].
  cbn [step]. fold hd.
  assert (M : moveListeners hd =
              [(tgt, {| move_id := nextId h;
                        move_boundaryWidth := nullish bw (maxWidth p) |})]).
  { unfold hd. cbn [step initiateResize moveListeners]. rewrite Ml. reflexivity. }
  rewrite (DragResizeController.pointermove_single p tgt tgt _ px hd M).
  rewrite Nat.eqb_refl. cbn [move_boundaryWidth].
  unfold handlePointerMove.
  replace (changed (dimsRef hd) (next_dims p (nullish bw (maxWidth p)) px hd))
    with false; [reflexivity|].
  symmetry. apply unchanged_eqb.
  - replace (width (dimsRef hd)) with (width (dimensions h))
      by (unfold hd; cbn [step initiateResize dimsRef]; rewrite D; reflexivity).
    unfold next_dims, snapWidth. rewrite G, P. cbn [constrainWH width].
    apply clamp_settled; assumption.
  - replace (height (dimsRef hd)) with (height (dimensions h))
      by (unfold hd; cbn [step initiateResize dimsRef]; rewrite D; reflexivity).
    unfold next_dims, constrainWH. rewrite A. cbn [height].
    replace (height (dimsRef hd)) with (height (dimensions h))
      by (unfold hd; cbn [step initiateResize dimsRef]; rewrite D; reflexivity).
    destruct (Math_max_ge _ _ R3) as [M3 _].
    apply clamp_settled; assumption.
Qed.

Lemma press_without_displacement_witness :
  well_formed panel /\ in_range panel (dimensions (useDragResize_init panel)) /\
  step panel (PointerMove 1 200)
    (step panel (PointerDown Left None 1 1 200) (useDragResize_init panel))
  = step panel (PointerDown Left None 1 1 200) (useDragResize_init panel).
Proof.
  assert (WF : well_formed panel).
  { unfold well_formed. repeat split; intros; reflexivity. }
  assert (R : in_range panel (dimensions (useDragResize_init panel))).
  { unfold in_range. repeat split. }
  split; [exact WF|]. split; [exact R|].
  exact (proj2 (press_without_displacement panel Left None 1 1 200
                  (useDragResize_init panel) WF eq_refl eq_refl eq_refl
                  eq_refl eq_refl R eq_refl)).
Defined.

(** Under aspect lock the same press does change the size: the 200 x 200
    player of the unit tests becomes 200 x 112.5. *)
Example press_reshapes_locked_player :
  dimensions (run player [PointerDown Right None 1 1 200; PointerMove 1 200]
                (useDragResize_init player))
  = {| width := 200; height := 112.5 |}.
Proof. vm_compute. reflexivity. Qed.

(** And so does a press that arrives before the hook has rendered the size
    [setDimensions] was handed: the baseline is the width of the latest
    render, 200, not the 400 of the state, and the move at the press
    position brings the width back to 200; with a render in between the
    size stays 400 x 300. *)
Example press_before_render :
  dimensions (run panel unrendered_press (useDragResize_init panel))
  = {| width := 200; height := 300 |} /\
  dimensions (run panel
                [SetDimensions {| width := 400; height := 300 |}; Render;
                 PointerDown Right None 1 1 200; PointerMove 1 200]
                (useDragResize_init panel))
  = {| width := 400; height := 300 |}.
Proof. split; vm_compute; reflexivity. Qed.

(** *** How often the callback is called *)

Lemma handlePointerUp_calls (p : Params) (tgt i : nat) (h : Hook) :
  (onDimensionsChange p = true ->
   calls (handlePointerUp p tgt i h) = calls h ++ [dimsRef h]) /\
  (onDimensionsChange p = false -> calls (handlePointerUp p tgt i h) = calls h) /\
  dimensions (handlePointerUp p tgt i h) = dimensions h.
Proof.
  unfold handlePointerUp, call_onDimensionsChange.
  destruct (onDimensionsChange p); repeat split; try discriminate; reflexivity.
Qed.

Lemma step_calls (p : Params) (e : Event) (h : Hook) :
  gesture_inv h ->
  List.length (calls (step p e h)) <=
    List.length (calls h) + (if is_pointer_up e then 1 else 0)
                          + (if is_frame e then 1 else 0) /\
  (pendingFrames h = [] ->
   List.length (calls (step p e h)) <=
     List.length (calls h) + (if is_pointer_up e then 1 else 0)) /\
  (pendingFrames h = [] -> onDimensionsChange p = false ->
   calls (step p e h) = calls h).
Proof.
  intros [(N & D & R) G].
  destruct e as [d bw tgt i px|tgt px|tgt| |d'| |];
    cbn [step is_pointer_up is_frame].
  - cbn [calls initiateResize]. repeat split; auto; lia.
  - rewrite DragResizeController.pointermove_calls. repeat split; auto; lia.
  - assert (E : pointerup p tgt h = h \/
                exists t i, pointerup p tgt h = handlePointerUp p t i h).
    { destruct G as [(A & (M & U) & Q)|(t & m & u & A & M & U & T)].
      - left. apply DragResizeController.pointerup_unregistered. exact U.
      - rewrite (DragResizeController.pointerup_single p tgt t u h U).
        destruct (Nat.eqb t tgt); [right; eauto|left; reflexivity]. }
    destruct E as [->|(t & i & ->)]; [repeat split; auto; lia|].
    destruct (handlePointerUp_calls p t i h) as (C1 & C2 & _).
    destruct (onDimensionsChange p).
    + rewrite (C1 eq_refl), length_app. cbn [List.length].
      repeat split; try lia; discriminate.
    + rewrite (C2 eq_refl). repeat split; auto; lia.
  - destruct R as [[R1 R2]|(id & R1 & R2)].
    + rewrite (DragResizeController.animation_frame_idle h R2).
      repeat split; auto; lia.
    + unfold animation_frame. rewrite R2. cbn. rewrite length_app.
      cbn [List.length]. repeat split; try lia; intros Q; discriminate Q.
  - cbn [calls setDims]. repeat split; auto; lia.
  - cbn [calls render]. repeat split; auto; lia.
  - cbn [calls cleanup]. repeat split; auto; lia.
Qed.

Lemma occurrences_cons (f : Event -> bool) (e : Event) (es : list Event) :
  occurrences f (e :: es) = ((if f e then 1 else 0) + occurrences f es)%nat.
Proof. unfold occurrences. cbn [filter]. destruct (f e); reflexivity. Qed.

Lemma run_calls (p : Params) (es : list Event) :
  forall h, gesture_inv h -> bracketed p es h ->
    List.length (calls (run p es h)) <=
      List.length (calls h) + occurrences is_pointer_up es
                            + occurrences is_frame es.
Proof.
  induction es as [|e es IH]; intros h I B; cbn [run]; [cbn; lia|].
  destruct B as [B1 B2].
  specialize (IH _ (gesture_inv_step p e h I B1) B2).
  destruct (step_calls p e h I) as (A & _).
  rewrite !occurrences_cons. lia.
Qed.

Lemma silent_run_calls (p : Params) (es : list Event) :
  live_of p = false \/ onDimensionsChange p = false ->
  forall h, gesture_inv h -> bracketed p es h -> pendingFrames h = [] ->
    pendingFrames (run p es h) = [] /\
    List.length (calls (run p es h)) <=
      List.length (calls h) + occurrences is_pointer_up es /\
    (onDimensionsChange p = false -> calls (run p es h) = calls h).
Proof.
  intros L. induction es as [|e es IH]; intros h I B Q; cbn [run];
    [repeat split; auto; cbn; lia|].
  destruct B as [B1 B2].
  destruct (IH _ (gesture_inv_step p e h I B1) B2
              (DragResizeController.silent_step p e h L Q)) as (A & C & D).
  destruct (step_calls p e h I) as (_ & S1 & S2).
  specialize (S1 Q). rewrite occurrences_cons.
  split; [exact A|]. split; [lia|].
  intros O. rewrite (D O). apply S2; assumption.
Qed.

(** X16. How often the callback is called.  Over the whole life of a hook
    whose gestures do not overlap, [onDimensionsChange] is called at most
    once per pointer-up and once per animation frame.  With [live] off no
    animation frame is ever requested and it is called at most once per
    pointer-up.  Without a callback nothing is requested and nothing is
    called. *)
Theorem calls_accounted (p : Params) (es : list Event) :
  bracketed p es (useDragResize_init p) ->
  let h := run p es (useDragResize_init p) in
  List.length (calls h) <=
    occurrences is_pointer_up es + occurrences is_frame es /\
  (live_of p = false ->
   pendingFrames h = [] /\
   List.length (calls h) <= occurrences is_pointer_up es) /\
  (onDimensionsChange p = false -> pendingFrames h = [] /\ calls h = []).
Proof.
  intros B h.
  pose proof (gesture_inv_init p) as I.
  split; [exact (run_calls p es _ I B)|]. split.
  - intros L.
    destruct (silent_run_calls p es (or_introl L) _ I B eq_refl) as (A & C & _).
    split; [exact A|exact C].
  - intros O.
    destruct (silent_run_calls p es (or_intror O) _ I B eq_refl) as (A & _ & C).
    split; [exact A|exact (C O)].
Qed.

Lemma calls_accounted_witness :
  bracketed live_panel (pressed ++ move_burst ++ late_events)
    (useDragResize_init live_panel) /\
  List.length (calls (run live_panel (pressed ++ move_burst ++ late_events)
                        (useDragResize_init live_panel))) <=
    occurrences is_pointer_up (pressed ++ move_burst ++ late_events) +
    occurrences is_frame (pressed ++ move_burst ++ late_events).
Proof.
  assert (B : bracketed live_panel (pressed ++ move_burst ++ late_events)
                (useDragResize_init live_panel)) by (repeat split).
  split; [exact B|].
  exact (proj1 (calls_accounted live_panel (pressed ++ move_burst ++ late_events) B)).
Defined.

(** *** The call on pointer-up *)

Lemma drag_keeps_registry (p : Params) (body : list Event) :
  Forall during_drag body ->
  forall h,
    activeListenersRef (run p body h) = activeListenersRef h /\
    moveListeners (run p body h) = moveListeners h /\
    upListeners (run p body h) = upListeners h.
Proof.
  intros F. induction F as [|e body E F IH]; intros h; [repeat split|].
  cbn [run]. destruct (IH (step p e h)) as (A & M & U). rewrite A, M, U.
  destruct e as [d bw tgt i px|tgt px|tgt| |d'| |]; cbn [during_drag] in E;
    try contradiction; cbn [step].
  - apply (DragResizeController.pointermove_ind
             (fun h' => activeListenersRef h' = activeListenersRef h /\
                        moveListeners h' = moveListeners h /\
                        upListeners h' = upListeners h)); [|repeat split].
    intros bw h' (A' & M' & U').
    destruct (DragResizeController.handlePointerMove_keeps p bw px h')
      as (_ & _ & _ & _ & _ & _ & _ & A'' & M'' & U'').
    repeat split; congruence.
  - destruct (DragResizeController.animation_frame_fields h)
      as (_ & _ & _ & _ & A' & _ & _ & _ & _ & M' & U').
    repeat split; assumption.
  - repeat split.
Qed.

(** X17. The call on pointer-up, for gestures that do not overlap.  In a
    history of gestures that do not overlap, for a gesture (pointer-down,
    then pointer moves, animation frames and renders, then the pointer-up
    on the pressed handle): with [live] off, [onDimensionsChange] is not
    called between pointer-down and pointer-up; and whatever [live] is, the
    pointer-up calls a supplied callback exactly once, with the final
    dimensions, and leaves no request behind that could call it again;
    without a callback nothing is called. *)
Theorem release_notifies_once (p : Params) (es body : list Event)
  (d : ResizeDirection) (bw : option number) (tgt i : nat) (px : number) :
  bracketed p (es ++ [PointerDown d bw tgt i px]) (useDragResize_init p) ->
  Forall during_drag body ->
  let h0 := run p es (useDragResize_init p) in
  let h1 := run p (PointerDown d bw tgt i px :: body) h0 in
  let h2 := step p (PointerUp tgt) h1 in
  (live_of p = false -> calls h1 = calls h0)
  /\ (onDimensionsChange p = true ->
      calls h2 = calls h1 ++ [dimensions h1] /\
      dimensions h2 = dimensions h1 /\
      pendingFrames h2 = [] /\
      calls (step p AnimationFrame h2) = calls h2)
  /\ (onDimensionsChange p = false -> calls h2 = calls h1).
Proof.
  intros B F h0 h1 h2.
  destruct (press_starts_gesture p es d bw tgt i px B)
    as (I0 & U0 & Id & m & u & (A & M & U & T) & Bm & Bu).
  split; [intros L; exact (DragResizeController.quiet_gesture p es body d bw tgt i px L F)|].
  set (hd := step p (PointerDown d bw tgt i px) h0) in *.
  assert (E1 : h1 = run p body hd) by reflexivity.
  destruct (drag_keeps_registry p body F hd) as (A1 & M1 & U1).
  rewrite <- E1 in A1, M1, U1.
  assert (I1 : gesture_inv h1).
  { split; [rewrite E1; apply DragResizeController.raf_inv_run; apply Id|].
    right. exists tgt, m, u. unfold running_on.
    rewrite A1, M1, U1. repeat split; assumption. }
  assert (E2 : h2 = handlePointerUp p tgt i h1).
  { unfold h2. cbn [step].
    rewrite (DragResizeController.pointerup_single p tgt tgt u h1)
      by (rewrite U1; exact U).
    rewrite Nat.eqb_refl, T, Bu. reflexivity. }
  destruct (handlePointerUp_calls p tgt i h1) as (C1 & C2 & C3).
  destruct (handlePointerUp_releases p tgt i h1 I1) as (_ & _ & Q & _).
  destruct I1 as [(_ & D1 & _) _].
  rewrite E2. split; [|exact C2].
  intros O. split; [rewrite (C1 O), D1; reflexivity|].
  split; [exact C3|]. split; [exact Q|].
  cbn [step]. rewrite DragResizeController.animation_frame_idle; [reflexivity|exact Q].
Qed.

Lemma release_notifies_once_witness :
  bracketed live_panel ([] ++ [PointerDown Right None 1 1 200])
    (useDragResize_init live_panel) /\
  Forall during_drag sample_moves /\
  calls (step live_panel (PointerUp 1)
           (run live_panel (PointerDown Right None 1 1 200 :: sample_moves)
              (run live_panel [] (useDragResize_init live_panel)))) =
  calls (run live_panel (PointerDown Right None 1 1 200 :: sample_moves)
           (run live_panel [] (useDragResize_init live_panel))) ++
  [dimensions
     (run live_panel (PointerDown Right None 1 1 200 :: sample_moves)
        (run live_panel [] (useDragResize_init live_panel)))].
Proof.
  assert (B : bracketed live_panel ([] ++ [PointerDown Right None 1 1 200])
                (useDragResize_init live_panel)) by (repeat split).
  assert (F : Forall during_drag sample_moves) by (repeat constructor).
  split; [exact B|]. split; [exact F|].
  exact (proj1 (proj1 (proj2 (release_notifies_once live_panel [] sample_moves
                                Right None 1 1 200 B F)) eq_refl)).
Defined.

(** The traces of that drag with [live] off and on. *)
Example sample_drag_traces :
  calls (run panel (PointerDown Right None 1 1 200 :: sample_moves)
           (useDragResize_init panel)) = [] /\
  calls (run panel (PointerDown Right None 1 1 200 :: sample_moves ++ [PointerUp 1])
           (useDragResize_init panel)) = [{| width := 300; height := 200 |}] /\
  calls (run live_panel
           (PointerDown Right None 1 1 200 :: sample_moves ++ [PointerUp 1; AnimationFrame])
           (useDragResize_init live_panel)) =
    [{| width := 260; height := 200 |}; {| width := 300; height := 200 |}].
Proof. repeat split; vm_compute; reflexivity. Qed.

End DragGesture.
